(** * Santa Tracker release build: a shallow embedding

    The model follows [release.js] (the build driver: catalog loading,
    document fanout, entry extraction, the virtual module loader and the
    end-of-build summary) and the development helper [_msg].

    JavaScript data is modelled as the code has it: strings as [string],
    a plain object used as a dictionary as a finite map of its own
    properties together with the names it inherits from
    [Object.prototype], a [Map] as an association list in insertion
    order, a [Set] as a duplicate-free list in insertion order, and
    [undefined] results as [option].  Exceptions are explicit: a
    computation either completes normally or throws, and what was written
    before a throw stays written. *)

From stdpp Require Import gmap strings list pretty.
From Stdlib Require Import Ascii QArith.
Close Scope Q_scope.
Set Warnings "-register-all".

(** ** JavaScript basics *)

Module Js.

Inductive error : Type :=
| TypeError (msg : string)
| ReferenceError (msg : string)
| Error (msg : string).

Inductive completion (A : Type) : Type :=
| Normal (a : A)
| Throw (e : error).
Global Arguments Normal {A} a.
Global Arguments Throw {A} e.

Definition is_normal {A} (c : completion A) : bool :=
  match c with Normal _ => true | Throw _ => false end.

(** The property names every plain object inherits from
    [Object.prototype]. *)
Definition objectPrototype : list string :=
  [ "constructor"; "__defineGetter__"; "__defineSetter__"; "hasOwnProperty";
    "__lookupGetter__"; "__lookupSetter__"; "isPrototypeOf";
    "propertyIsEnumerable"; "toString"; "valueOf"; "__proto__";
    "toLocaleString" ].

Definition inherited (k : string) : bool :=
  bool_decide (k ∈ objectPrototype).

(** [k in o] for a plain object [o] with own properties [own]: the
    operator walks the prototype chain. *)
Definition has_in {V} (own : gmap string V) (k : string) : bool :=
  bool_decide (is_Some (own !! k)) || inherited k.

(** The result of reading [o[k]] on a plain object. *)
Inductive property (V : Type) : Type :=
| Own (v : V)
| Inherited (name : string)
| Undefined.
Global Arguments Own {V} v.
Global Arguments Inherited {V} name.
Global Arguments Undefined {V}.

Definition get {V} (own : gmap string V) (k : string) : property V :=
  match own !! k with
  | Some v => Own v
  | None => if inherited k then Inherited k else Undefined
  end.

(** Truthiness of a string: only the empty string is falsy. *)
Definition truthy (s : string) : bool := negb (String.eqb s "").

(** [s.startsWith(p)] *)
Definition startsWith (s p : string) : bool := String.prefix p s.

(** [s.indexOf(p)], with [None] for [-1]. *)
Definition indexOf (s p : string) : option nat := String.index 0 p s.

(** [s.slice(k)] for [0 <= k]. *)
Fixpoint slice (s : string) (k : nat) : string :=
  match k, s with
  | O, _ => s
  | S k', String _ s' => slice s' k'
  | S _, EmptyString => EmptyString
  end.

(** A [Set] of strings: insertion order, no duplicates. *)
Definition Set_add (s : list string) (x : string) : list string :=
  if bool_decide (x ∈ s) then s else s ++ [x].

(** A [Map] with string keys: insertion order, [set] on an existing key
    replaces its value in place. *)
Fixpoint Map_get {V} (m : list (string * V)) (k : string) : option V :=
  match m with
  | [] => None
  | (k', v) :: r => if String.eqb k' k then Some v else Map_get r k
  end.

Fixpoint Map_set {V} (m : list (string * V)) (k : string) (v : V)
  : list (string * V) :=
  match m with
  | [] => [(k, v)]
  | (k', v') :: r =>
      if String.eqb k' k then (k, v) :: r else (k', v') :: Map_set r k v
  end.

Definition Map_keys {V} (m : list (string * V)) : list string := m.*1.

(** [k in o] for an ordinary object [o] whose own properties are listed,
    in key order, by [m]: the own keys and the names inherited from
    [Object.prototype]. *)
Definition key_in {V} (m : list (string * V)) (k : string) : bool :=
  bool_decide (k ∈ Map_keys m) || inherited k.

End Js.

Import Js.

(** ** Effects of the build: the file system and the console *)

(** What the quotient of the summary is when no language is left: a
    positive size over zero is [Infinity], zero over zero is [NaN]. *)
Inductive ZeroDivision : Type :=
| RatioInfinity
| RatioNaN.

(** One record per [log] / [console.info] / [console.warn] statement of
    release.js. The
    summary lines are kept as a finite map from message id to the ratio
    printed for it (before [toFixed] renders it) and the language list
    shown when it has at most ten members; the order of those lines is
    not modelled. [LogMissingNoLangs] is the summary of a build that is
    left with no language at all. *)
Inductive LogLine : Type :=
| LogBuilding (build : string)
| LogFoundLangs (count : nat)
| LogFoundScenes (count : nat)
| LogWrittenProd (count : nat)
| LogFoundEntrypoints (count : nat)
| LogGenerated (count : nat)
| LogWrittenBytes (count : nat)
| LogEntrypoint (filename : string)
| LogMissing (count : nat) (lines : gmap string (Q * option (list string)))
| LogMissingNoLangs (count : nat)
    (lines : gmap string (ZeroDivision * option (list string)))
| LogDone
| LogWarn (err : error).

Record World : Type := mkWorld {
  dirs : list string;                (* fsp.mkdirp *)
  copies : list (string * string);   (* fsp.copyFile src dst *)
  files : list (string * string);    (* fsp.writeFile target content *)
  console : list LogLine;
}.

Definition emptyWorld : World := mkWorld [] [] [] [].

(** A build step: runs in a world, completes or throws, and leaves the
    world as it was at that point. *)
Definition Build (A : Type) : Type := World → completion A * World.

#[global] Instance Build_ret : MRet Build := λ A a w, (Normal a, w).
#[global] Instance Build_bind : MBind Build := λ A B f m w,
  match m w with
  | (Normal a, w') => f a w'
  | (Throw e, w') => (Throw e, w')
  end.

Definition throw {A} (e : error) : Build A := λ w, (Throw e, w).

Definition lift {A} (c : completion A) : Build A := λ w, (c, w).

Definition fsp_mkdirp (d : string) : Build unit := λ w,
  (Normal (), mkWorld (dirs w ++ [d]) (copies w) (files w) (console w)).

Definition fsp_copyFile (src dst : string) : Build unit := λ w,
  (Normal (), mkWorld (dirs w) (copies w ++ [(src, dst)]) (files w) (console w)).

Definition fsp_writeFile (target content : string) : Build unit := λ w,
  (Normal (), mkWorld (dirs w) (copies w) (files w ++ [(target, content)]) (console w)).

Definition log (l : LogLine) : Build unit := λ w,
  (Normal (), mkWorld (dirs w) (copies w) (files w) (console w ++ [l])).

(** [for (const x of l) { await f(x) }] *)
Fixpoint forEach {A} (l : list A) (f : A → Build unit) : Build unit :=
  match l with
  | [] => mret ()
  | x :: r => f x ;; forEach r f
  end.

(** [for (const x of l) { acc = await f(acc, x) }] *)
Fixpoint foldM {A S} (f : S → A → Build S) (l : list A) (acc : S) : Build S :=
  match l with
  | [] => mret acc
  | x :: r => acc' ← f acc x; foldM f r acc'
  end.

(** ** Configuration and collaborators *)

(** The options of [yargs] that [release] reads. *)
Record Yargs : Type := mkYargs {
  build : string;
  defaultLang : string;
  defaultOnly : bool;
  baseurl : string;
  prodBase : string;   (* the option named prod *)
}.

(** Node's [path] module. *)
Class Path : Type := {
  path_dirname : string → string;
  path_basename : string → string;
  path_join : list string → string;
  path_resolve : string → string → string;
  path_relative : string → string → string;
}.

(** A language's lookup function, [messages(msgid)]. *)
Definition Messages : Type := string → string.

(** What [i18n.all] (build/i18n.js) does in one run: the absences it
    reports to its callback, in call order, and the object it returns,
    language code to lookup function, in key order. *)
Class Catalogs : Type := {
  i18n_absent : list (string * string);   (* (lang, msgid) *)
  i18n_langs : list (string * Messages);
}.

(** An entry of [scenes.json5]. *)
Record SceneInfo : Type := mkSceneInfo {
  msgid : option string;   (* present when ['msgid' in info] *)
  video : bool;            (* truthiness of [info.video] *)
}.

(** What the document callback passed to [releaseHtml.prod] does to the
    template. *)
Record DocEdit : Type := mkDocEdit {
  data_static : string;
  data_version : option string;
  og_image : option string;
  title_msgid : option string;
}.

(** A [<script>] element, by the three properties [release] reads and
    writes. An absent attribute reads as the empty string. *)
Record ScriptNode : Type := mkScriptNode {
  type : string;
  src : string;
  textContent : string;
}.

(** A [<link rel="stylesheet">] element: its [href], and whether it is
    itself the element with id [DEV]. *)
Record StyleLink : Type := mkStyleLink {
  href : string;
  link_isDev : bool;
}.

(** The remaining build helpers and inputs on disk. *)
Class Site : Type := {
  glob_prodAll : list string;        (* prod/**, no html, no manifest *)
  glob_prodOtherHtml : list string;  (* prod/*.html but index.html *)
  scenes : list (string * option SceneInfo);
  fsp_exists : string → bool;
  releaseHtml_prod : string → DocEdit → Messages → string;
  manifest_stringify : string → string;   (* JSON of the manifest with that name *)
  htmlFiles : list string;           (* index.html, then scenes/*/index.html *)
  dom_read : string → list ScriptNode;
  dom_styles : string → list StyleLink;  (* every link[rel="stylesheet"] *)
  dom_inDev : string → nat → bool;  (* is the i-th script #DEV or inside it? *)
  isUrl : string → bool;
}.

(** The result of the compiling loader, [{body}]; [body] is the text
    [out.body.toString()] yields. *)
Record LoaderOut : Type := mkLoaderOut { body : string }.

(** [loader(path, {compile: true})] of loader.js: a compiled output,
    [undefined], or a failure. *)
Class Compiler : Type := {
  loader : string → completion (option LoaderOut);
}.

(** A registered entry point: the script node it came from, as a
    reference (document index, script index) into the document store,
    the directory of the owning document, and its source text. *)
Record EntryPoint : Type := mkEntryPoint {
  scriptNode : nat * nat;
  dir : string;
  code : string;
}.

(** A hook call the bundler makes on the virtual loader plugin. *)
Inductive HookCall : Type :=
| CallResolveId (id : string) (importer : option string)
| CallLoad (id : string).

(** Rollup, Babel and Terser: the hook calls made while the graph is
    built, the generated output (file name, [isEntry], code), the
    transpiled and minified ES module code of a chunk, and the code of
    the ES5 bundle of an entry point. *)
Class Bundler : Type := {
  rollup_calls : list (string * EntryPoint) → list HookCall;
  rollup_output : list (string * EntryPoint) → list (string * (bool * string));
  transformES : string → string → string;
  rollup_es5 : string → string;
}.

(** ** Small functions of release.js *)

Definition pathForLang (yargs : Yargs) (lang : string) : string :=
  if String.eqb lang (defaultLang yargs) then "."
  else "intl/" +:+ lang +:+ "_ALL".

Definition copy `{Path} (src dst : string) : Build unit :=
  fsp_mkdirp (path_dirname dst) ;;
  fsp_copyFile src dst.

Definition releaseAll `{Path} (all : list string) : Build unit :=
  forEach all (λ p, copy p (path_join ["dist"; p])).

Definition write `{Path} (target content : string) : Build unit :=
  fsp_mkdirp (path_dirname target) ;;
  fsp_writeFile target content.

Definition msgidForScene (id : string) (info : option SceneInfo) : string :=
  match info with
  | None => "santatracker"
  | Some i =>
      if negb (truthy id) then "santatracker"
      else match msgid i with
           | Some m => m
           | None => if video i then "scene_videoscene_" +:+ id
                     else "scene_" +:+ id
           end
  end.

(** ** Catalog loading and the missing-message ledger *)

(** The callback [release] hands to [i18n.all]. [missingMessages] is a
    plain object created by an object literal, so [msgid in missingMessages]
    also holds for the names inherited from [Object.prototype]; no [Set]
    is created for those, and calling [add] on what is found there fails. *)
Definition recordMissing (missingMessages : gmap string (list string))
    (lang msgid : string) : completion (gmap string (list string)) :=
  let missingMessages :=
    if negb (has_in missingMessages msgid)
    then <[msgid := []]> missingMessages
    else missingMessages in
  match get missingMessages msgid with
  | Own langs => Normal (<[msgid := Set_add langs lang]> missingMessages)
  | Inherited _ => Throw (TypeError "missingMessages[msgid].add is not a function")
  | Undefined => Throw (TypeError "Cannot read property 'add' of undefined")
  end.

(** Modelled from the spec: [i18n.all] of build/i18n.js, which is not part
    of the sources at hand. It invokes its callback once for every
    (language, msgid) found absent and returns the language table. An
    exception of the callback propagates to the caller. *)
Fixpoint i18n_invoke {S} (callback : S → string → string → completion S)
    (absent : list (string * string)) (st : S) : completion S :=
  match absent with
  | [] => Normal st
  | (lang, msgid) :: rest =>
      match callback st lang msgid with
      | Normal st' => i18n_invoke callback rest st'
      | Throw e => Throw e
      end
  end.

(** Modelled from the spec: the call [i18n.all(callback)] as a whole, the
    reported absences first, then the language table as result. *)
Definition i18n_all `{Catalogs} {S} (callback : S → string → string → completion S)
    (st : S) : completion (S * list (string * Messages)) :=
  match i18n_invoke callback i18n_absent st with
  | Normal st' => Normal (st', i18n_langs)
  | Throw e => Throw e
  end.

(** Lines 245-262 of [release]: load the catalogs, check the default
    language, and drop the other languages under [--default-only]. [langs]
    is the object build/i18n.js returns, taken to be an ordinary object
    with one own property per language: [lang in langs] holds for its keys
    and for the names it inherits from [Object.prototype], and
    [Object.keys(langs)] lists its keys. *)
Definition loadCatalogs `{Catalogs} (yargs : Yargs)
  : Build (gmap string (list string) * list (string * Messages)) :=
  '(missingMessages, langs) ← lift (i18n_all recordMissing ∅);
  if negb (key_in langs (defaultLang yargs))
  then throw (Error ("default lang '" +:+ defaultLang yargs +:+ "' not found in _messages"))
  else
    let langs :=
      if defaultOnly yargs
      then filter (λ p, p.1 = defaultLang yargs) langs
      else langs in
    log (LogFoundLangs (length langs)) ;;
    mret (missingMessages, langs).

(** ** Document fanout *)

Definition fanoutLangs `{Path} (yargs : Yargs) (langs : list (string * Messages))
    (filename : string) (documentForLang : Messages → string) (count : nat)
  : Build nat :=
  foldM (λ count p,
           let target := path_join ["dist/prod"; pathForLang yargs p.1; filename] in
           write target (documentForLang p.2) ;;
           mret (S count))
        langs count.

Definition fanoutPages `{Path, Site} (yargs : Yargs) (staticPath : string)
    (langs : list (string * Messages)) (count : nat) : Build nat :=
  foldM (λ count htmlFile,
           let documentForLang :=
             releaseHtml_prod htmlFile (mkDocEdit staticPath None None None) in
           fanoutLangs yargs langs (path_basename htmlFile) documentForLang count)
        glob_prodOtherHtml count.

Definition sceneEdit `{Site} (yargs : Yargs) (staticPath : string)
    (sceneName : string) (info : option SceneInfo) : DocEdit :=
  let image := "prod/images/og/" +:+ sceneName +:+ ".png" in
  mkDocEdit staticPath (Some (build yargs))
    (if fsp_exists image
     then Some (prodBase yargs +:+ "images/og/" +:+ sceneName +:+ ".png")
     else None)
    (Some (msgidForScene sceneName info)).

Definition fanoutScenes `{Path, Site} (yargs : Yargs) (staticPath : string)
    (langs : list (string * Messages)) (count : nat) : Build nat :=
  foldM (λ count scene,
           let sceneName := scene.1 in
           let documentForLang :=
             releaseHtml_prod "prod/index.html"
               (sceneEdit yargs staticPath sceneName scene.2) in
           let filename :=
             if String.eqb sceneName "" then "index.html"
             else sceneName +:+ ".html" in
           fanoutLangs yargs langs filename documentForLang count)
        scenes count.

Definition writeManifests `{Path, Site} (yargs : Yargs)
    (langs : list (string * Messages)) : Build unit :=
  forEach langs (λ p,
    let target := path_join ["dist/prod"; pathForLang yargs p.1; "manifest.json"] in
    write target (manifest_stringify (p.2 "santatracker"))).

(** ** Entry extraction *)

(** The filter of [allScripts]: scripts whose source is not a remote URL. *)
Definition isLocal `{Site} (s : ScriptNode) : bool :=
  negb (truthy (src s) && isUrl (src s)).

Definition isClassic (s : ScriptNode) : bool :=
  truthy (src s) && (negb (truthy (type s)) || String.eqb (type s) "text/javascript").

Definition isModule (s : ScriptNode) : bool := String.eqb (type s) "module".

(** [moduleScriptNodes], as references (indices) into the document:
    the positions, in document order, of the scripts that pass the filter
    of [allScripts] and have type [module]. *)
Definition isModuleScript `{Site} (nodes : list ScriptNode) (i : nat) : bool :=
  match nodes !! i with
  | Some s => isLocal s && isModule s
  | None => false
  end.

Definition moduleScriptNodes `{Site} (nodes : list ScriptNode) : list nat :=
  filter (λ i, isModuleScript nodes i = true) (seq 0 (length nodes)).

(** The identifier of the next entry point, [`e${entrypoints.size}.js`]. *)
Definition entryId (size : nat) : string := "e" +:+ pretty size +:+ ".js".

(** The source text of the entry point made for a module script. *)
Definition entryCode (scriptNode : ScriptNode) : string :=
  let code := textContent scriptNode in
  if truthy (src scriptNode)
  then
    let src := src scriptNode in
    let src := if negb (startsWith src ".") then "./" +:+ src else src in
    "import '" +:+ src +:+ "';"
  else code.

(** One turn of the loop over [moduleScriptNodes]: register an entry
    point for the node and clear the node. *)
Definition registerModule (doc : nat) (dir : string)
    (st : list (string * EntryPoint) * list ScriptNode) (i : nat)
  : list (string * EntryPoint) * list ScriptNode :=
  let '(entrypoints, nodes) := st in
  match nodes !! i with
  | None => st
  | Some scriptNode =>
      let code := entryCode scriptNode in
      let id := entryId (length entrypoints) in
      (Map_set entrypoints id (mkEntryPoint (doc, i) dir code),
       <[i := mkScriptNode (type scriptNode) "" ""]> nodes)
  end.

(** What the extraction loop carries: the entry registry, the required
    classic scripts, the documents read so far ([htmlDocuments]), each by
    the script nodes [querySelectorAll('script')] found in it at line 350,
    and the references of the script nodes that have been taken out of
    their document since. *)
Record Extraction : Type := mkExtraction {
  entrypoints : list (string * EntryPoint);
  requiredScriptSources : list string;
  htmlDocuments : list (string * list ScriptNode);
  detached : list (nat * nat);
}.

(** The scripts [devNode.remove()] takes out of the document, lines
    356-357: the element with id [DEV] if it is a script, and those inside
    it. They were taken into [allScripts] before and stay there. *)
Definition devScripts `{Site} (htmlFile : string) : list nat :=
  filter (λ i, dom_inDev htmlFile i = true) (seq 0 (length (dom_read htmlFile))).

(** One turn of the loop over [htmlFiles], lines 344-397, but for the
    style sheets, which [inlineStyles] compiles. The version stamp on the
    body is no script and is left out. *)
Definition extractDocument `{Path, Site} (ex : Extraction) (htmlFile : string)
  : Extraction :=
  let dir := path_dirname htmlFile in
  let nodes := dom_read htmlFile in
  let allScripts := filter (λ s, isLocal s) nodes in
  let gone := (λ i, (length (htmlDocuments ex), i)) <$> devScripts htmlFile in
  let required :=
    foldl Set_add (requiredScriptSources ex)
      ((λ s, path_join [dir; src s]) <$> filter (λ s, isClassic s) allScripts) in
  let '(entrypoints, nodes) :=
    foldl (registerModule (length (htmlDocuments ex)) dir)
      (entrypoints ex, nodes) (moduleScriptNodes nodes) in
  mkExtraction entrypoints required (htmlDocuments ex ++ [(htmlFile, nodes)])
    (detached ex ++ gone).

(** What the loop over [htmlFiles] has built when it completes. *)
Definition extractEntries `{Path, Site} : Extraction :=
  foldl extractDocument (mkExtraction [] [] [] []) htmlFiles.

(** Lines 359-368 of a turn: every style sheet that is no remote URL is
    compiled by the loader and inlined. The loader is the one the plugin
    uses; it may throw, and reading [body] of an [undefined] result
    throws. The style tag replaces the link in its parent, which a link
    that was removed as the element [DEV] no longer has. *)
Fixpoint inlineStyleLinks `{Path, Site, Compiler} (dir : string)
    (styleLinks : list StyleLink) : completion unit :=
  match styleLinks with
  | [] => Normal ()
  | styleLink :: rest =>
      if isUrl (href styleLink) then inlineStyleLinks dir rest
      else
        match loader (path_join [dir; href styleLink]) with
        | Throw e => Throw e
        | Normal None => Throw (TypeError "Cannot read property 'body' of undefined")
        | Normal (Some out) =>
            if link_isDev styleLink
            then Throw (TypeError "Cannot read property 'replaceChild' of null")
            else inlineStyleLinks dir rest
        end
  end.

Definition inlineStyles `{Path, Site, Compiler} (htmlFile : string)
  : completion unit :=
  inlineStyleLinks (path_dirname htmlFile) (dom_styles htmlFile).

(** The loop over [htmlFiles] as it runs: a style sheet that does not
    compile ends it, and the build with it. *)
Fixpoint extractFiles `{Path, Site, Compiler} (files : list string)
    (ex : Extraction) : completion Extraction :=
  match files with
  | [] => Normal ex
  | htmlFile :: rest =>
      match inlineStyles htmlFile with
      | Throw e => Throw e
      | Normal _ => extractFiles rest (extractDocument ex htmlFile)
      end
  end.

Definition extractAll `{Path, Site, Compiler} : completion Extraction :=
  extractFiles htmlFiles (mkExtraction [] [] [] []).

(** ** The virtual loader plugin *)

(** The state the plugin closes over: [virtualCache], by its own
    properties, and the paths handed to the compiling loader so far, oldest
    first. The keys written to [virtualCache] are entry ids and results of
    [path.resolve], which are never names of [Object.prototype]; reads go
    through the prototype chain, see [load]. *)
Record Plugin : Type := mkPlugin {
  virtualCache : gmap string string;
  compiled : list string;
}.

Definition emptyPlugin : Plugin := mkPlugin ∅ [].

(** The base directory and the absolute path of a relative resolution. *)
Definition importerDir `{Path} (entrypoints : list (string * EntryPoint))
    (importer : string) : string :=
  match Map_get entrypoints importer with
  | Some data => dir data
  | None => path_dirname importer
  end.

Definition resolvedPath `{Path} (entrypoints : list (string * EntryPoint))
    (id importer : string) : string :=
  path_resolve (importerDir entrypoints importer) id.

(** [virtualLoader.resolveId(id, importer)]; [None] as result is
    [undefined]. *)
Definition resolveId `{Path, Compiler} (entrypoints : list (string * EntryPoint))
    (id : string) (importer : option string) (p : Plugin)
  : completion (option string) * Plugin :=
  match importer with
  | None =>
      match Map_get entrypoints id with
      | None => (Throw (TypeError "Cannot read property 'code' of undefined"), p)
      | Some data =>
          (Normal (Some id), mkPlugin (<[id := code data]> (virtualCache p)) (compiled p))
      end
  | Some importer =>
      let resolved := resolvedPath entrypoints id importer in
      let p := mkPlugin (virtualCache p) (compiled p ++ [resolved]) in
      match loader resolved with
      | Throw e => (Throw e, p)
      | Normal (Some out) =>
          (Normal (Some resolved), mkPlugin (<[resolved := body out]> (virtualCache p)) (compiled p))
      | Normal None => (Normal None, p)
      end
  end.

(** What [virtualCache[id]] finds on the plain object [virtualCache]: a
    text stored under [id], or the member of [Object.prototype] of that
    name when nothing is stored under it. *)
Inductive Cached : Type :=
| CachedText (text : string)
| CachedMember (name : string).

(** [virtualLoader.load(id)]; [None] as result is [undefined]. *)
Definition load (id : string) (p : Plugin) : option Cached :=
  match get (virtualCache p) id with
  | Own text => Some (CachedText text)
  | Inherited name => Some (CachedMember name)
  | Undefined => None
  end.

(** What a hook call returns. *)
Inductive HookResult : Type :=
| Resolved (r : option string)
| Loaded (content : option Cached).

Definition callHook `{Path, Compiler} (entrypoints : list (string * EntryPoint))
    (c : HookCall) (p : Plugin) : completion HookResult * Plugin :=
  match c with
  | CallResolveId id importer =>
      match resolveId entrypoints id importer p with
      | (Normal r, p') => (Normal (Resolved r), p')
      | (Throw e, p') => (Throw e, p')
      end
  | CallLoad id => (Normal (Loaded (load id p)), p)
  end.

(** A run of the bundler against the plugin: the calls are answered in
    order, and the first exception ends the run. *)
Fixpoint runHooks `{Path, Compiler} (entrypoints : list (string * EntryPoint))
    (calls : list HookCall) (p : Plugin)
  : completion (list HookResult) * Plugin :=
  match calls with
  | [] => (Normal [], p)
  | c :: rest =>
      match callHook entrypoints c p with
      | (Throw e, p') => (Throw e, p')
      | (Normal r, p') =>
          match runHooks entrypoints rest p' with
          | (Normal rs, p'') => (Normal (r :: rs), p'')
          | (Throw e, p'') => (Throw e, p'')
          end
      end
  end.

(** The path a call hands to the compiling loader, if it is a relative
    resolution. *)
Definition visit `{Path} (entrypoints : list (string * EntryPoint))
    (c : HookCall) : option string :=
  match c with
  | CallResolveId id (Some importer) => Some (resolvedPath entrypoints id importer)
  | _ => None
  end.

Definition visits `{Path} (entrypoints : list (string * EntryPoint))
    (calls : list HookCall) : list string :=
  omap (visit entrypoints) calls.

(** The assignment to [virtualCache] a call makes when it completes. *)
Definition written `{Path, Compiler} (entrypoints : list (string * EntryPoint))
    (c : HookCall) : option (string * string) :=
  match c with
  | CallResolveId id None =>
      match Map_get entrypoints id with
      | Some data => Some (id, code data)
      | None => None
      end
  | CallResolveId id (Some importer) =>
      match loader (resolvedPath entrypoints id importer) with
      | Normal (Some out) => Some (resolvedPath entrypoints id importer, body out)
      | _ => None
      end
  | CallLoad _ => None
  end.

Definition assign (cache : gmap string string) (w : option (string * string))
  : gmap string string :=
  match w with
  | Some (k, v) => <[k := v]> cache
  | None => cache
  end.

(** The registry [release] builds: the key of the n-th entry is
    [entryId n]. *)
Definition registry_wf (reg : list (string * EntryPoint)) : Prop :=
  Map_keys reg = entryId <$> seq 0 (length reg).

(** ** virtualModuleContent *)

(** The marker of an inline module, a colon, a colon and a NUL. *)
Definition inlineMarker : string :=
  String ":"%char (String ":"%char (String Ascii.zero EmptyString)).

(** What [virtualModuleContent] has from outside release.js:
    [Buffer.from(s, 'base64').toString()] and [__dirname]. The names
    [matchSceneMin] and [compileScene] of its last lines are declared and
    required nowhere in release.js: they are free names with no binding. *)
Class SceneTools : Type := {
  base64_toString : string → string;
  __dirname : string;
}.

Inductive ModuleContent : Type :=
| ContentText (text : string)          (* a string, returned at once *)
| ContentUndefined
| ContentScene (sceneName : string).   (* a Promise of compileScene({sceneName}, true) *)

(** The collaborators a call reaches: the scene matcher and the scene
    compiler, if a call gets as far as calling them. *)
Inductive Reached : Type :=
| ReachedMatchScene (resolved : string)
| ReachedCompileScene (sceneName : string).

Definition virtualModuleContent `{Path, SceneTools} (id : string)
    (importer : option string) : completion ModuleContent * list Reached :=
  let inline :=
    match importer with
    | None =>
        match indexOf id inlineMarker with
        | Some virtualSplitIndex =>
            Some (base64_toString (slice id (virtualSplitIndex + 3)))
        | None => None
        end
    | Some _ => None
    end in
  match inline with
  | Some text => (Normal (ContentText text), [])
  | None =>
      if negb (startsWith id "./") && negb (startsWith id "../")
      then (Normal ContentUndefined, [])
      else
        match importer with
        | None => (Throw (TypeError "The path argument must be of type string"), [])
        | Some importer =>
            let dir := path_dirname importer in
            let resolved := path_relative __dirname (path_resolve dir id) in
            (* line 227 reads [matchSceneMin], which nothing binds *)
            (Throw (ReferenceError "matchSceneMin is not defined"), [])
        end
  end.

(** ** The bundle stage and the summary *)

(** [scriptNode.setAttribute('src', v)] on a node of the document store. *)
Definition setSrc (docs : list (string * list ScriptNode)) (ref : nat * nat)
    (v : string) : list (string * list ScriptNode) :=
  match docs !! ref.1 with
  | None => docs
  | Some (htmlFile, nodes) =>
      match nodes !! ref.2 with
      | None => docs
      | Some n =>
          <[ref.1 := (htmlFile, <[ref.2 := mkScriptNode (type n) v (textContent n)]> nodes)]> docs
      end
  end.

(** [if (isEntry) { ... }] in the loop over [generated.output]: point
    the script node of an entry chunk at the bundle. *)
Definition relinkEntry `{Path} (entrypoints : list (string * EntryPoint))
    (filename : string) (isEntry : bool)
    (docs : list (string * list ScriptNode))
  : Build (list (string * list ScriptNode)) :=
  if isEntry
  then match Map_get entrypoints filename with
       | None => throw (TypeError "Cannot destructure property 'scriptNode' of undefined")
       | Some data =>
           mret (setSrc docs (scriptNode data)
                   (path_relative (dir data) ("src/" +:+ filename)))
       end
  else mret docs.

(** The loop over [generated.output]: relink, then write the ES module
    code of the chunk. *)
Definition writeModule `{Path, Bundler} (entrypoints : list (string * EntryPoint))
    (acc : list (string * list ScriptNode) * nat)
    (chunk : string * (bool * string))
  : Build (list (string * list ScriptNode) * nat) :=
  let filename := chunk.1 in
  docs ← relinkEntry entrypoints filename chunk.2.1 acc.1;
  let minified := transformES filename chunk.2.2 in
  write (path_join ["dist/static/src"; filename]) minified ;;
  mret (docs, acc.2 + String.length minified).

Definition writeModules `{Path, Bundler} (entrypoints : list (string * EntryPoint))
    (generated : list (string * (bool * string)))
    (docs : list (string * list ScriptNode))
  : Build (list (string * list ScriptNode) * nat) :=
  foldM (writeModule entrypoints) generated (docs, 0).

(** The loop that writes the ES5 version of every entry point. *)
Definition writeES5 `{Path, Bundler} (entrypoints : list (string * EntryPoint))
  : Build unit :=
  forEach entrypoints (λ e,
    let filename := e.1 in
    log (LogEntrypoint filename) ;;
    write (path_join ["dist/static/src"; "_" +:+ filename])
          (rollup_es5 (path_join ["dist/static/src"; filename]))).

(** The ratio printed for a message id: the size of its set over the
    number of keys of [langs], times a hundred, for a [langs] with at
    least one key. [toFixed] then renders it without decimals. *)
Definition missingRatio (missingLangs : list string)
    (langs : list (string * Messages)) : Q :=
  (inject_Z (Z.of_nat (length missingLangs)) / inject_Z (Z.of_nat (length langs)) * 100)%Q.

Definition missingLine (langs : list (string * Messages))
    (missingLangs : list string) : Q * option (list string) :=
  (missingRatio missingLangs langs,
   if bool_decide (length missingLangs ≤ 10) then Some missingLangs else None).

(** The line of a message id when [langs] has no key left: the divisor is
    zero. *)
Definition missingLineNoLangs (missingLangs : list string)
  : ZeroDivision * option (list string) :=
  (if bool_decide (length missingLangs = 0) then RatioNaN else RatioInfinity,
   if bool_decide (length missingLangs ≤ 10) then Some missingLangs else None).

(** Lines 508-518: display information about missing messages. *)
Definition reportMissing (missingMessages : gmap string (list string))
    (langs : list (string * Messages)) : Build unit :=
  if bool_decide (size missingMessages ≠ 0)
  then match langs with
       | [] => log (LogMissingNoLangs (size missingMessages)
                      (missingLineNoLangs <$> missingMessages))
       | _ :: _ => log (LogMissing (size missingMessages)
                          (missingLine langs <$> missingMessages))
       end
  else mret ().

(** ** The driver *)

Definition release `{Path, Catalogs, Site, Compiler, Bundler} (yargs : Yargs)
  : Build unit :=
  log (LogBuilding (build yargs)) ;;
  fsp_mkdirp "dist/static" ;;
  fsp_mkdirp "dist/prod" ;;
  let staticPath := baseurl yargs +:+ build yargs +:+ "/" in
  '(missingMessages, langs) ← loadCatalogs yargs;
  log (LogFoundScenes (length scenes)) ;;
  releaseAll glob_prodAll ;;
  prodHtmlCount ← fanoutPages yargs staticPath langs 0;
  prodHtmlCount ← fanoutScenes yargs staticPath langs prodHtmlCount;
  log (LogWrittenProd prodHtmlCount) ;;
  writeManifests yargs langs ;;
  ex ← lift extractAll;
  log (LogFoundEntrypoints (length (entrypoints ex))) ;;
  _ ← lift (runHooks (entrypoints ex) (rollup_calls (entrypoints ex)) emptyPlugin).1;
  let generated := rollup_output (entrypoints ex) in
  log (LogGenerated (length generated)) ;;
  '(_, totalSizeES) ← writeModules (entrypoints ex) generated (htmlDocuments ex);
  log (LogWrittenBytes totalSizeES) ;;
  writeES5 (entrypoints ex) ;;
  reportMissing missingMessages langs ;;
  log LogDone.

(** [release().catch((err) => { console.warn(err); process.exit(1); })]:
    the exit status of the process and the world it leaves. *)
Definition main `{Path, Catalogs, Site, Compiler, Bundler} (yargs : Yargs)
  : nat * World :=
  match release yargs emptyWorld with
  | (Normal _, w) => (0, w)
  | (Throw err, w) => (1, (log (LogWarn err) w).2)
  end.

(** ** The development helper [_msg] *)

Module Magic.

(** A value of the imported JSON catalog. *)
Inductive Json : Type :=
| JNull
| JBool (b : bool)
| JNumber (q : Q)
| JString (s : string)
| JArray (items : list Json)
| JObject (fields : list (string * Json)).

(** What an expression of [_msg] can evaluate to: [undefined], a value
    of the catalog (or a string literal), or a member of
    [Object.prototype] found through the prototype chain. *)
Inductive Value : Type :=
| VUndefined
| VJson (j : Json)
| VInherited (name : string).

Definition truthy (v : Value) : bool :=
  match v with
  | VUndefined => false
  | VJson JNull => false
  | VJson (JBool b) => b
  | VJson (JNumber q) => negb (Qeq_bool q 0)
  | VJson (JString s) => Js.truthy s
  | VJson (JArray _) => true
  | VJson (JObject _) => true
  | VInherited _ => true
  end.

(** [o[k]] on an object with the given own properties. *)
Definition lookup (fields : list (string * Json)) (k : string) : Value :=
  match Map_get fields k with
  | Some j => VJson j
  | None => if inherited k then VInherited k else VUndefined
  end.

(** [v.k] for a key [k] that no built-in prototype other than
    [Object.prototype] defines, as [raw] and [message] are. Reading a
    property of [null] or [undefined] throws. *)
Definition member (v : Value) (k : string) : completion Value :=
  match v with
  | VUndefined => Throw (TypeError "Cannot read property of undefined")
  | VJson JNull => Throw (TypeError "Cannot read property of null")
  | VJson (JObject fields) => Normal (lookup fields k)
  | _ => Normal (if inherited k then VInherited k else VUndefined)
  end.

(** [a && b] and [a || b], the right operand evaluated on demand. *)
Definition and_ (a : Value) (b : completion Value) : completion Value :=
  if truthy a then b else Normal a.

Definition or_ (a : Value) (b : completion Value) : completion Value :=
  if truthy a then Normal a else b.

Definition bind {A B} (c : completion A) (f : A → completion B) : completion B :=
  match c with
  | Normal a => f a
  | Throw e => Throw e
  end.

(** The field [k] of a catalog entry, [undefined] when the entry is no
    object or has no such field. *)
Definition field (entry : Json) (k : string) : Value :=
  match entry with
  | JObject fields => lookup fields k
  | _ => VUndefined
  end.

(** [_msg(id)] over the catalog [messages]; [id.toString()] is [id] for
    a string. *)
Definition _msg (messages : list (string * Json)) (id : string) : completion Value :=
  let data := lookup messages id in
  bind (and_ data (bind (member data "raw") (λ raw, or_ raw (member data "message"))))
       (λ v, or_ v (Normal (VJson (JString "?")))).

End Magic.

(** ** Reference instances of the Node primitives

    Used to run the model on concrete inputs. [Posix.path cwd] follows
    Node's POSIX [path] on paths without trailing or doubled slashes;
    [Base64.decode] follows [Buffer.from(s, 'base64').toString()] on
    payloads that decode to ASCII text. *)

Module Posix.

Fixpoint split (s acc : string) : list string :=
  match s with
  | EmptyString => [acc]
  | String c s' =>
      if Ascii.eqb c "/" then acc :: split s' ""
      else split s' (acc +:+ String c "")
  end.

Definition segments (s : string) : list string := split s "".

Fixpoint join (l : list string) : string :=
  match l with
  | [] => ""
  | [x] => x
  | x :: r => x +:+ "/" +:+ join r
  end.

Definition isAbsolute (s : string) : bool := String.prefix "/" s.

(** Fold one segment into a normalised stack; [keep] says whether a
    leading [..] is kept (relative paths) or dropped (absolute ones). *)
Definition push (keep : bool) (stack : list string) (seg : string) : list string :=
  if String.eqb seg "" || String.eqb seg "." then stack
  else if String.eqb seg ".."
       then match last stack with
            | None => if keep then [".."] else []
            | Some top =>
                if String.eqb top ".." then stack ++ [".."] else removelast stack
            end
       else stack ++ [seg].

Definition normal (keep : bool) (segs : list string) : list string :=
  foldl (push keep) [] segs.

Definition resolve (cwd dir id : string) : string :=
  let base :=
    if isAbsolute id then []
    else if isAbsolute dir then segments dir
    else segments cwd ++ segments dir in
  "/" +:+ join (normal false (base ++ segments id)).

Definition dirname (s : string) : string :=
  match segments s with
  | [] | [_] => "."
  | segs =>
      let d := join (removelast segs) in
      if String.eqb d "" then "/" else d
  end.

Definition basename (s : string) : string := default "" (last (segments s)).

Definition joinPaths (parts : list string) : string :=
  let segs := mjoin (segments <$> parts) in
  match parts with
  | first :: _ =>
      if isAbsolute first then "/" +:+ join (normal false segs)
      else let r := join (normal true segs) in
           if String.eqb r "" then "." else r
  | [] => "."
  end.

Fixpoint stripCommon (a b : list string) : list string * list string :=
  match a, b with
  | x :: a', y :: b' => if String.eqb x y then stripCommon a' b' else (a, b)
  | _, _ => (a, b)
  end.

Definition relative (cwd from to : string) : string :=
  let '(up, down) :=
    stripCommon (segments (resolve cwd "." from)) (segments (resolve cwd "." to)) in
  join (replicate (length up) ".." ++ down).

Definition path (cwd : string) : Path := {|
  path_dirname := dirname;
  path_basename := basename;
  path_join := joinPaths;
  path_resolve := resolve cwd;
  path_relative := relative cwd;
|}.

End Posix.

Module Base64.

Definition between (lo hi c : N) : bool := (lo <=? c)%N && (c <=? hi)%N.

(** The six bits a character stands for; both alphabets are accepted. *)
Definition sextet (c : ascii) : option N :=
  let n := N_of_ascii c in
  if between 65 90 n then Some (n - 65)%N
  else if between 97 122 n then Some (n - 71)%N
  else if between 48 57 n then Some (n + 4)%N
  else if (n =? 43)%N || (n =? 45)%N then Some 62%N
  else if (n =? 47)%N || (n =? 95)%N then Some 63%N
  else None.

(** [acc] holds [bits] pending bits. *)
Fixpoint go (s : string) (acc : N) (bits : nat) : string :=
  match s with
  | EmptyString => EmptyString
  | String c s' =>
      if Ascii.eqb c "=" then EmptyString
      else match sextet c with
           | None => go s' acc bits
           | Some v =>
               let acc := (acc * 64 + v)%N in
               if bool_decide (2 ≤ bits)
               then String (ascii_of_N (N.shiftr acc (N.of_nat (bits - 2))))
                           (go s' (N.land acc (N.ones (N.of_nat (bits - 2)))) (bits - 2))
               else go s' acc (bits + 6)
           end
  end.

Definition decode (s : string) : string := go s 0 0.

End Base64.

(** ** A sample site

    A build with three languages, two scenes and three HTML entry
    documents, small enough to run. *)

Module Sample.

Definition path : Path := Posix.path "/site".

Definition yargs : Yargs :=
  mkYargs "v202611030000" "en" false
    "https://maps.gstatic.com/mapfiles/santatracker/"
    "https://santatracker.google.com/".

(** The same options with [--default-only]. *)
Definition yargsDefaultOnly : Yargs :=
  mkYargs (build yargs) (defaultLang yargs) true (baseurl yargs) (prodBase yargs).

(** The same options with a default language no catalog has. *)
Definition yargsNoDefault : Yargs :=
  mkYargs (build yargs) "xx" false (baseurl yargs) (prodBase yargs).

(** The same options with [--default-lang toString]. *)
Definition yargsInheritedDefault : Yargs :=
  mkYargs (build yargs) "toString" false (baseurl yargs) (prodBase yargs).

Definition english : Messages := λ msgid,
  if String.eqb msgid "santatracker" then "Santa Tracker"
  else if String.eqb msgid "scene_icehockey" then "Ice Hockey"
  else "".

Definition french : Messages := λ msgid,
  if String.eqb msgid "santatracker" then "Sur la piste du pere Noel"
  else english msgid.

Definition german : Messages := english.

Definition catalogs : Catalogs := {|
  i18n_absent :=
    [("fr", "scene_icehockey"); ("de", "scene_icehockey"); ("de", "santatracker")];
  i18n_langs := [("en", english); ("fr", french); ("de", german)];
|}.

(** A catalog run that reports a message id named like a member of
    [Object.prototype]. *)
Definition catalogsWithConstructor : Catalogs := {|
  i18n_absent := [("fr", "scene_icehockey"); ("fr", "constructor")];
  i18n_langs := [("en", english); ("fr", french); ("de", german)];
|}.

Definition indexScripts : list ScriptNode :=
  [ mkScriptNode "" "third_party/lib/jquery.js" "";
    mkScriptNode "module" "foo.js" "" ].

Definition sceneScripts : list ScriptNode :=
  [ mkScriptNode "module" "" "import '../../src/shared.js'; start();";
    mkScriptNode "module" "https://cdn.example.com/analytics.js" "";
    mkScriptNode "module" "./icehockey.js" "";
    mkScriptNode "text/javascript" "" "window.dataLayer = [];" ].

Definition snowballScripts : list ScriptNode :=
  [ mkScriptNode "module" "" "import '../../src/shared.js'; roll();" ].

Definition site : Site := {|
  glob_prodAll := ["prod/images/og/icehockey.png"];
  glob_prodOtherHtml := ["prod/cast.html"];
  scenes := [("", None); ("icehockey", Some (mkSceneInfo None false));
             ("snowball", Some (mkSceneInfo (Some "scene_snowball_title") false))];
  fsp_exists := λ p, String.eqb p "prod/images/og/icehockey.png";
  releaseHtml_prod := λ htmlFile edit messages,
    htmlFile +:+ "|" +:+ default "" (title_msgid edit) +:+ "|" +:+ messages "santatracker";
  manifest_stringify := λ name, "{name:" +:+ name +:+ "}";
  htmlFiles :=
    ["index.html"; "scenes/icehockey/index.html"; "scenes/snowball/index.html"];
  dom_read := λ htmlFile,
    if String.eqb htmlFile "index.html" then indexScripts
    else if String.eqb htmlFile "scenes/icehockey/index.html" then sceneScripts
    else if String.eqb htmlFile "scenes/snowball/index.html" then snowballScripts
    else [];
  dom_styles := λ htmlFile,
    if String.eqb htmlFile "index.html"
    then [ mkStyleLink "styles/main.css" false;
           mkStyleLink "https://fonts.googleapis.com/css?family=Lobster" false ]
    else [];
  dom_inDev := λ htmlFile i,
    String.eqb htmlFile "scenes/icehockey/index.html" && Nat.eqb i 3;
  isUrl := String.prefix "https://";
|}.

Definition compiler : Compiler := {|
  loader := λ p,
    if String.eqb p "/site/foo.js"
    then Normal (Some (mkLoaderOut "import './src/shared.js'; foo();"))
    else if String.eqb p "/site/src/shared.js"
    then Normal (Some (mkLoaderOut "export const shared = 1;"))
    else if String.eqb p "/site/scenes/icehockey/icehockey.js"
    then Normal (Some (mkLoaderOut "play();"))
    else if String.eqb p "styles/main.css"
    then Normal (Some (mkLoaderOut "body { margin: 0 }"))
    else Normal None;
|}.

(** The same loader without a compiler for style sheets: it returns
    [undefined] for the style sheet of the index page. *)
Definition compilerWithoutStyles : Compiler := {|
  loader := λ p,
    if String.eqb p "styles/main.css" then Normal None
    else loader (Compiler:=compiler) p;
|}.

(** The hook calls of a graph build over the four entry points; the
    shared module is imported by the inline scripts of the two scenes
    (entries [e1.js] and [e3.js]) and by foo.js. *)
Definition calls : list HookCall :=
  [ CallResolveId "e0.js" None; CallLoad "e0.js";
    CallResolveId "e1.js" None; CallLoad "e1.js";
    CallResolveId "e2.js" None; CallLoad "e2.js";
    CallResolveId "e3.js" None; CallLoad "e3.js";
    CallResolveId "./foo.js" (Some "e0.js"); CallLoad "/site/foo.js";
    CallResolveId "../../src/shared.js" (Some "e1.js"); CallLoad "/site/src/shared.js";
    CallResolveId "./icehockey.js" (Some "e2.js");
    CallLoad "/site/scenes/icehockey/icehockey.js";
    CallResolveId "../../src/shared.js" (Some "e3.js");
    CallResolveId "./src/shared.js" (Some "/site/foo.js");
    CallResolveId "lit-element" (Some "/site/src/shared.js") ].

Definition bundler : Bundler := {|
  rollup_calls := λ _, calls;
  rollup_output := λ _,
    [ ("e0.js", (true, "import './c0f3.js'; foo();"));
      ("e1.js", (true, "import './c0f3.js'; start();"));
      ("e2.js", (true, "play();"));
      ("e3.js", (true, "import './c0f3.js'; roll();"));
      ("c0f3.js", (false, "export const shared = 1;")) ];
  transformES := λ filename code, code;
  rollup_es5 := λ input, "/* es5 of " +:+ input +:+ " */";
|}.

Definition sceneTools : SceneTools := {|
  base64_toString := Base64.decode;
  __dirname := "/site";
|}.

(** The entry registry the extraction builds for the sample site. *)
Definition registry : list (string * EntryPoint) :=
  entrypoints (extractEntries (H:=path) (H0:=site)).

(** The answers of the plugin to [calls]. *)
Definition results : list HookResult :=
  [ Resolved (Some "e0.js"); Loaded (Some (CachedText "import './foo.js';"));
    Resolved (Some "e1.js"); Loaded (Some (CachedText "import '../../src/shared.js'; start();"));
    Resolved (Some "e2.js"); Loaded (Some (CachedText "import './icehockey.js';"));
    Resolved (Some "e3.js"); Loaded (Some (CachedText "import '../../src/shared.js'; roll();"));
    Resolved (Some "/site/foo.js"); Loaded (Some (CachedText "import './src/shared.js'; foo();"));
    Resolved (Some "/site/src/shared.js"); Loaded (Some (CachedText "export const shared = 1;"));
    Resolved (Some "/site/scenes/icehockey/icehockey.js");
    Loaded (Some (CachedText "play();"));
    Resolved (Some "/site/src/shared.js");
    Resolved (Some "/site/src/shared.js");
    Resolved None ].

(** An identifier that carries an inline module, [console.log(1);]. *)
Definition inlineId : string := "scene" +:+ inlineMarker +:+ "Y29uc29sZS5sb2coMSk7".

(** A development catalog for [_msg]. *)
Definition messages : list (string * Magic.Json) :=
  [ ("santatracker",
     Magic.JObject [("message", Magic.JString "Santa Tracker");
                    ("description", Magic.JString "Name of the site")]);
    ("countdown",
     Magic.JObject [("raw", Magic.JString "<b>Countdown</b>");
                    ("message", Magic.JString "Countdown")]);
    ("empty", Magic.JObject [("message", Magic.JString "")]);
    ("nothing", Magic.JNull) ].

End Sample.

(** ** What a build writes *)

(** A world with more directories, copies, files and log lines. *)
Definition grow (w : World) (d : list string) (c f : list (string * string))
    (l : list LogLine) : World :=
  mkWorld (dirs w ++ d) (copies w ++ c) (files w ++ f) (console w ++ l).

(** The languages [release] fans out to. *)
Definition fanoutLanguages `{Catalogs} (yargs : Yargs) : list (string * Messages) :=
  if defaultOnly yargs
  then filter (λ p, p.1 = defaultLang yargs) i18n_langs
  else i18n_langs.

(** The documents of one page or scene, one per language. *)
Definition langDocs `{Path} (yargs : Yargs) (langs : list (string * Messages))
    (filename : string) (documentForLang : Messages → string)
  : list (string * string) :=
  (λ p, (path_join ["dist/prod"; pathForLang yargs p.1; filename],
         documentForLang p.2)) <$> langs.

Definition pageDocs `{Path, Site} (yargs : Yargs) (staticPath : string)
    (langs : list (string * Messages)) : list (string * string) :=
  glob_prodOtherHtml ≫= λ htmlFile,
    langDocs yargs langs (path_basename htmlFile)
      (releaseHtml_prod htmlFile (mkDocEdit staticPath None None None)).

Definition sceneDocs `{Path, Site} (yargs : Yargs) (staticPath : string)
    (langs : list (string * Messages)) : list (string * string) :=
  scenes ≫= λ scene,
    langDocs yargs langs
      (if String.eqb scene.1 "" then "index.html" else scene.1 +:+ ".html")
      (releaseHtml_prod "prod/index.html" (sceneEdit yargs staticPath scene.1 scene.2)).

Definition manifestDocs `{Path, Site} (yargs : Yargs)
    (langs : list (string * Messages)) : list (string * string) :=
  (λ p, (path_join ["dist/prod"; pathForLang yargs p.1; "manifest.json"],
         manifest_stringify (p.2 "santatracker"))) <$> langs.

Definition moduleFiles `{Path, Bundler} (generated : list (string * (bool * string)))
  : list (string * string) :=
  (λ chunk, (path_join ["dist/static/src"; chunk.1],
             transformES chunk.1 chunk.2.2)) <$> generated.

Definition es5Files `{Path, Bundler} (entrypoints : list (string * EntryPoint))
  : list (string * string) :=
  (λ e, (path_join ["dist/static/src"; "_" +:+ e.1],
         rollup_es5 (path_join ["dist/static/src"; e.1]))) <$> entrypoints.

(** The directories [write] makes for a list of files. *)
Definition dirsOf `{Path} (fs : list (string * string)) : list string :=
  (λ f, path_dirname f.1) <$> fs.

(** A generated chunk the relink step can handle: no entry chunk, or one
    whose file name is a registered entry id. *)
Definition entryKnown (entrypoints : list (string * EntryPoint))
    (chunk : string * (bool * string)) : bool :=
  negb chunk.2.1 || bool_decide (is_Some (Map_get entrypoints chunk.1)).

(** A hook call the plugin answers without throwing. *)
Definition hookCompletes `{Path, Compiler} (entrypoints : list (string * EntryPoint))
    (c : HookCall) : bool :=
  match c with
  | CallResolveId id None => bool_decide (is_Some (Map_get entrypoints id))
  | CallResolveId id (Some importer) =>
      is_normal (loader (resolvedPath entrypoints id importer))
  | CallLoad _ => true
  end.

(** The document store after the relink step of one chunk that
    [entryKnown] accepts. *)
Definition relink `{Path} (entrypoints : list (string * EntryPoint))
    (docs : list (string * list ScriptNode)) (chunk : string * (bool * string))
  : list (string * list ScriptNode) :=
  if chunk.2.1
  then match Map_get entrypoints chunk.1 with
       | Some data =>
           setSrc docs (scriptNode data)
             (path_relative (dir data) ("src/" +:+ chunk.1))
       | None => docs
       end
  else docs.

(** The bytes of ES module code of a list of chunks, [totalSizeES]. *)
Definition totalSize `{Bundler} (generated : list (string * (bool * string))) : nat :=
  sum_list ((λ chunk, String.length (transformES chunk.1 chunk.2.2)) <$> generated).

(** Every style sheet of the document that is no remote URL compiles,
    and none of them is the element [DEV] itself. *)
Definition stylesCompile `{Path, Site, Compiler} (htmlFile : string) : bool :=
  forallb (λ styleLink,
             isUrl (href styleLink) ||
             match loader (path_join [path_dirname htmlFile; href styleLink]) with
             | Normal (Some _) => negb (link_isDev styleLink)
             | _ => false
             end)
          (dom_styles htmlFile).

(** The part of [release] after the manifests: entry extraction, the
    bundle, the ES5 versions and the summary. *)
Definition bundleAndReport `{Path, Site, Compiler, Bundler}
    (missingMessages : gmap string (list string))
    (langs : list (string * Messages)) : Build unit :=
  ex ← lift extractAll;
  log (LogFoundEntrypoints (length (entrypoints ex))) ;;
  _ ← lift (runHooks (entrypoints ex) (rollup_calls (entrypoints ex)) emptyPlugin).1;
  let generated := rollup_output (entrypoints ex) in
  log (LogGenerated (length generated)) ;;
  '(_, totalSizeES) ← writeModules (entrypoints ex) generated (htmlDocuments ex);
  log (LogWrittenBytes totalSizeES) ;;
  writeES5 (entrypoints ex) ;;
  reportMissing missingMessages langs ;;
  log LogDone.

(** A document after extraction: its local module scripts cleared, every
    other script as it was read. *)
Definition clearedScripts `{Site} (nodes : list ScriptNode) : list ScriptNode :=
  (λ s, if isLocal s && isModule s then mkScriptNode (type s) "" "" else s) <$> nodes.

(** The entry points of the document read as number [doc], in document
    order. *)
Definition documentEntries `{Path, Site} (doc : nat) (htmlFile : string)
  : list EntryPoint :=
  omap (λ i, (λ s, mkEntryPoint (doc, i) (path_dirname htmlFile) (entryCode s))
               <$> dom_read htmlFile !! i)
       (moduleScriptNodes (dom_read htmlFile)).

(** The paths of the local classic scripts of a document. *)
Definition documentRequired `{Path, Site} (htmlFile : string) : list string :=
  (λ s, path_join [path_dirname htmlFile; src s])
    <$> filter (λ s, isClassic s) (filter (λ s, isLocal s) (dom_read htmlFile)).

(** The script node a reference of the registry points at. *)
Definition scriptAt (docs : list (string * list ScriptNode)) (ref : nat * nat)
  : option ScriptNode :=
  docs !! ref.1 ≫= λ d, d.2 !! ref.2.

(** The content a call stores under [id], if it stores any there, and the
    last content a list of calls stores under [id]. *)
Definition writesTo `{Path, Compiler} (entrypoints : list (string * EntryPoint))
    (id : string) (c : HookCall) : option string :=
  match written entrypoints c with
  | Some (k, v) => if decide (k = id) then Some v else None
  | None => None
  end.

Definition lastWritten `{Path, Compiler} (entrypoints : list (string * EntryPoint))
    (calls : list HookCall) (id : string) : option string :=
  last (omap (writesTo entrypoints id) calls).

(** ** The elves of the railroad scene *)

Module Elves.

(** JavaScript numbers, by the operations [update] uses on them. *)
Class Number : Type := {
  number : Type;
  zero : number;
  five : number;
  add : number → number → number;
  sub : number → number → number;
  ge : number → number → bool;
}.

Definition ELVES_IMAGES : list string :=
  [ "img/Elf1@2x.png"; "img/Elf2@2x.png"; "img/Elf3@2x.png";
    "img/Elf4@2x.png"; "img/Elf5@2x.png" ].

(** An [ElvesSystem]. A sprite is known by the image of its texture;
    [elves] is [None] while the field is undefined; [added] lists the
    sprites handed to [placeholderScene.scene.add], oldest first. *)
Section elves.
Context `{Number}.

Record ElvesSystem : Type := mkElvesSystem {
  seconds : number;
  lastSpawn : number;
  spawnPeriod : number;
  readFromScene : bool;
  elves : option (list string);
  nextElfIndex : nat;
  added : list string;
}.

(** [generateElves()]: one sprite for every image. *)
Definition generateElves : list string :=
  foldl (λ elves elfImg, elves ++ [elfImg]) [] ELVES_IMAGES.

(** [new ElvesSystem(camera, placeholderScene, readFromScene)]; the
    sprites made by [generateElvesFromScene] are attached to objects of
    the scene, not kept in [elves]. *)
Definition construct (readFromScene : bool) : ElvesSystem :=
  mkElvesSystem zero zero five readFromScene
    (if readFromScene then None else Some generateElves) 0 [].

(** [spawnElf()] *)
Definition spawnElf (s : ElvesSystem) : completion ElvesSystem :=
  match elves s with
  | None => Throw (TypeError "Cannot read property of undefined")
  | Some elves =>
      match elves !! nextElfIndex s with
      | None => Throw (TypeError "Cannot read property 'position' of undefined")
      | Some sprite =>
          Normal (mkElvesSystem (seconds s) (lastSpawn s) (spawnPeriod s)
                    (readFromScene s) (Some elves)
                    ((nextElfIndex s + 1) `mod` length elves)
                    (added s ++ [sprite]))
      end
  end.

(** [update(deltaSeconds)] *)
Definition update (s : ElvesSystem) (deltaSeconds : number)
  : completion ElvesSystem :=
  let s := mkElvesSystem (add (seconds s) deltaSeconds) (lastSpawn s) (spawnPeriod s)
             (readFromScene s) (elves s) (nextElfIndex s) (added s) in
  if negb (readFromScene s) && ge (sub (seconds s) (lastSpawn s)) (spawnPeriod s)
  then
    match spawnElf s with
    | Throw e => Throw e
    | Normal s =>
        Normal (mkElvesSystem (seconds s) (seconds s) (spawnPeriod s)
                  (readFromScene s) (elves s) (nextElfIndex s) (added s))
    end
  else Normal s.

(** A sequence of frames. *)
Fixpoint updates (s : ElvesSystem) (deltas : list number)
  : completion ElvesSystem :=
  match deltas with
  | [] => Normal s
  | d :: rest =>
      match update s d with
      | Normal s' => updates s' rest
      | Throw e => Throw e
      end
  end.

End elves.

(** Whole seconds, for running the model. *)
Definition seconds_Z : Number := {|
  number := Z; zero := 0%Z; five := 5%Z;
  add := Z.add; sub := Z.sub; ge := Z.geb;
|}.

End Elves.

(** ** The URL helpers of magic.js *)

(** [s.endsWith(suffix)] *)
Definition endsWith (s suffix : string) : bool :=
  bool_decide (String.length suffix ≤ String.length s) &&
  String.eqb (slice s (String.length s - String.length suffix)) suffix.

Module MagicUrl.

(** The [URL] class: [new URL(ref)] and [new URL(ref, base)], which throw
    on what they cannot parse, and [toString]. *)
Class UrlApi : Type := {
  URL : Type;
  URL_new : string → option URL → completion URL;
  URL_toString : URL → string;
}.

(** The loop of [join]: every path but the last gets a slash at its end
    unless it has one. *)
Fixpoint joinLoop `{UrlApi} (u : URL) (paths : list string) : completion URL :=
  match paths with
  | [] => Normal u
  | p :: paths =>
      let next := p in
      let next :=
        if negb (endsWith next "/") && bool_decide (paths ≠ [])
        then next +:+ "/" else next in
      match URL_new next (Some u) with
      | Normal u => joinLoop u paths
      | Throw e => Throw e
      end
  end.

(** [join(url, ...paths)] for a string [url]. *)
Definition join `{UrlApi} (url : string) (paths : list string) : completion string :=
  match URL_new url None with
  | Throw e => Throw e
  | Normal u =>
      match joinLoop u paths with
      | Normal u => Normal (URL_toString u)
      | Throw e => Throw e
      end
  end.

(** A URL as the list of its path segments under a fixed origin: enough
    to run [join] on paths without dots of their own, query or fragment.
    A reference replaces the last segment; [..] drops the directory. *)
Definition segmentsUrl : UrlApi := {|
  URL := list string;
  URL_new := λ ref base,
    match base with
    | None => Normal (Posix.normal false (Posix.segments ref))
    | Some b =>
        if Posix.isAbsolute ref
        then Normal (Posix.normal false (Posix.segments ref))
        else Normal (Posix.normal false (removelast b ++ Posix.segments ref)
                       ++ (if endsWith ref "/" then [""] else []))
    end;
  URL_toString := λ u, "/" +:+ Posix.join u;
|}.

End MagicUrl.

(** * Properties *)

(** Unfolds one step of a build. *)
Ltac build_step :=
  unfold mbind, mret, Build_bind, Build_ret, throw, lift, log,
    fsp_mkdirp, fsp_copyFile, fsp_writeFile; simpl.

(** ** Sets, maps and strings *)

Lemma Set_add_elem (s : list string) (x : string) : x ∈ Set_add s x.
Proof.
  unfold Set_add. case_bool_decide as Hx; [done|].
  apply elem_of_app. right. by apply list_elem_of_singleton.
Qed.

Lemma Set_add_mono (s : list string) (x y : string) : y ∈ s → y ∈ Set_add s x.
Proof.
  intros Hy. unfold Set_add. case_bool_decide; [done|].
  apply elem_of_app. by left.
Qed.

Lemma Set_add_inv (s : list string) (x y : string) :
  y ∈ Set_add s x → y = x ∨ y ∈ s.
Proof.
  unfold Set_add. case_bool_decide; [by right|].
  intros [Hy|Hy%list_elem_of_singleton]%elem_of_app; [by right|by left].
Qed.

Lemma Set_add_NoDup (s : list string) (x : string) : NoDup s → NoDup (Set_add s x).
Proof.
  intros Hs. unfold Set_add. case_bool_decide as Hx; [done|].
  apply NoDup_app. split_and!; [done| |apply NoDup_singleton].
  intros y Hy ->%list_elem_of_singleton. done.
Qed.

(** ** The ledger *)

Lemma has_in_Some {V} (own : gmap string V) (k : string) (v : V) :
  own !! k = Some v → has_in own k = true.
Proof. intros Hk. unfold has_in. rewrite Hk. by rewrite bool_decide_true by eauto. Qed.

Lemma has_in_None {V} (own : gmap string V) (k : string) :
  own !! k = None → has_in own k = inherited k.
Proof.
  intros Hk. unfold has_in. rewrite Hk.
  by rewrite bool_decide_false by (by intros [? ?]).
Qed.

(** The three ways a call of the callback can go. *)
Lemma recordMissing_cases (mm : gmap string (list string)) (lang msgid : string) :
  (∃ ls, mm !! msgid = Some ls ∧
         recordMissing mm lang msgid = Normal (<[msgid := Set_add ls lang]> mm)) ∨
  (mm !! msgid = None ∧ inherited msgid = false ∧
   recordMissing mm lang msgid =
     Normal (<[msgid := Set_add [] lang]> (<[msgid := []]> mm))) ∨
  (mm !! msgid = None ∧ inherited msgid = true ∧
   ∃ e, recordMissing mm lang msgid = Throw e).
Proof.
  unfold recordMissing. destruct (mm !! msgid) as [ls|] eqn:Hm.
  - left. exists ls. split; [done|].
    rewrite (has_in_Some _ _ _ Hm). simpl. unfold get. by rewrite Hm.
  - right. rewrite (has_in_None _ _ Hm).
    destruct (inherited msgid) eqn:Hi; simpl.
    + right. split_and!; [done..|]. unfold get. rewrite Hm, Hi. eauto.
    + left. split_and!; [done..|]. unfold get. by rewrite lookup_insert_eq.
Qed.

(** The callback fails exactly on the names inherited from
    [Object.prototype] that are no own property. *)
Lemma recordMissing_throws (mm : gmap string (list string)) (lang msgid : string) :
  is_normal (recordMissing mm lang msgid) = false ↔
  mm !! msgid = None ∧ inherited msgid = true.
Proof.
  destruct (recordMissing_cases mm lang msgid)
    as [(ls & Hm & ->)|[(Hm & Hi & ->)|(Hm & Hi & e & ->)]]; simpl.
  - split; [done|]. intros [? _]. congruence.
  - split; [done|]. intros [_ ?]. congruence.
  - done.
Qed.

(** A completed call has recorded the language under the message id and
    has kept everything recorded before. *)
Lemma recordMissing_records (mm mm' : gmap string (list string)) (lang msgid : string) :
  recordMissing mm lang msgid = Normal mm' →
  (∃ langs, mm' !! msgid = Some langs ∧ lang ∈ langs) ∧
  (∀ m ls l, mm !! m = Some ls → l ∈ ls →
             ∃ ls', mm' !! m = Some ls' ∧ l ∈ ls').
Proof.
  destruct (recordMissing_cases mm lang msgid)
    as [(ls0 & Hm & ->)|[(Hm & Hi & ->)|(Hm & Hi & e & ->)]]; [| |done].
  - intros [= <-]. split.
    + exists (Set_add ls0 lang). rewrite lookup_insert_eq.
      eauto using Set_add_elem.
    + intros m ls l Hl Hin. destruct (decide (m = msgid)) as [->|Hne].
      * rewrite lookup_insert_eq. simplify_eq. eauto using Set_add_mono.
      * rewrite lookup_insert_ne by done. eauto.
  - intros [= <-]. split.
    + exists (Set_add [] lang). rewrite lookup_insert_eq.
      eauto using Set_add_elem.
    + intros m ls l Hl Hin. destruct (decide (m = msgid)) as [->|Hne].
      { congruence. }
      rewrite !lookup_insert_ne by done. eauto.
Qed.

(** Whatever the ledger holds was reported: nothing is invented. *)
Lemma recordMissing_sound (mm mm' : gmap string (list string)) (lang msgid : string) :
  recordMissing mm lang msgid = Normal mm' →
  ∀ m ls l, mm' !! m = Some ls → l ∈ ls →
            (m = msgid ∧ l = lang) ∨ (∃ ls0, mm !! m = Some ls0 ∧ l ∈ ls0).
Proof.
  destruct (recordMissing_cases mm lang msgid)
    as [(ls0 & Hm & ->)|[(Hm & Hi & ->)|(Hm & Hi & e & ->)]]; [| |done].
  - intros [= <-] m ls l. destruct (decide (m = msgid)) as [->|Hne].
    + rewrite lookup_insert_eq. intros [= <-] [->|Hin]%Set_add_inv; eauto.
    + rewrite lookup_insert_ne by done. eauto.
  - intros [= <-] m ls l. destruct (decide (m = msgid)) as [->|Hne].
    + rewrite lookup_insert_eq. intros [= <-] [->|Hin]%Set_add_inv; [eauto|].
      by apply elem_of_nil in Hin.
    + rewrite !lookup_insert_ne by done. eauto.
Qed.

Lemma i18n_invoke_records (absent : list (string * string)) :
  ∀ mm mm' : gmap string (list string),
    i18n_invoke recordMissing absent mm = Normal mm' →
    (∀ lang msgid, (lang, msgid) ∈ absent →
                   ∃ langs, mm' !! msgid = Some langs ∧ lang ∈ langs) ∧
    (∀ m ls l, mm !! m = Some ls → l ∈ ls →
               ∃ ls', mm' !! m = Some ls' ∧ l ∈ ls').
Proof.
  induction absent as [|[lang0 msgid0] rest IH]; intros mm mm'; simpl.
  - intros [= <-]. split; [|by eauto].
    intros lang msgid Hin. by apply elem_of_nil in Hin.
  - destruct (recordMissing mm lang0 msgid0) as [mm1|e] eqn:Hcb; [|done].
    intros Hrest. destruct (recordMissing_records _ _ _ _ Hcb) as [Hnew Hold].
    destruct (IH _ _ Hrest) as [IHnew IHold]. split.
    + intros lang msgid [[= -> ->]|Hin]%elem_of_cons; [|by eauto].
      destruct Hnew as (ls & Hls & Hl). eauto.
    + intros m ls l Hm Hl.
      destruct (Hold _ _ _ Hm Hl) as (ls1 & Hm1 & Hl1). eauto.
Qed.

(** What the ledger holds was reported, and each set lists a language
    once. *)
Lemma i18n_invoke_sound (absent : list (string * string)) :
  ∀ mm mm' : gmap string (list string),
    i18n_invoke recordMissing absent mm = Normal mm' →
    ∀ m ls l, mm' !! m = Some ls → l ∈ ls →
              (l, m) ∈ absent ∨ (∃ ls0, mm !! m = Some ls0 ∧ l ∈ ls0).
Proof.
  induction absent as [|[lang0 msgid0] rest IH]; intros mm mm'; simpl.
  - intros [= <-]. eauto.
  - destruct (recordMissing mm lang0 msgid0) as [mm1|e] eqn:Hcb; [|done].
    intros Hrest m ls l Hm Hl.
    destruct (IH _ _ Hrest m ls l Hm Hl) as [Hin|(ls1 & Hm1 & Hl1)].
    + left. by right.
    + destruct (recordMissing_sound _ _ _ _ Hcb m ls1 l Hm1 Hl1) as [[-> ->]|Hold].
      * left. by left.
      * by right.
Qed.

Lemma i18n_invoke_NoDup (absent : list (string * string)) :
  ∀ mm mm' : gmap string (list string),
    i18n_invoke recordMissing absent mm = Normal mm' →
    (∀ m ls, mm !! m = Some ls → NoDup ls) →
    ∀ m ls, mm' !! m = Some ls → NoDup ls.
Proof.
  induction absent as [|[lang0 msgid0] rest IH]; intros mm mm'; simpl.
  - intros [= <-]. done.
  - destruct (recordMissing mm lang0 msgid0) as [mm1|e] eqn:Hcb; [|done].
    intros Hrest Hnd. apply (IH _ _ Hrest). intros m ls.
    destruct (recordMissing_cases mm lang0 msgid0)
      as [(ls0 & Hm & Heq)|[(Hm & Hi & Heq)|(Hm & Hi & e & Heq)]];
      rewrite Heq in Hcb; [| |done]; injection Hcb as <-.
    + destruct (decide (m = msgid0)) as [->|Hne].
      * rewrite lookup_insert_eq. intros [= <-]. apply Set_add_NoDup. eauto.
      * rewrite lookup_insert_ne by done. eauto.
    + destruct (decide (m = msgid0)) as [->|Hne].
      * rewrite lookup_insert_eq. intros [= <-]. apply Set_add_NoDup, NoDup_nil_2.
      * rewrite !lookup_insert_ne by done. eauto.
Qed.

(** Catalog loading completes unless a reported message id is named like
    a member of [Object.prototype]. *)
Lemma i18n_invoke_completes (absent : list (string * string)) :
  ∀ mm : gmap string (list string),
    (∀ lang msgid, (lang, msgid) ∈ absent → inherited msgid = false) →
    ∃ mm', i18n_invoke recordMissing absent mm = Normal mm'.
Proof.
  induction absent as [|[lang0 msgid0] rest IH]; intros mm Hok; simpl.
  - eauto.
  - destruct (recordMissing mm lang0 msgid0) as [mm1|e] eqn:Hcb.
    + apply IH. intros lang msgid Hin. apply (Hok lang). by right.
    + assert (is_normal (recordMissing mm lang0 msgid0) = false) as Hn
        by (by rewrite Hcb).
      apply recordMissing_throws in Hn as [_ Hi].
      rewrite (Hok lang0 msgid0) in Hi by left. done.
Qed.

(** ** Catalog loading *)

(** The ledger [loadCatalogs] returns is the one the callback built from
    all reported absences, whatever the options. *)
Lemma loadCatalogs_ledger `{Catalogs} (yargs : Yargs) (w w' : World)
    (ledger : gmap string (list string)) (langs : list (string * Messages)) :
  loadCatalogs yargs w = (Normal (ledger, langs), w') →
  i18n_invoke recordMissing i18n_absent ∅ = Normal ledger ∧
  key_in i18n_langs (defaultLang yargs) = true ∧
  langs = (if defaultOnly yargs
           then filter (λ p, p.1 = defaultLang yargs) i18n_langs
           else i18n_langs) ∧
  files w' = files w.
Proof.
  unfold loadCatalogs, i18n_all. build_step.
  destruct (i18n_invoke recordMissing i18n_absent ∅) as [mm|e]; [|done].
  destruct (key_in i18n_langs (defaultLang yargs)) eqn:Hd; simpl; [|done].
  intros [= <- <- <-]. done.
Qed.

Lemma key_in_false {V} (m : list (string * V)) (k : string) :
  key_in m k = false ↔ (k ∉ Map_keys m) ∧ inherited k = false.
Proof.
  unfold key_in. rewrite orb_false_iff, bool_decide_eq_false. done.
Qed.

Lemma key_in_true {V} (m : list (string * V)) (k : string) :
  key_in m k = true ↔ k ∈ Map_keys m ∨ inherited k = true.
Proof.
  unfold key_in. rewrite orb_true_iff, bool_decide_eq_true. done.
Qed.

(** Without the default language among the catalogs, loading throws and
    leaves the world as it found it, unless the language code is a name
    every object inherits. *)
Lemma loadCatalogs_fatal `{Catalogs} (yargs : Yargs) (w : World) :
  defaultLang yargs ∉ Map_keys i18n_langs →
  inherited (defaultLang yargs) = false →
  ∃ err, loadCatalogs yargs w = (Throw err, w).
Proof.
  intros Hd Hi. unfold loadCatalogs, i18n_all. build_step.
  destruct (i18n_invoke recordMissing i18n_absent ∅) as [mm|e]; [|by eauto].
  rewrite (proj2 (key_in_false _ _)) by done. simpl. eauto.
Qed.

Lemma filter_lang_absent (langs : list (string * Messages)) (lang : string) :
  lang ∉ Map_keys langs → filter (λ p, p.1 = lang) langs = [].
Proof.
  unfold Map_keys. induction langs as [|[l m] rest IH]; simpl; [done|].
  intros [Hne Hin]%not_elem_of_cons. rewrite filter_cons. simpl.
  case_decide; [congruence|]. by apply IH.
Qed.

(** Under [--default-only] exactly the default language is left. *)
Lemma filter_default_length (langs : list (string * Messages)) (lang : string) :
  NoDup (Map_keys langs) → lang ∈ Map_keys langs →
  length (filter (λ p, p.1 = lang) langs) = 1.
Proof.
  unfold Map_keys. induction langs as [|[l m] rest IH]; simpl.
  - intros _ Hin. by apply elem_of_nil in Hin.
  - intros [Hl Hnd]%NoDup_cons Hin. rewrite filter_cons. simpl.
    case_decide as Heq.
    + subst l. simpl. by rewrite filter_lang_absent.
    + apply IH; [done|]. apply elem_of_cons in Hin as [?|?]; [congruence|done].
Qed.

(** The summary only logs. *)
Lemma reportMissing_normal (missingMessages : gmap string (list string))
    (langs : list (string * Messages)) (w : World) :
  ∃ w', reportMissing missingMessages langs w = (Normal (), w') ∧
        files w' = files w ∧ copies w' = copies w ∧ dirs w' = dirs w.
Proof.
  unfold reportMissing. case_bool_decide; [destruct langs|]; build_step; eauto.
Qed.

(** C3: after catalog loading, every (language, message id) absence the
    catalog collaborator reported is in the ledger: the message id is a
    key, and the set stored under it contains the language. Loading is
    [loadCatalogs]; it holds with and without [--default-only]. *)
Theorem missing_messages_recorded `{Catalogs} (yargs : Yargs) (w w' : World)
    (ledger : gmap string (list string)) (langs : list (string * Messages))
    (lang msgid : string) :
  loadCatalogs yargs w = (Normal (ledger, langs), w') →
  (lang, msgid) ∈ i18n_absent →
  ∃ missingLangs, ledger !! msgid = Some missingLangs ∧ lang ∈ missingLangs.
Proof.
  intros (Hledger & _)%loadCatalogs_ledger Habsent.
  by apply (i18n_invoke_records _ _ _ Hledger).
Qed.

(** The ledger of the sample catalogs. *)
Lemma missing_messages_recorded_witness :
  loadCatalogs (H:=Sample.catalogs) Sample.yargsDefaultOnly emptyWorld
    = (Normal (<["santatracker" := ["de"]]> (<["scene_icehockey" := ["fr"; "de"]]> ∅),
               [("en", Sample.english)]),
       mkWorld [] [] [] [LogFoundLangs 1]) ∧
  ("de", "scene_icehockey") ∈ i18n_absent (Catalogs:=Sample.catalogs) ∧
  ∃ missingLangs,
    (<["santatracker" := ["de"]]> (<["scene_icehockey" := ["fr"; "de"]]> ∅)
       : gmap string (list string)) !! "scene_icehockey" = Some missingLangs ∧
    "de" ∈ missingLangs.
Proof.
  assert (loadCatalogs (H:=Sample.catalogs) Sample.yargsDefaultOnly emptyWorld
    = (Normal (<["santatracker" := ["de"]]> (<["scene_icehockey" := ["fr"; "de"]]> ∅),
               [("en", Sample.english)]),
       mkWorld [] [] [] [LogFoundLangs 1])) as Hload by (vm_compute; reflexivity).
  assert (("de", "scene_icehockey") ∈ i18n_absent (Catalogs:=Sample.catalogs))
    as Habsent by (simpl; apply list_elem_of_further, list_elem_of_here).
  split; [exact Hload|]. split; [exact Habsent|].
  exact (missing_messages_recorded (H:=Sample.catalogs) _ _ _ _ _ _ _ Hload Habsent).
Defined.

(** ** The default language *)

(** When the configured default language is neither a key of the loaded
    catalogs nor a name inherited from [Object.prototype], [release]
    throws before it writes or copies any file (the two output directories
    exist, nothing else), no later stage runs, and the process ends with a
    non-zero exit status. *)
Lemma default_lang_absent_is_fatal `{Path, Catalogs, Site, Compiler, Bundler}
    (yargs : Yargs) (w : World) :
  defaultLang yargs ∉ Map_keys i18n_langs →
  inherited (defaultLang yargs) = false →
  ∃ err w',
    release yargs w = (Throw err, w') ∧
    files w' = files w ∧ copies w' = copies w ∧
    dirs w' = dirs w ++ ["dist/static"; "dist/prod"] ∧
    (main yargs).1 = 1 ∧ files (main yargs).2 = [] ∧ copies (main yargs).2 = [].
Proof.
  intros Hd Hi.
  assert (∀ w0, ∃ err w',
    release yargs w0 = (Throw err, w') ∧
    files w' = files w0 ∧ copies w' = copies w0 ∧
    dirs w' = dirs w0 ++ ["dist/static"; "dist/prod"]) as Hrel.
  { intros w0. unfold release. build_step.
    match goal with
    | |- context [loadCatalogs yargs ?w1] =>
        destruct (loadCatalogs_fatal yargs w1 Hd Hi) as [err Hload]; rewrite Hload
    end.
    eexists _, _. split; [done|]. simpl. by rewrite <- app_assoc. }
  destruct (Hrel w) as (err & w' & Hw & Hf & Hc & Hdirs).
  exists err, w'. split_and!; try done.
  all: unfold main; destruct (Hrel emptyWorld) as (e0 & w0 & Hm & Hf0 & Hc0 & _).
  all: rewrite Hm; simpl; done.
Qed.

(** The sample build with a default language no catalog has. *)
Lemma default_lang_absent_is_fatal_sample :
  (defaultLang Sample.yargsNoDefault
     ∉ Map_keys (i18n_langs (Catalogs:=Sample.catalogs))) ∧
  inherited (defaultLang Sample.yargsNoDefault) = false ∧
  ∃ err w',
    release (H:=Sample.path) (H0:=Sample.catalogs) (H1:=Sample.site)
      (H2:=Sample.compiler) (H3:=Sample.bundler) Sample.yargsNoDefault emptyWorld
      = (Throw err, w') ∧
    files w' = [] ∧ copies w' = [] ∧ dirs w' = ["dist/static"; "dist/prod"] ∧
    (main (H:=Sample.path) (H0:=Sample.catalogs) (H1:=Sample.site)
       (H2:=Sample.compiler) (H3:=Sample.bundler) Sample.yargsNoDefault).1 = 1 ∧
    files (main (H:=Sample.path) (H0:=Sample.catalogs) (H1:=Sample.site)
       (H2:=Sample.compiler) (H3:=Sample.bundler) Sample.yargsNoDefault).2 = [] ∧
    copies (main (H:=Sample.path) (H0:=Sample.catalogs) (H1:=Sample.site)
       (H2:=Sample.compiler) (H3:=Sample.bundler) Sample.yargsNoDefault).2 = [].
Proof.
  assert (defaultLang Sample.yargsNoDefault
            ∉ Map_keys (i18n_langs (Catalogs:=Sample.catalogs))) as Hd.
  { apply (bool_decide_unpack _). vm_compute. exact I. }
  split; [exact Hd|]. split; [reflexivity|].
  exact (default_lang_absent_is_fatal (H:=Sample.path) (H0:=Sample.catalogs)
           (H1:=Sample.site) (H2:=Sample.compiler) (H3:=Sample.bundler)
           Sample.yargsNoDefault emptyWorld Hd eq_refl).
Defined.

(** C2, at a build whose default language is [toString]: no catalog has
    that language, but [toString] is a name every ordinary object inherits,
    so [yargs.defaultLang in langs] holds and the guard of lines 252-254
    does not throw. The build runs to the end with exit status 0 and writes
    its documents, every one of them under [intl/] and none for a default
    language. *)
Theorem default_lang_inherited_name_passes :
  (defaultLang Sample.yargsInheritedDefault
     ∉ Map_keys (i18n_langs (Catalogs:=Sample.catalogs))) ∧
  (main (H:=Sample.path) (H0:=Sample.catalogs) (H1:=Sample.site)
     (H2:=Sample.compiler) (H3:=Sample.bundler) Sample.yargsInheritedDefault).1 = 0 ∧
  (files (main (H:=Sample.path) (H0:=Sample.catalogs) (H1:=Sample.site)
     (H2:=Sample.compiler) (H3:=Sample.bundler) Sample.yargsInheritedDefault).2).*1
    = [ "dist/prod/intl/en_ALL/cast.html"; "dist/prod/intl/fr_ALL/cast.html";
        "dist/prod/intl/de_ALL/cast.html";
        "dist/prod/intl/en_ALL/index.html"; "dist/prod/intl/fr_ALL/index.html";
        "dist/prod/intl/de_ALL/index.html";
        "dist/prod/intl/en_ALL/icehockey.html"; "dist/prod/intl/fr_ALL/icehockey.html";
        "dist/prod/intl/de_ALL/icehockey.html";
        "dist/prod/intl/en_ALL/snowball.html"; "dist/prod/intl/fr_ALL/snowball.html";
        "dist/prod/intl/de_ALL/snowball.html";
        "dist/prod/intl/en_ALL/manifest.json"; "dist/prod/intl/fr_ALL/manifest.json";
        "dist/prod/intl/de_ALL/manifest.json";
        "dist/static/src/e0.js"; "dist/static/src/e1.js"; "dist/static/src/e2.js";
        "dist/static/src/e3.js"; "dist/static/src/c0f3.js";
        "dist/static/src/_e0.js"; "dist/static/src/_e1.js"; "dist/static/src/_e2.js";
        "dist/static/src/_e3.js" ].
Proof.
  split_and!.
  - apply (bool_decide_unpack _). vm_compute. exact I.
  - vm_compute. reflexivity.
  - vm_compute. reflexivity.
Qed.

(** ** The summary of missing messages *)

(** With [--default-only] and a default language that was loaded, the
    divisor of the printed ratio is the one language left in [langs], so
    the ratio is a hundred times the size of the set. *)
Lemma missingRatio_default_only `{Catalogs} (yargs : Yargs) (w w' : World)
    (ledger : gmap string (list string)) (langs : list (string * Messages))
    (missingLangs : list string) :
  loadCatalogs yargs w = (Normal (ledger, langs), w') →
  defaultOnly yargs = true →
  defaultLang yargs ∈ Map_keys i18n_langs →
  NoDup (Map_keys i18n_langs) →
  (missingRatio missingLangs langs == inject_Z (100 * Z.of_nat (length missingLangs)))%Q.
Proof.
  intros (_ & _ & -> & _)%loadCatalogs_ledger -> Hdefault Hnodup.
  unfold missingRatio. rewrite filter_default_length by done.
  unfold Qeq, Qdiv, Qmult, Qinv. simpl. lia.
Qed.

(** C4, at a build with [--default-only], three loaded languages and a
    message id that two of them miss: the callback has run for the
    languages that are then removed (both are in the set), the build
    ends with exit status 0, and the ratio printed for the id is 200 (per
    cent), the size of the set over the one language left, not over the
    three loaded ones. *)
Theorem default_only_summary_ratio :
  ∃ lines,
    console (main (H:=Sample.path) (H0:=Sample.catalogs) (H1:=Sample.site)
               (H2:=Sample.compiler) (H3:=Sample.bundler) Sample.yargsDefaultOnly).2
      !! 11 = Some (LogMissing 2 lines) ∧
    lines !! "scene_icehockey"
      = Some (missingRatio ["fr"; "de"] [("en", Sample.english)], Some ["fr"; "de"]) ∧
    (missingRatio ["fr"; "de"] [("en", Sample.english)] == 200)%Q ∧
    length (i18n_langs (Catalogs:=Sample.catalogs)) = 3 ∧
    ¬ (missingRatio ["fr"; "de"] [("en", Sample.english)]
       == missingRatio ["fr"; "de"] (i18n_langs (Catalogs:=Sample.catalogs)))%Q ∧
    (main (H:=Sample.path) (H0:=Sample.catalogs) (H1:=Sample.site)
       (H2:=Sample.compiler) (H3:=Sample.bundler) Sample.yargsDefaultOnly).1 = 0.
Proof.
  exists (missingLine [("en", Sample.english)] <$>
            (<["santatracker" := ["de"]]> (<["scene_icehockey" := ["fr"; "de"]]> ∅))).
  split_and!.
  - vm_compute. reflexivity.
  - vm_compute. reflexivity.
  - vm_compute. reflexivity.
  - reflexivity.
  - vm_compute. discriminate.
  - vm_compute. reflexivity.
Qed.

(** ** The entry registry *)

Lemma length_append (a b : string) :
  String.length (a +:+ b) = String.length a + String.length b.
Proof.
  induction a as [|c a IH]; [done|].
  change (S (String.length (a +:+ b)) = S (String.length a) + String.length b).
  by rewrite IH.
Qed.

Lemma append_inj_r (a b c : string) : a +:+ c = b +:+ c → a = b.
Proof.
  revert b. induction a as [|x a IH]; intros [|y b] Heq.
  - done.
  - apply (f_equal String.length) in Heq.
    rewrite !length_append in Heq. simpl in Heq. lia.
  - apply (f_equal String.length) in Heq.
    rewrite !length_append in Heq. simpl in Heq. lia.
  - change (String x (a +:+ c) = String y (b +:+ c)) in Heq.
    injection Heq as -> Heq. f_equal. by apply IH.
Qed.

Lemma entryId_inj (m n : nat) : entryId m = entryId n → m = n.
Proof.
  unfold entryId. intros Heq.
  change (String "e" (pretty m +:+ ".js") = String "e" (pretty n +:+ ".js")) in Heq.
  injection Heq as Heq.
  apply append_inj_r in Heq. by apply (inj pretty) in Heq.
Qed.

Lemma registry_wf_nil : registry_wf [].
Proof. done. Qed.

Lemma registry_wf_NoDup (reg : list (string * EntryPoint)) :
  registry_wf reg → NoDup (Map_keys reg).
Proof.
  intros ->. apply NoDup_fmap_2; [|apply NoDup_seq].
  intros m n. apply entryId_inj.
Qed.

Lemma registry_wf_fresh (reg : list (string * EntryPoint)) :
  registry_wf reg → entryId (length reg) ∉ Map_keys reg.
Proof.
  intros -> (n & Heq & Hn)%list_elem_of_fmap.
  apply entryId_inj in Heq. apply elem_of_seq in Hn. lia.
Qed.

Lemma Map_set_fresh {V} (m : list (string * V)) (k : string) (v : V) :
  k ∉ Map_keys m → Map_set m k v = m ++ [(k, v)].
Proof.
  unfold Map_keys. induction m as [|[k' v'] r IH]; simpl; [done|].
  intros [Hne Hr]%not_elem_of_cons.
  destruct (String.eqb_spec k' k) as [->|_]; [done|]. by rewrite IH.
Qed.

Lemma Map_get_elem {V} (m : list (string * V)) (k : string) (v : V) :
  NoDup (Map_keys m) → (k, v) ∈ m → Map_get m k = Some v.
Proof.
  unfold Map_keys. induction m as [|[k' v'] r IH]; simpl.
  - intros _ Hin. by apply elem_of_nil in Hin.
  - intros [Hk Hnd]%NoDup_cons [[= -> ->]|Hin]%elem_of_cons.
    + by rewrite String.eqb_refl.
    + destruct (String.eqb_spec k' k) as [->|_]; [|by apply IH].
      exfalso. apply Hk. apply list_elem_of_fmap. by exists (k, v).
Qed.

Lemma Map_get_app {V} (m m' : list (string * V)) (k : string) (v : V) :
  Map_get m k = Some v → Map_get (m ++ m') k = Some v.
Proof.
  induction m as [|[k' v'] r IH]; simpl; [done|].
  destruct (String.eqb k' k); [done|apply IH].
Qed.

Lemma registry_wf_set (reg : list (string * EntryPoint)) (ep : EntryPoint) :
  registry_wf reg →
  Map_set reg (entryId (length reg)) ep = reg ++ [(entryId (length reg), ep)] ∧
  registry_wf (reg ++ [(entryId (length reg), ep)]).
Proof.
  intros Hwf. split; [by apply Map_set_fresh, registry_wf_fresh|].
  unfold registry_wf, Map_keys in *.
  rewrite fmap_app, length_app, Hwf. simpl.
  rewrite Nat.add_1_r, seq_S, fmap_app. done.
Qed.

(** ** Entry extraction *)

Section extraction.
Context `{Path, Site}.

Lemma moduleScriptNodes_NoDup (nodes : list ScriptNode) :
  NoDup (moduleScriptNodes nodes).
Proof. apply NoDup_filter, NoDup_seq. Qed.

Lemma moduleScriptNodes_elem (nodes : list ScriptNode) (i : nat) (s : ScriptNode) :
  nodes !! i = Some s → isLocal s = true → isModule s = true →
  i ∈ moduleScriptNodes nodes.
Proof.
  intros Hi Hl Hm. apply list_elem_of_filter. split.
  - unfold isModuleScript. by rewrite Hi, Hl, Hm.
  - apply elem_of_seq. apply lookup_lt_Some in Hi. lia.
Qed.

(** The loop over the module scripts of one document. *)
Lemma registerModule_loop (doc : nat) (dir : string) (l : list nat) :
  ∀ reg nodes reg' nodes',
    NoDup l → registry_wf reg →
    foldl (registerModule doc dir) (reg, nodes) l = (reg', nodes') →
    registry_wf reg' ∧
    (∃ new, reg' = reg ++ new) ∧
    (∀ j, j ∉ l → nodes' !! j = nodes !! j) ∧
    (∀ i s, i ∈ l → nodes !! i = Some s →
       (∃ id, (id, mkEntryPoint (doc, i) dir (entryCode s)) ∈ reg') ∧
       nodes' !! i = Some (mkScriptNode (type s) "" "")).
Proof.
  induction l as [|i l IH]; intros reg nodes reg' nodes' Hnd Hwf; simpl.
  - intros [= <- <-]. split_and!; [done|by exists []; rewrite app_nil_r|done|].
    intros i s Hin. by apply elem_of_nil in Hin.
  - apply NoDup_cons in Hnd as [Hi Hnd].
    destruct (nodes !! i) as [s0|] eqn:Hs0.
    + destruct (registry_wf_set reg (mkEntryPoint (doc, i) dir (entryCode s0)) Hwf)
        as [Hset Hwf1].
      rewrite Hset. intros Hfold.
      destruct (IH _ _ _ _ Hnd Hwf1 Hfold) as (Hwf' & [new Hnew] & Hframe & Hreg).
      split_and!.
      * done.
      * exists ([(entryId (length reg), mkEntryPoint (doc, i) dir (entryCode s0))] ++ new).
        by rewrite Hnew, <- app_assoc.
      * intros j [Hji Hjl]%not_elem_of_cons.
        rewrite (Hframe j Hjl). by apply list_lookup_insert_ne.
      * intros k s [->|Hk]%elem_of_cons Hs.
        -- assert (s = s0) as -> by congruence. split.
           ++ exists (entryId (length reg)). rewrite Hnew.
              apply elem_of_app. left. apply elem_of_app. right.
              apply list_elem_of_singleton. done.
           ++ rewrite (Hframe i Hi). apply list_lookup_insert_eq.
              by apply lookup_lt_Some in Hs0.
        -- apply (Hreg k s Hk). rewrite list_lookup_insert_ne; [done|].
           intros ->. done.
    + intros Hfold.
      destruct (IH _ _ _ _ Hnd Hwf Hfold) as (Hwf' & Hnew & Hframe & Hreg).
      split_and!; [done|done| |].
      * intros j [Hji Hjl]%not_elem_of_cons. by apply Hframe.
      * intros k s [->|Hk]%elem_of_cons Hs; [congruence|]. by apply Hreg.
Qed.

(** One document: the registry grows at its end, the document is added
    to the store, and every local module script of the document has its
    entry point and is cleared. *)
Lemma extractDocument_spec (ex : Extraction) (htmlFile : string) :
  registry_wf (entrypoints ex) →
  registry_wf (entrypoints (extractDocument ex htmlFile)) ∧
  (∃ new, entrypoints (extractDocument ex htmlFile) = entrypoints ex ++ new) ∧
  (∃ nodes',
     htmlDocuments (extractDocument ex htmlFile)
       = htmlDocuments ex ++ [(htmlFile, nodes')] ∧
     ∀ i s, dom_read htmlFile !! i = Some s →
            isLocal s = true → isModule s = true →
            (∃ id, Map_get (entrypoints (extractDocument ex htmlFile)) id
                     = Some (mkEntryPoint (length (htmlDocuments ex), i)
                               (path_dirname htmlFile) (entryCode s))) ∧
            nodes' !! i = Some (mkScriptNode (type s) "" "")).
Proof.
  intros Hwf. unfold extractDocument.
  destruct (foldl (registerModule (length (htmlDocuments ex)) (path_dirname htmlFile))
              (entrypoints ex, dom_read htmlFile)
              (moduleScriptNodes (dom_read htmlFile))) as [reg' nodes'] eqn:Hfold.
  simpl.
  destruct (registerModule_loop _ _ _ _ _ _ _
              (moduleScriptNodes_NoDup (dom_read htmlFile)) Hwf Hfold)
    as (Hwf' & Hnew & _ & Hreg).
  split_and!; [done|done|].
  exists nodes'. split; [done|].
  intros i s Hs Hl Hm.
  destruct (Hreg i s (moduleScriptNodes_elem _ _ _ Hs Hl Hm) Hs) as [[id Hid] Hnode].
  split; [|done]. exists id.
  by apply Map_get_elem; [apply registry_wf_NoDup|].
Qed.

(** The documents that follow keep what was registered and stored. *)
Lemma extractDocuments_keep (files : list string) :
  ∀ ex : Extraction,
    registry_wf (entrypoints ex) →
    registry_wf (entrypoints (foldl extractDocument ex files)) ∧
    length (htmlDocuments (foldl extractDocument ex files))
      = length (htmlDocuments ex) + length files ∧
    (∀ id ep, Map_get (entrypoints ex) id = Some ep →
              Map_get (entrypoints (foldl extractDocument ex files)) id = Some ep) ∧
    (∀ d doc, htmlDocuments ex !! d = Some doc →
              htmlDocuments (foldl extractDocument ex files) !! d = Some doc).
Proof.
  induction files as [|f files IH]; intros ex Hwf; simpl.
  - split_and!; [done|lia|done|done].
  - destruct (extractDocument_spec ex f Hwf)
      as (Hwf1 & [new Hnew] & nodes' & Hdocs & _).
    destruct (IH _ Hwf1) as (Hwf' & Hlen & Hreg & Hdoc).
    split_and!.
    + done.
    + rewrite Hlen, Hdocs, length_app. simpl. lia.
    + intros id ep Hid. apply Hreg. rewrite Hnew. by apply Map_get_app.
    + intros d doc Hd. apply Hdoc. rewrite Hdocs. by apply lookup_app_l_Some.
Qed.

Lemma entryCode_src (s : ScriptNode) :
  src s ≠ "" →
  entryCode s
    = "import '" +:+ (if String.prefix "." (src s) then src s else "./" +:+ src s)
        +:+ "';".
Proof.
  intros Hsrc. unfold entryCode, truthy, startsWith.
  destruct (String.eqb_spec (src s) "") as [?|_]; [done|]. simpl.
  by destruct (String.prefix "." (src s)).
Qed.

Lemma entryCode_inline (s : ScriptNode) : src s = "" → entryCode s = textContent s.
Proof. intros Hsrc. unfold entryCode, truthy. by rewrite Hsrc. Qed.

(** C5: every module-type script found during entry extraction (type
    [module], source not a remote URL) gets an entry point that refers to
    it and to the directory of its document. With a [src], the source
    text is the single statement [import '<src>';], the [src] prefixed
    with [./] unless it starts with a dot; without one it is the inline
    text as it stands. The node's text content and [src] are then empty. *)
Theorem module_scripts_become_entries (d : nat) (htmlFile : string)
    (i : nat) (s : ScriptNode) :
  htmlFiles !! d = Some htmlFile →
  dom_read htmlFile !! i = Some s →
  isModule s = true → isLocal s = true →
  ∃ id ep nodes',
    Map_get (entrypoints extractEntries) id = Some ep ∧
    scriptNode ep = (d, i) ∧
    dir ep = path_dirname htmlFile ∧
    (src s ≠ "" →
     code ep = "import '"
               +:+ (if String.prefix "." (src s) then src s else "./" +:+ src s)
               +:+ "';") ∧
    (src s = "" → code ep = textContent s) ∧
    htmlDocuments extractEntries !! d = Some (htmlFile, nodes') ∧
    nodes' !! i = Some (mkScriptNode (type s) "" "").
Proof.
  intros Hd Hs Hm Hl. unfold extractEntries.
  rewrite <- (take_drop_middle _ _ _ Hd), foldl_app. simpl.
  set (ex0 := mkExtraction [] [] [] []).
  destruct (extractDocuments_keep (take d htmlFiles) ex0 registry_wf_nil)
    as (Hwf1 & Hlen1 & _ & _).
  set (ex1 := foldl extractDocument ex0 (take d htmlFiles)) in *.
  assert (length (htmlDocuments ex1) = d) as Hd1.
  { rewrite Hlen1, length_take. simpl. apply lookup_lt_Some in Hd. lia. }
  destruct (extractDocument_spec ex1 htmlFile Hwf1)
    as (Hwf2 & _ & nodes' & Hdocs & Hentries).
  destruct (Hentries i s Hs Hl Hm) as [[id Hid] Hnode].
  destruct (extractDocuments_keep (drop (S d) htmlFiles) _ Hwf2)
    as (_ & _ & Hreg & Hdoc).
  exists id, (mkEntryPoint (d, i) (path_dirname htmlFile) (entryCode s)), nodes'.
  split_and!.
  - apply Hreg. by rewrite <- Hd1.
  - done.
  - done.
  - apply entryCode_src.
  - apply entryCode_inline.
  - apply Hdoc. rewrite Hdocs. by apply list_lookup_middle.
  - done.
Qed.

End extraction.

(** ** The virtual loader plugin *)

Section plugin.
Context `{Path, Compiler}.
Implicit Types (reg : list (string * EntryPoint)) (p : Plugin).

(** What is stored under an id is what [load] finds. *)
Lemma load_stored (id text : string) p :
  virtualCache p !! id = Some text → load id p = Some (CachedText text).
Proof. intros Hid. unfold load, get. by rewrite Hid. Qed.

(** What one hook call does to the plugin. *)
Lemma callHook_state reg (c : HookCall) p (r : HookResult) p' :
  callHook reg c p = (Normal r, p') →
  p' = mkPlugin (assign (virtualCache p) (written reg c))
                (compiled p ++ option_list (visit reg c)).
Proof.
  destruct c as [id [importer|]|id]; simpl.
  - destruct (loader (resolvedPath reg id importer)) as [[out|]|e];
      simpl; intros [= <- <-]; done.
  - destruct (Map_get reg id) as [data|]; simpl; [|done].
    intros [= <- <-]. rewrite app_nil_r. done.
  - intros [= <- <-]. rewrite app_nil_r. by destruct p.
Qed.

(** What a completed run does to the plugin: the cache takes the
    assignments of the calls in order, and every relative resolution
    adds its path to the paths handed to the loader. *)
Lemma runHooks_state reg (calls : list HookCall) :
  ∀ p (rs : list HookResult) p',
    runHooks reg calls p = (Normal rs, p') →
    p' = mkPlugin (foldl (λ cache c, assign cache (written reg c)) (virtualCache p) calls)
                  (compiled p ++ visits reg calls).
Proof.
  induction calls as [|c calls IH]; intros p rs p'; simpl.
  - intros [= <- <-]. rewrite app_nil_r. by destruct p.
  - destruct (callHook reg c p) as [[r|e] p1] eqn:Hc; [|done].
    destruct (runHooks reg calls p1) as [[rs1|e] p2] eqn:Hrun; [|done].
    intros [= <- <-]. rewrite (IH _ _ _ Hrun), (callHook_state _ _ _ _ _ Hc). simpl.
    f_equal. unfold visits. simpl.
    destruct (visit reg c); simpl; by rewrite <- app_assoc.
Qed.

(** The last assignment to a key decides what is cached under it. *)
Lemma assignments_value reg (calls : list HookCall) (cache : gmap string string)
    (k v : string) :
  (∃ c, c ∈ calls ∧ written reg c = Some (k, v)) →
  (∀ c v', c ∈ calls → written reg c = Some (k, v') → v' = v) →
  foldl (λ cache c, assign cache (written reg c)) cache calls !! k = Some v.
Proof.
  induction calls as [|c calls IH] using rev_ind.
  - intros (c & Hc & _). by apply elem_of_nil in Hc.
  - intros (c0 & Hc0 & Hw0) Hsame. rewrite foldl_app. simpl.
    destruct (written reg c) as [[k' v']|] eqn:Hw; simpl.
    + destruct (decide (k' = k)) as [->|Hne].
      * rewrite lookup_insert_eq. f_equal. apply (Hsame c); [|done].
        apply elem_of_app. right. by apply list_elem_of_singleton.
      * rewrite lookup_insert_ne by done. apply IH.
        -- apply elem_of_app in Hc0 as [Hc0|Hc0%list_elem_of_singleton].
           ++ eauto.
           ++ subst c0. congruence.
        -- intros c1 v1 Hc1. apply Hsame. apply elem_of_app. by left.
    + apply IH.
      * apply elem_of_app in Hc0 as [Hc0|Hc0%list_elem_of_singleton].
        -- eauto.
        -- subst c0. congruence.
      * intros c1 v1 Hc1. apply Hsame. apply elem_of_app. by left.
Qed.

(** C9: root resolution (no importer) of an identifier that is not in
    the entry registry throws, on reading [code] of the missing record:
    it returns nothing, and neither the cache nor the loader is touched.
    For a registered identifier it stores the entry's source text under
    the identifier and returns the identifier. *)
Theorem root_resolution_needs_entry reg (id : string) p :
  match Map_get reg id with
  | None =>
      ∃ msg, resolveId reg id None p = (Throw (TypeError msg), p)
  | Some data =>
      resolveId reg id None p
        = (Normal (Some id), mkPlugin (<[id := code data]> (virtualCache p)) (compiled p)) ∧
      load id (resolveId reg id None p).2 = Some (CachedText (code data))
  end.
Proof.
  simpl. destruct (Map_get reg id) as [data|]; [|by eauto].
  split; [done|]. apply load_stored. simpl. apply lookup_insert_eq.
Qed.

(** C6: a resolution request with an importer resolves the identifier
    against the directory of the entry point's document when the importer
    is a registered entry id, and against the directory of the importer's
    own path otherwise. The path so resolved is the one handed to the
    compiling loader, and when the loader compiles it, it is the module
    id returned. *)
Theorem relative_resolution_base reg (id importer : string) p :
  let base :=
    match Map_get reg importer with
    | Some data => dir data
    | None => path_dirname importer
    end in
  let resolved := path_resolve base id in
  compiled (resolveId reg id (Some importer) p).2 = compiled p ++ [resolved] ∧
  ∀ out, loader resolved = Normal (Some out) →
         (resolveId reg id (Some importer) p).1 = Normal (Some resolved).
Proof.
  simpl. unfold resolvedPath, importerDir. split.
  - by destruct (loader _) as [[out|]|e].
  - intros out ->. done.
Qed.

(** C7: in a relative resolution, when the compiling loader returns
    [undefined] the resolver returns [undefined] and leaves the cache as
    it is; when the loader returns a compiled output, the body is stored
    in the cache under the resolved path, and that path is returned. *)
Theorem loader_result_decides reg (id importer : string) p
    (out : option LoaderOut) :
  loader (resolvedPath reg id importer) = Normal out →
  match out with
  | None =>
      (resolveId reg id (Some importer) p).1 = Normal None ∧
      virtualCache (resolveId reg id (Some importer) p).2 = virtualCache p
  | Some o =>
      (resolveId reg id (Some importer) p).1
        = Normal (Some (resolvedPath reg id importer)) ∧
      virtualCache (resolveId reg id (Some importer) p).2
        = <[resolvedPath reg id importer := body o]> (virtualCache p) ∧
      load (resolvedPath reg id importer) (resolveId reg id (Some importer) p).2
        = Some (CachedText (body o))
  end.
Proof.
  intros Hout. simpl. rewrite Hout. destruct out as [o|]; simpl; [|done].
  split_and!; [done..|]. apply load_stored. simpl. apply lookup_insert_eq.
Qed.

(** C1, as the code has it: in a completed run of the bundler against
    the plugin, every relative resolution hands its path to the compiling
    loader, whether or not the path is cached already, so a path is
    compiled once per visit; a root resolution stores the entry's source
    text under its id; each compile that succeeds stores the body under
    the path; and [load] reads what is stored. *)
Theorem cache_is_written_on_every_visit reg (calls : list HookCall) p
    (rs : list HookResult) p' :
  runHooks reg calls p = (Normal rs, p') →
  compiled p' = compiled p ++ visits reg calls ∧
  (∀ id data,
     CallResolveId id None ∈ calls → Map_get reg id = Some data →
     id ∉ visits reg calls →
     load id p' = Some (CachedText (code data))) ∧
  (∀ path out,
     path ∈ visits reg calls → loader path = Normal (Some out) →
     Map_get reg path = None →
     load path p' = Some (CachedText (body out))).
Proof.
  intros Hrun. rewrite (runHooks_state _ _ _ _ _ Hrun). simpl.
  split_and!; [done| |].
  - intros id data Hin Hdata Hfresh. apply load_stored. simpl.
    apply assignments_value.
    + exists (CallResolveId id None). split; [done|]. simpl. by rewrite Hdata.
    + intros [id' [importer|]|id'] v' Hc; simpl.
      * destruct (loader _) as [[o|]|e] eqn:Hl; intros [= Hk <-].
        exfalso. apply Hfresh. apply list_elem_of_omap.
        exists (CallResolveId id' (Some importer)). split; [done|]. simpl.
        by rewrite Hk.
      * destruct (Map_get reg id') as [data'|] eqn:Hd'; intros [= -> <-].
        congruence.
      * done.
  - intros path out (c & Hc & Hv)%list_elem_of_omap Hl Hnone.
    destruct c as [id [importer|]|id]; simpl in Hv; try done.
    injection Hv as Hv. apply load_stored. simpl. apply assignments_value.
    + exists (CallResolveId id (Some importer)). split; [done|]. simpl.
      by rewrite Hv, Hl.
    + intros [id' [importer'|]|id'] v' Hc'; simpl.
      * destruct (loader (resolvedPath reg id' importer')) as [[o|]|e] eqn:Hl';
          intros [= Hk <-].
        rewrite Hk in Hl'. congruence.
      * destruct (Map_get reg id') as [data'|] eqn:Hd'; intros [= -> <-].
        congruence.
      * done.
Qed.

End plugin.

(** ** Inline modules *)

Lemma prefix_split (p s : string) :
  String.prefix p s = true → ∃ suf, s = p +:+ suf.
Proof.
  revert s. induction p as [|c p IH]; intros s.
  - intros _. by exists s.
  - destruct s as [|c' s]; simpl; [done|].
    destruct (Ascii.ascii_dec c c') as [->|]; [|done].
    intros [suf ->]%IH. by exists suf.
Qed.

Lemma prefix_append (p suf : string) : String.prefix p (p +:+ suf) = true.
Proof.
  induction p as [|c p IH].
  - by destruct ("" +:+ suf).
  - change (String c p +:+ suf) with (String c (p +:+ suf)). simpl.
    by destruct (Ascii.ascii_dec c c).
Qed.

(** [indexOf] finds an occurrence: the string splits around it. *)
Lemma index_split (p s : string) (k : nat) :
  String.index 0 p s = Some k →
  ∃ pre suf, s = pre +:+ p +:+ suf ∧ String.length pre = k.
Proof.
  revert k. induction s as [|c s IH]; intros k; cbn [String.index].
  - destruct p; [|done]. intros [= <-]. by exists "", "".
  - destruct (String.prefix p (String c s)) eqn:Hp.
    + intros [= <-]. apply prefix_split in Hp as [suf ->]. by exists "", suf.
    + destruct (String.index 0 p s) as [n|] eqn:Hn; [|done].
      intros [= <-]. destruct (IH n eq_refl) as (pre & suf & -> & <-).
      by exists (String c pre), suf.
Qed.

(** [indexOf] misses no occurrence and returns the first one. *)
Lemma index_first (p pre suf : string) :
  ∃ k, String.index 0 p (pre +:+ p +:+ suf) = Some k ∧ k ≤ String.length pre.
Proof.
  induction pre as [|c pre IH].
  - change ("" +:+ p +:+ suf) with (p +:+ suf). exists 0. split; [|done].
    pose proof (prefix_append p suf) as Hp.
    destruct (p +:+ suf) as [|c s] eqn:Hs; cbn [String.index].
    + destruct p; [done|]. done.
    + by rewrite Hp.
  - change (String c pre +:+ p +:+ suf) with (String c (pre +:+ p +:+ suf)).
    destruct IH as (k & Hk & Hle). cbn [String.index].
    destruct (String.prefix p (String c (pre +:+ p +:+ suf))).
    + exists 0. split; [done|lia].
    + rewrite Hk. exists (S k). split; [done|]. simpl. lia.
Qed.

Lemma slice_append (pre rest : string) : slice (pre +:+ rest) (String.length pre) = rest.
Proof.
  induction pre as [|c pre IH]; simpl; [by destruct rest|].
  change (String c pre +:+ rest) with (String c (pre +:+ rest)). done.
Qed.

Lemma append_assoc (a b c : string) : (a +:+ b) +:+ c = a +:+ b +:+ c.
Proof.
  induction a as [|x a IH]; [done|].
  change (String x ((a +:+ b) +:+ c) = String x (a +:+ b +:+ c)). by rewrite IH.
Qed.

(** C8: for an identifier requested without importer that contains the
    inline marker, [virtualModuleContent] returns at once the
    base64-decoded text of what follows the first marker, and reaches
    neither the scene compiler nor any other collaborator. *)
Theorem inline_module_is_decoded `{Path, SceneTools} (id : string) :
  (∃ pre suf, id = pre +:+ inlineMarker +:+ suf) →
  ∃ pre suf,
    id = pre +:+ inlineMarker +:+ suf ∧
    indexOf id inlineMarker = Some (String.length pre) ∧
    (∀ pre' suf', id = pre' +:+ inlineMarker +:+ suf' →
                  String.length pre ≤ String.length pre') ∧
    virtualModuleContent id None
      = (Normal (ContentText (base64_toString suf)), []).
Proof.
  intros (pre0 & suf0 & Hid).
  destruct (index_first inlineMarker pre0 suf0) as (k & Hk & _).
  rewrite <- Hid in Hk.
  destruct (index_split _ _ _ Hk) as (pre & suf & Hsplit & Hlen).
  exists pre, suf. split_and!.
  - done.
  - unfold indexOf. by rewrite Hlen.
  - intros pre' suf' Hid'.
    destruct (index_first inlineMarker pre' suf') as (k' & Hk' & Hle).
    rewrite <- Hid' in Hk'. rewrite Hlen. congruence.
  - unfold virtualModuleContent, indexOf. rewrite Hk. do 3 f_equal.
    rewrite Hsplit, <- Hlen, <- append_assoc.
    change 3 with (String.length inlineMarker).
    rewrite <- length_append. by rewrite slice_append.
Qed.

(** ** The development message lookup *)

Lemma inherited_raw : inherited "raw" = false.
Proof. reflexivity. Qed.

Lemma inherited_message : inherited "message" = false.
Proof. reflexivity. Qed.

(** C10: [_msg] never throws. It returns ['?'] for an id that is not in
    the catalog and for an entry with neither a truthy [raw] nor a truthy
    [message]; otherwise it returns the entry's [raw] when that is truthy
    and its [message] when not. *)
Theorem msg_lookup_total (messages : list (string * Magic.Json)) (id : string) :
  Magic._msg messages id
    = Normal
        match Map_get messages id with
        | None => Magic.VJson (Magic.JString "?")
        | Some entry =>
            if Magic.truthy (Magic.field entry "raw")
            then Magic.field entry "raw"
            else if Magic.truthy (Magic.field entry "message")
                 then Magic.field entry "message"
                 else Magic.VJson (Magic.JString "?")
        end.
Proof.
  unfold Magic._msg, Magic.lookup.
  destruct (Map_get messages id) as [entry|].
  - destruct entry as [|b|q|s|items|fields]; simpl;
      rewrite ?inherited_raw, ?inherited_message;
      unfold Magic.and_, Magic.or_, Magic.bind; simpl.
    + done.
    + by destruct b.
    + by destruct (Qeq_bool q 0) eqn:Hq; simpl; rewrite ?Hq.
    + by destruct (truthy s) eqn:Hs; simpl; rewrite ?Hs.
    + done.
    + destruct (Magic.truthy (Magic.lookup fields "raw")) eqn:Hraw; simpl.
      * by rewrite Hraw.
      * by destruct (Magic.truthy (Magic.lookup fields "message")) eqn:Hm;
          simpl; rewrite ?Hm.
  - destruct (inherited id); simpl;
      rewrite ?inherited_raw, ?inherited_message; done.
Qed.

(** * The sample site, run *)

(** The example of the specification: a module script with
    [src="foo.js"] becomes an entry point whose source is exactly
    [import './foo.js';]. *)
Example sample_registry :
  Sample.registry
    = [ ("e0.js", mkEntryPoint (0, 1) "." "import './foo.js';");
        ("e1.js", mkEntryPoint (1, 0) "scenes/icehockey"
                    "import '../../src/shared.js'; start();");
        ("e2.js", mkEntryPoint (1, 2) "scenes/icehockey" "import './icehockey.js';");
        ("e3.js", mkEntryPoint (2, 0) "scenes/snowball"
                    "import '../../src/shared.js'; roll();") ].
Proof. vm_compute. reflexivity. Qed.

Lemma module_scripts_become_entries_witness :
  htmlFiles (Site:=Sample.site) !! 0 = Some "index.html" ∧
  dom_read (Site:=Sample.site) "index.html" !! 1 = Some (mkScriptNode "module" "foo.js" "") ∧
  isModule (mkScriptNode "module" "foo.js" "") = true ∧
  isLocal (H:=Sample.site) (mkScriptNode "module" "foo.js" "") = true ∧
  ∃ id ep nodes',
    Map_get Sample.registry id = Some ep ∧
    scriptNode ep = (0, 1) ∧
    dir ep = "." ∧
    ("foo.js" ≠ "" → code ep = "import './foo.js';") ∧
    ("foo.js" = "" → code ep = "") ∧
    htmlDocuments (extractEntries (H:=Sample.path) (H0:=Sample.site)) !! 0
      = Some ("index.html", nodes') ∧
    nodes' !! 1 = Some (mkScriptNode "module" "" "").
Proof.
  split_and!; [reflexivity..|].
  exact (module_scripts_become_entries (H:=Sample.path) (H0:=Sample.site)
           0 "index.html" 1 (mkScriptNode "module" "foo.js" "")
           eq_refl eq_refl eq_refl eq_refl).
Defined.

(** C1, refuted as stated: in the graph build of the sample site the
    shared module is in the cache, and has been loaded, once the import
    of it by the entry [e1.js] is resolved. The imports of it by the
    entry [e3.js] and by foo.js are resolved later; each of them hands
    the path to the compiling loader again, so by the end of the run the
    path has been compiled three times, not once. *)
Lemma recompiled_on_later_visits :
  runHooks (H:=Sample.path) (H0:=Sample.compiler)
      Sample.registry Sample.calls emptyPlugin
    = (Normal Sample.results,
       (runHooks (H:=Sample.path) (H0:=Sample.compiler)
          Sample.registry Sample.calls emptyPlugin).2) ∧
  compiled (runHooks (H:=Sample.path) (H0:=Sample.compiler)
              Sample.registry Sample.calls emptyPlugin).2
    = [ "/site/foo.js"; "/site/src/shared.js";
        "/site/scenes/icehockey/icehockey.js";
        "/site/src/shared.js"; "/site/src/shared.js"; "/site/src/lit-element" ] ∧
  ¬ NoDup (compiled (runHooks (H:=Sample.path) (H0:=Sample.compiler)
                       Sample.registry Sample.calls emptyPlugin).2).
Proof.
  assert (compiled (runHooks (H:=Sample.path) (H0:=Sample.compiler)
              Sample.registry Sample.calls emptyPlugin).2
    = [ "/site/foo.js"; "/site/src/shared.js";
        "/site/scenes/icehockey/icehockey.js";
        "/site/src/shared.js"; "/site/src/shared.js"; "/site/src/lit-element" ])
    as Hcompiled by (vm_compute; reflexivity).
  split_and!.
  - apply injective_projections; [vm_compute; reflexivity|reflexivity].
  - exact Hcompiled.
  - rewrite Hcompiled. apply (bool_decide_eq_false_1 _). vm_compute. reflexivity.
Qed.

(** The sample run: three visits of the shared module, three compiles;
    at the end the entry [e0.js] loads as its source text and the shared
    module as its compiled body. *)
Lemma cache_is_written_on_every_visit_witness :
  runHooks (H:=Sample.path) (H0:=Sample.compiler)
      Sample.registry Sample.calls emptyPlugin
    = (Normal Sample.results,
       (runHooks (H:=Sample.path) (H0:=Sample.compiler)
          Sample.registry Sample.calls emptyPlugin).2) ∧
  compiled (runHooks (H:=Sample.path) (H0:=Sample.compiler)
              Sample.registry Sample.calls emptyPlugin).2
    = compiled emptyPlugin ++ visits (H:=Sample.path) Sample.registry Sample.calls ∧
  load "e0.js" (runHooks (H:=Sample.path) (H0:=Sample.compiler)
                  Sample.registry Sample.calls emptyPlugin).2
    = Some (CachedText "import './foo.js';") ∧
  load "/site/src/shared.js"
       (runHooks (H:=Sample.path) (H0:=Sample.compiler)
          Sample.registry Sample.calls emptyPlugin).2
    = Some (CachedText "export const shared = 1;").
Proof.
  assert (runHooks (H:=Sample.path) (H0:=Sample.compiler)
      Sample.registry Sample.calls emptyPlugin
    = (Normal Sample.results,
       (runHooks (H:=Sample.path) (H0:=Sample.compiler)
          Sample.registry Sample.calls emptyPlugin).2)) as Hrun.
  { apply injective_projections; [vm_compute; reflexivity|reflexivity]. }
  destruct (cache_is_written_on_every_visit (H:=Sample.path) (H0:=Sample.compiler)
              Sample.registry Sample.calls emptyPlugin Sample.results _ Hrun)
    as (Hcompiled & Hroot & Hpath).
  split; [exact Hrun|]. split; [exact Hcompiled|]. split.
  - apply (Hroot "e0.js" (mkEntryPoint (0, 1) "." "import './foo.js';")).
    + apply list_elem_of_here.
    + vm_compute. reflexivity.
    + apply (bool_decide_unpack _). vm_compute. exact I.
  - apply (Hpath "/site/src/shared.js" (mkLoaderOut "export const shared = 1;")).
    + apply (bool_decide_unpack _). vm_compute. exact I.
    + reflexivity.
    + vm_compute. reflexivity.
Defined.

(** The inline scene script of the sample site is the entry [e1.js] of
    the document in scenes/icehockey; its import of the shared module is
    resolved against that directory, the import made by foo.js against
    the directory of foo.js. *)
Lemma relative_resolution_base_witness :
  loader (Compiler:=Sample.compiler) "/site/src/shared.js"
    = Normal (Some (mkLoaderOut "export const shared = 1;")) ∧
  compiled (resolveId (H:=Sample.path) (H0:=Sample.compiler) Sample.registry
              "../../src/shared.js" (Some "e1.js") emptyPlugin).2
    = ["/site/src/shared.js"] ∧
  (resolveId (H:=Sample.path) (H0:=Sample.compiler) Sample.registry
     "../../src/shared.js" (Some "e1.js") emptyPlugin).1
    = Normal (Some "/site/src/shared.js") ∧
  compiled (resolveId (H:=Sample.path) (H0:=Sample.compiler) Sample.registry
              "./src/shared.js" (Some "/site/foo.js") emptyPlugin).2
    = ["/site/src/shared.js"] ∧
  (resolveId (H:=Sample.path) (H0:=Sample.compiler) Sample.registry
     "./src/shared.js" (Some "/site/foo.js") emptyPlugin).1
    = Normal (Some "/site/src/shared.js").
Proof.
  assert (loader (Compiler:=Sample.compiler) "/site/src/shared.js"
    = Normal (Some (mkLoaderOut "export const shared = 1;"))) as Hloader
    by reflexivity.
  destruct (relative_resolution_base (H:=Sample.path) (H0:=Sample.compiler)
              Sample.registry "../../src/shared.js" "e1.js" emptyPlugin)
    as [Hhanded Hid].
  destruct (relative_resolution_base (H:=Sample.path) (H0:=Sample.compiler)
              Sample.registry "./src/shared.js" "/site/foo.js" emptyPlugin)
    as [Hhanded' Hid'].
  split; [exact Hloader|]. split; [exact Hhanded|].
  split; [exact (Hid _ Hloader)|]. split; [exact Hhanded'|].
  exact (Hid' _ Hloader).
Defined.

(** A bare package import is not compiled: the resolver returns
    [undefined] and the cache stays as it is. The shared module is
    compiled and cached. *)
Lemma loader_result_decides_witness :
  loader (Compiler:=Sample.compiler)
    (resolvedPath (H:=Sample.path) Sample.registry "lit-element" "/site/src/shared.js")
    = Normal None ∧
  ((resolveId (H:=Sample.path) (H0:=Sample.compiler) Sample.registry
      "lit-element" (Some "/site/src/shared.js") emptyPlugin).1 = Normal None ∧
   virtualCache (resolveId (H:=Sample.path) (H0:=Sample.compiler) Sample.registry
                   "lit-element" (Some "/site/src/shared.js") emptyPlugin).2 = ∅) ∧
  loader (Compiler:=Sample.compiler)
    (resolvedPath (H:=Sample.path) Sample.registry "../../src/shared.js" "e1.js")
    = Normal (Some (mkLoaderOut "export const shared = 1;")) ∧
  ((resolveId (H:=Sample.path) (H0:=Sample.compiler) Sample.registry
      "../../src/shared.js" (Some "e1.js") emptyPlugin).1
     = Normal (Some "/site/src/shared.js") ∧
   virtualCache (resolveId (H:=Sample.path) (H0:=Sample.compiler) Sample.registry
                   "../../src/shared.js" (Some "e1.js") emptyPlugin).2
     = <["/site/src/shared.js" := "export const shared = 1;"]> ∅ ∧
   load "/site/src/shared.js"
        (resolveId (H:=Sample.path) (H0:=Sample.compiler) Sample.registry
           "../../src/shared.js" (Some "e1.js") emptyPlugin).2
     = Some (CachedText "export const shared = 1;")).
Proof.
  assert (loader (Compiler:=Sample.compiler)
    (resolvedPath (H:=Sample.path) Sample.registry "lit-element" "/site/src/shared.js")
    = Normal None) as Hnone by reflexivity.
  assert (loader (Compiler:=Sample.compiler)
    (resolvedPath (H:=Sample.path) Sample.registry "../../src/shared.js" "e1.js")
    = Normal (Some (mkLoaderOut "export const shared = 1;"))) as Hsome
    by reflexivity.
  split; [exact Hnone|]. split.
  - exact (loader_result_decides (H:=Sample.path) (H0:=Sample.compiler)
             Sample.registry "lit-element" "/site/src/shared.js" emptyPlugin
             None Hnone).
  - split; [exact Hsome|].
    exact (loader_result_decides (H:=Sample.path) (H0:=Sample.compiler)
             Sample.registry "../../src/shared.js" "e1.js" emptyPlugin
             (Some (mkLoaderOut "export const shared = 1;")) Hsome).
Defined.

(** Root resolution of the sample entries, and of an identifier that is
    no entry. *)
Example sample_root_resolution :
  resolveId (H:=Sample.path) (H0:=Sample.compiler) Sample.registry
      "e0.js" None emptyPlugin
    = (Normal (Some "e0.js"), mkPlugin (<["e0.js" := "import './foo.js';"]> ∅) []) ∧
  resolveId (H:=Sample.path) (H0:=Sample.compiler) Sample.registry
      "./foo.js" None emptyPlugin
    = (Throw (TypeError "Cannot read property 'code' of undefined"), emptyPlugin).
Proof. split; reflexivity. Qed.

Lemma inline_module_is_decoded_witness :
  (∃ pre suf, Sample.inlineId = pre +:+ inlineMarker +:+ suf) ∧
  ∃ pre suf,
    Sample.inlineId = pre +:+ inlineMarker +:+ suf ∧
    indexOf Sample.inlineId inlineMarker = Some (String.length pre) ∧
    (∀ pre' suf', Sample.inlineId = pre' +:+ inlineMarker +:+ suf' →
                  String.length pre ≤ String.length pre') ∧
    virtualModuleContent (H:=Sample.path) (H0:=Sample.sceneTools) Sample.inlineId None
      = (Normal (ContentText (base64_toString (SceneTools:=Sample.sceneTools) suf)), []).
Proof.
  assert (∃ pre suf, Sample.inlineId = pre +:+ inlineMarker +:+ suf) as Hmarker
    by (exists "scene", "Y29uc29sZS5sb2coMSk7"; reflexivity).
  split; [exact Hmarker|].
  exact (inline_module_is_decoded (H:=Sample.path) (H0:=Sample.sceneTools)
           Sample.inlineId Hmarker).
Defined.

Example sample_inline_module :
  virtualModuleContent (H:=Sample.path) (H0:=Sample.sceneTools) Sample.inlineId None
    = (Normal (ContentText "console.log(1);"), []).
Proof. vm_compute. reflexivity. Qed.

(** Without the marker the other rules apply: a relative import from a
    scene stops at the unbound [matchSceneMin], a bare import is no file
    of the site. *)
Example sample_scene_module :
  virtualModuleContent (H:=Sample.path) (H0:=Sample.sceneTools)
      "./icehockey.min.js" (Some "/site/scenes/icehockey/index.js")
    = (Throw (ReferenceError "matchSceneMin is not defined"), []) ∧
  virtualModuleContent (H:=Sample.path) (H0:=Sample.sceneTools)
      "lit-element" (Some "/site/scenes/icehockey/index.js")
    = (Normal ContentUndefined, []).
Proof. split; vm_compute; reflexivity. Qed.

Example sample_msg :
  Magic._msg Sample.messages <$>
    ["santatracker"; "countdown"; "empty"; "nothing"; "constructor"; "unknown"]
  = Normal <$>
      [ Magic.VJson (Magic.JString "Santa Tracker");
        Magic.VJson (Magic.JString "<b>Countdown</b>");
        Magic.VJson (Magic.JString "?");
        Magic.VJson (Magic.JString "?");
        Magic.VJson (Magic.JString "?");
        Magic.VJson (Magic.JString "?") ].
Proof. vm_compute. reflexivity. Qed.

(** A message id named like a member of [Object.prototype] makes the
    callback throw: the build ends before anything is written. *)
Example sample_constructor_msgid :
  recordMissing (<["scene_icehockey" := ["fr"]]> ∅) "fr" "constructor"
    = Throw (TypeError "missingMessages[msgid].add is not a function") ∧
  (main (H:=Sample.path) (H0:=Sample.catalogsWithConstructor) (H1:=Sample.site)
     (H2:=Sample.compiler) (H3:=Sample.bundler) Sample.yargs).1 = 1 ∧
  files (main (H:=Sample.path) (H0:=Sample.catalogsWithConstructor) (H1:=Sample.site)
     (H2:=Sample.compiler) (H3:=Sample.bundler) Sample.yargs).2 = [].
Proof. split_and!; vm_compute; reflexivity. Qed.

(** The sample build without [--default-only]: every document is fanned
    out to the three languages, and the summary divides by three. *)
Example sample_full_build :
  (main (H:=Sample.path) (H0:=Sample.catalogs) (H1:=Sample.site)
     (H2:=Sample.compiler) (H3:=Sample.bundler) Sample.yargs).1 = 0 ∧
  (files (main (H:=Sample.path) (H0:=Sample.catalogs) (H1:=Sample.site)
     (H2:=Sample.compiler) (H3:=Sample.bundler) Sample.yargs).2).*1
    = [ "dist/prod/cast.html"; "dist/prod/intl/fr_ALL/cast.html";
        "dist/prod/intl/de_ALL/cast.html";
        "dist/prod/index.html"; "dist/prod/intl/fr_ALL/index.html";
        "dist/prod/intl/de_ALL/index.html";
        "dist/prod/icehockey.html"; "dist/prod/intl/fr_ALL/icehockey.html";
        "dist/prod/intl/de_ALL/icehockey.html";
        "dist/prod/snowball.html"; "dist/prod/intl/fr_ALL/snowball.html";
        "dist/prod/intl/de_ALL/snowball.html";
        "dist/prod/manifest.json"; "dist/prod/intl/fr_ALL/manifest.json";
        "dist/prod/intl/de_ALL/manifest.json";
        "dist/static/src/e0.js"; "dist/static/src/e1.js"; "dist/static/src/e2.js";
        "dist/static/src/e3.js"; "dist/static/src/c0f3.js";
        "dist/static/src/_e0.js"; "dist/static/src/_e1.js"; "dist/static/src/_e2.js";
        "dist/static/src/_e3.js" ] ∧
  (missingRatio ["fr"; "de"] (i18n_langs (Catalogs:=Sample.catalogs)) == 200 # 3)%Q.
Proof. split_and!; vm_compute; reflexivity. Qed.

(** * Further properties of release.js *)

(** ** Output directories *)

Lemma pathForLang_default (yargs : Yargs) (lang : string) :
  pathForLang yargs lang = "." ↔ lang = defaultLang yargs.
Proof.
  unfold pathForLang. destruct (String.eqb_spec lang (defaultLang yargs)) as [->|Hne].
  - done.
  - split; [|done]. intros Heq.
    change ("intl/" +:+ lang +:+ "_ALL") with (String "i" ("ntl/" +:+ lang +:+ "_ALL")) in Heq.
    discriminate.
Qed.

(** X1: [pathForLang] gives two languages the same directory name only
    when they are the same language. The name is what [release] hands to
    [path.join], which normalises it; what becomes of it there is not part
    of this. *)
Theorem pathForLang_inj (yargs : Yargs) (a b : string) :
  pathForLang yargs a = pathForLang yargs b → a = b.
Proof.
  intros Heq.
  destruct (decide (a = defaultLang yargs)) as [Ha|Ha];
    destruct (decide (b = defaultLang yargs)) as [Hb|Hb].
  - congruence.
  - apply pathForLang_default in Ha. rewrite Ha in Heq.
    symmetry in Heq. by apply pathForLang_default in Heq.
  - apply pathForLang_default in Hb. rewrite Hb in Heq.
    by apply pathForLang_default in Heq.
  - unfold pathForLang in Heq.
    destruct (String.eqb_spec a (defaultLang yargs)); [done|].
    destruct (String.eqb_spec b (defaultLang yargs)); [done|].
    change ("intl/" +:+ a +:+ "_ALL" = "intl/" +:+ b +:+ "_ALL") in Heq.
    apply String.app_inj in Heq. by apply append_inj_r in Heq.
Qed.

Lemma pathForLang_inj_witness :
  pathForLang Sample.yargs "fr" = pathForLang Sample.yargs "fr" ∧ "fr" = "fr".
Proof.
  split; [reflexivity|].
  exact (pathForLang_inj Sample.yargs "fr" "fr" eq_refl).
Defined.

(** ** The language table after loading *)

(** X2: a completed catalog load has passed the guard
    [yargs.defaultLang in langs]: the default language is a loaded one or
    its code is a name inherited from [Object.prototype]. A loaded default
    language is among the languages left; every language left is one that
    was loaded; under [--default-only] no language but the default one is
    left, and none at all when the default language was not loaded;
    without the flag the table is as loaded. *)
Theorem loadCatalogs_langs `{Catalogs} (yargs : Yargs) (w w' : World)
    (ledger : gmap string (list string)) (langs : list (string * Messages)) :
  loadCatalogs yargs w = (Normal (ledger, langs), w') →
  (defaultLang yargs ∈ Map_keys i18n_langs ∨ inherited (defaultLang yargs) = true) ∧
  (defaultLang yargs ∈ Map_keys i18n_langs → defaultLang yargs ∈ Map_keys langs) ∧
  langs ⊆ i18n_langs ∧
  (defaultOnly yargs = true → Forall (λ p, p.1 = defaultLang yargs) langs) ∧
  (defaultOnly yargs = true → defaultLang yargs ∉ Map_keys i18n_langs → langs = []) ∧
  (defaultOnly yargs = false → langs = i18n_langs) ∧
  console w' = console w ++ [LogFoundLangs (length langs)].
Proof.
  unfold loadCatalogs, i18n_all. build_step.
  destruct (i18n_invoke recordMissing i18n_absent ∅) as [mm|e]; [|done].
  destruct (key_in i18n_langs (defaultLang yargs)) eqn:Hd; simpl; [|done].
  apply key_in_true in Hd.
  intros [= <- <- <-]. simpl.
  destruct (defaultOnly yargs); split_and!; try done.
  - intros Hin. unfold Map_keys in *.
    apply list_elem_of_fmap in Hin as ([l m] & -> & Hin).
    apply list_elem_of_fmap. exists (l, m). split; [done|].
    by apply list_elem_of_filter.
  - intros p Hp. by apply list_elem_of_filter in Hp as [_ ?].
  - intros _. apply Forall_forall. intros p Hp.
    by apply list_elem_of_filter in Hp as [? _].
  - intros _ Hnot. by apply filter_lang_absent.
Qed.

Lemma loadCatalogs_langs_witness :
  loadCatalogs (H:=Sample.catalogs) Sample.yargsDefaultOnly emptyWorld
    = (Normal (<["santatracker" := ["de"]]> (<["scene_icehockey" := ["fr"; "de"]]> ∅),
               [("en", Sample.english)]),
       mkWorld [] [] [] [LogFoundLangs 1]) ∧
  "en" ∈ Map_keys [("en", Sample.english)] ∧
  [("en", Sample.english)] ⊆ i18n_langs (Catalogs:=Sample.catalogs).
Proof.
  assert (loadCatalogs (H:=Sample.catalogs) Sample.yargsDefaultOnly emptyWorld
    = (Normal (<["santatracker" := ["de"]]> (<["scene_icehockey" := ["fr"; "de"]]> ∅),
               [("en", Sample.english)]),
       mkWorld [] [] [] [LogFoundLangs 1])) as Hload by (vm_compute; reflexivity).
  destruct (loadCatalogs_langs (H:=Sample.catalogs) _ _ _ _ _ Hload)
    as (_ & Hdefault & Hsub & _).
  split; [exact Hload|]. split; [|exact Hsub].
  apply Hdefault. apply (bool_decide_unpack _). vm_compute. exact I.
Defined.

(** ** The ledger, exactly *)

Lemma recordMissing_nonempty (mm mm' : gmap string (list string)) (lang msgid : string) :
  recordMissing mm lang msgid = Normal mm' →
  (∀ m ls, mm !! m = Some ls → ls ≠ []) →
  ∀ m ls, mm' !! m = Some ls → ls ≠ [].
Proof.
  intros Hcb Hne m ls.
  destruct (recordMissing_cases mm lang msgid)
    as [(ls0 & Hm & Heq)|[(Hm & Hi & Heq)|(Hm & Hi & e & Heq)]];
    rewrite Heq in Hcb; [| |done]; injection Hcb as <-.
  - destruct (decide (m = msgid)) as [->|Hneq].
    + rewrite lookup_insert_eq. intros [= <-] Hnil.
      pose proof (Set_add_elem ls0 lang) as Hin. rewrite Hnil in Hin.
      by apply elem_of_nil in Hin.
    + rewrite lookup_insert_ne by done. eauto.
  - destruct (decide (m = msgid)) as [->|Hneq].
    + rewrite lookup_insert_eq. intros [= <-]. done.
    + rewrite !lookup_insert_ne by done. eauto.
Qed.

Lemma i18n_invoke_nonempty (absent : list (string * string)) :
  ∀ mm mm' : gmap string (list string),
    i18n_invoke recordMissing absent mm = Normal mm' →
    (∀ m ls, mm !! m = Some ls → ls ≠ []) →
    ∀ m ls, mm' !! m = Some ls → ls ≠ [].
Proof.
  induction absent as [|[lang0 msgid0] rest IH]; intros mm mm'; simpl.
  - intros [= <-]. done.
  - destruct (recordMissing mm lang0 msgid0) as [mm1|e] eqn:Hcb; [|done].
    intros Hrest Hne. apply (IH _ _ Hrest).
    by apply (recordMissing_nonempty _ _ _ _ Hcb).
Qed.

(** X3: The ledger of a completed load holds nothing but what was reported:
    under every key there is a non-empty set, it lists no language twice,
    and each language in it was reported absent for that message id. So
    [size] counts the languages that miss the message. *)
Theorem ledger_holds_only_reports `{Catalogs} (yargs : Yargs) (w w' : World)
    (ledger : gmap string (list string)) (langs : list (string * Messages))
    (msgid : string) (missingLangs : list string) :
  loadCatalogs yargs w = (Normal (ledger, langs), w') →
  ledger !! msgid = Some missingLangs →
  missingLangs ≠ [] ∧ NoDup missingLangs ∧
  ∀ lang, lang ∈ missingLangs → (lang, msgid) ∈ i18n_absent.
Proof.
  intros (Hledger & _)%loadCatalogs_ledger Hm. split_and!.
  - by apply (i18n_invoke_nonempty _ _ _ Hledger) with msgid.
  - by apply (i18n_invoke_NoDup _ _ _ Hledger) with msgid.
  - intros lang Hl.
    destruct (i18n_invoke_sound _ _ _ Hledger msgid missingLangs lang Hm Hl)
      as [?|(ls0 & Hempty & _)]; [done|].
    by rewrite lookup_empty in Hempty.
Qed.

Lemma ledger_holds_only_reports_witness :
  loadCatalogs (H:=Sample.catalogs) Sample.yargs emptyWorld
    = (Normal (<["santatracker" := ["de"]]> (<["scene_icehockey" := ["fr"; "de"]]> ∅),
               i18n_langs (Catalogs:=Sample.catalogs)),
       mkWorld [] [] [] [LogFoundLangs 3]) ∧
  (<["santatracker" := ["de"]]> (<["scene_icehockey" := ["fr"; "de"]]> ∅)
     : gmap string (list string)) !! "scene_icehockey" = Some ["fr"; "de"] ∧
  ["fr"; "de"] ≠ [] ∧ NoDup ["fr"; "de"] ∧
  ∀ lang, lang ∈ ["fr"; "de"] →
          (lang, "scene_icehockey") ∈ i18n_absent (Catalogs:=Sample.catalogs).
Proof.
  assert (loadCatalogs (H:=Sample.catalogs) Sample.yargs emptyWorld
    = (Normal (<["santatracker" := ["de"]]> (<["scene_icehockey" := ["fr"; "de"]]> ∅),
               i18n_langs (Catalogs:=Sample.catalogs)),
       mkWorld [] [] [] [LogFoundLangs 3])) as Hload by (vm_compute; reflexivity).
  assert ((<["santatracker" := ["de"]]> (<["scene_icehockey" := ["fr"; "de"]]> ∅)
     : gmap string (list string)) !! "scene_icehockey" = Some ["fr"; "de"]) as Hm
    by (vm_compute; reflexivity).
  split; [exact Hload|]. split; [exact Hm|].
  exact (ledger_holds_only_reports (H:=Sample.catalogs) _ _ _ _ _ _ _ Hload Hm).
Defined.

(** The keys of a ledger under construction are never names inherited
    from [Object.prototype]. *)
Lemma recordMissing_keys (mm mm' : gmap string (list string)) (lang msgid : string) :
  recordMissing mm lang msgid = Normal mm' →
  (∀ m, is_Some (mm !! m) → inherited m = false) →
  ∀ m, is_Some (mm' !! m) → inherited m = false.
Proof.
  intros Hcb Hkeys m.
  destruct (recordMissing_cases mm lang msgid)
    as [(ls0 & Hm & Heq)|[(Hm & Hi & Heq)|(Hm & Hi & e & Heq)]];
    rewrite Heq in Hcb; [| |done]; injection Hcb as <-.
  - destruct (decide (m = msgid)) as [->|Hneq].
    + intros _. apply Hkeys. eauto.
    + rewrite lookup_insert_ne by done. apply Hkeys.
  - destruct (decide (m = msgid)) as [->|Hneq]; [done|].
    rewrite !lookup_insert_ne by done. apply Hkeys.
Qed.

Lemma i18n_invoke_throws (absent : list (string * string)) :
  ∀ mm : gmap string (list string),
    (∀ m, is_Some (mm !! m) → inherited m = false) →
    (∃ lang msgid, (lang, msgid) ∈ absent ∧ inherited msgid = true) →
    is_normal (i18n_invoke recordMissing absent mm) = false.
Proof.
  induction absent as [|[lang0 msgid0] rest IH]; intros mm Hkeys; simpl.
  - intros (lang & msgid & Hin & _). by apply elem_of_nil in Hin.
  - intros (lang & msgid & Hin & Hi).
    destruct (recordMissing mm lang0 msgid0) as [mm1|e] eqn:Hcb; [|done].
    apply IH.
    + by apply (recordMissing_keys _ _ _ _ Hcb).
    + apply elem_of_cons in Hin as [[= -> ->]|Hin]; [|by eauto].
      exfalso.
      assert (is_normal (recordMissing mm lang0 msgid0) = false) as Hn.
      { apply recordMissing_throws. split; [|done].
        destruct (mm !! msgid0) as [ls|] eqn:Hm; [|done].
        rewrite (Hkeys msgid0) in Hi by eauto. done. }
      by rewrite Hcb in Hn.
Qed.

(** X4: Catalog loading gets past its callback exactly when no reported
    message id is named like a member of [Object.prototype]: one such id,
    whichever language misses it, makes the callback throw. *)
Theorem catalog_callback_completes_iff (absent : list (string * string)) :
  is_normal (i18n_invoke recordMissing absent ∅) = true ↔
  ∀ lang msgid, (lang, msgid) ∈ absent → inherited msgid = false.
Proof.
  split.
  - intros Hn lang msgid Hin. destruct (inherited msgid) eqn:Hi; [|done].
    rewrite i18n_invoke_throws in Hn; [done| |by eauto].
    intros m [? Hm]. by rewrite lookup_empty in Hm.
  - intros Hok. by destruct (i18n_invoke_completes absent ∅ Hok) as [mm' ->].
Qed.

Lemma catalog_callback_completes_iff_witness :
  (∀ lang msgid, (lang, msgid) ∈ i18n_absent (Catalogs:=Sample.catalogs) →
                 inherited msgid = false) ∧
  is_normal (i18n_invoke recordMissing (i18n_absent (Catalogs:=Sample.catalogs)) ∅) = true.
Proof.
  assert (∀ lang msgid, (lang, msgid) ∈ i18n_absent (Catalogs:=Sample.catalogs) →
                        inherited msgid = false) as Hnames.
  { intros lang msgid Hin. simpl in Hin.
    repeat (apply elem_of_cons in Hin as [[= -> ->]|Hin]; [reflexivity|]).
    by apply elem_of_nil in Hin. }
  split; [exact Hnames|].
  exact (proj2 (catalog_callback_completes_iff
                  (i18n_absent (Catalogs:=Sample.catalogs))) Hnames).
Defined.

(** ** The ratio of the summary *)

Lemma ratio_bounds (n N : nat) :
  1 ≤ n → n ≤ N →
  (0 < inject_Z (Z.of_nat n) / inject_Z (Z.of_nat N) * 100 ∧
   inject_Z (Z.of_nat n) / inject_Z (Z.of_nat N) * 100 <= 100)%Q.
Proof.
  intros Hn HN. destruct N as [|N]; [lia|].
  unfold Qlt, Qle, Qdiv, Qmult, Qinv, inject_Z. simpl.
  split; lia.
Qed.

(** X5: without [--default-only], and with a catalog collaborator that
    reports absences for loaded languages only, the quotient the summary
    computes for a message id, the size of its set over the number of
    languages times a hundred, is above 0 and at most 100. This is the
    quotient taken exactly, before [toFixed] rounds it for printing. *)
Theorem missing_ratio_is_a_percentage `{Catalogs} (yargs : Yargs) (w w' : World)
    (ledger : gmap string (list string)) (langs : list (string * Messages))
    (msgid : string) (missingLangs : list string) :
  loadCatalogs yargs w = (Normal (ledger, langs), w') →
  defaultOnly yargs = false →
  (∀ lang msgid, (lang, msgid) ∈ i18n_absent → lang ∈ Map_keys i18n_langs) →
  ledger !! msgid = Some missingLangs →
  (0 < missingRatio missingLangs langs ∧ missingRatio missingLangs langs <= 100)%Q.
Proof.
  intros Hload Hflag Hloaded Hm.
  pose proof Hload as (Hledger & _ & -> & _)%loadCatalogs_ledger.
  rewrite Hflag. unfold missingRatio. apply ratio_bounds.
  - pose proof (i18n_invoke_nonempty _ _ _ Hledger) as Hne.
    destruct missingLangs; [|simpl; lia].
    exfalso. eapply Hne; [|exact Hm|done].
    intros m ls Hempty. by rewrite lookup_empty in Hempty.
  - rewrite <- (length_fmap fst i18n_langs). apply submseteq_length.
    apply NoDup_submseteq.
    + apply (i18n_invoke_NoDup _ _ _ Hledger) with msgid; [|done].
      intros m ls Hempty. by rewrite lookup_empty in Hempty.
    + intros lang Hl. apply (Hloaded lang msgid).
      destruct (i18n_invoke_sound _ _ _ Hledger msgid missingLangs lang Hm Hl)
        as [?|(ls0 & Hempty & _)]; [done|].
      by rewrite lookup_empty in Hempty.
Qed.

Lemma missing_ratio_is_a_percentage_witness :
  loadCatalogs (H:=Sample.catalogs) Sample.yargs emptyWorld
    = (Normal (<["santatracker" := ["de"]]> (<["scene_icehockey" := ["fr"; "de"]]> ∅),
               i18n_langs (Catalogs:=Sample.catalogs)),
       mkWorld [] [] [] [LogFoundLangs 3]) ∧
  defaultOnly Sample.yargs = false ∧
  (∀ lang msgid, (lang, msgid) ∈ i18n_absent (Catalogs:=Sample.catalogs) →
                 lang ∈ Map_keys (i18n_langs (Catalogs:=Sample.catalogs))) ∧
  (0 < missingRatio ["fr"; "de"] (i18n_langs (Catalogs:=Sample.catalogs)) ∧
   missingRatio ["fr"; "de"] (i18n_langs (Catalogs:=Sample.catalogs)) <= 100)%Q.
Proof.
  assert (loadCatalogs (H:=Sample.catalogs) Sample.yargs emptyWorld
    = (Normal (<["santatracker" := ["de"]]> (<["scene_icehockey" := ["fr"; "de"]]> ∅),
               i18n_langs (Catalogs:=Sample.catalogs)),
       mkWorld [] [] [] [LogFoundLangs 3])) as Hload by (vm_compute; reflexivity).
  assert (∀ lang msgid, (lang, msgid) ∈ i18n_absent (Catalogs:=Sample.catalogs) →
            lang ∈ Map_keys (i18n_langs (Catalogs:=Sample.catalogs))) as Hloaded.
  { intros lang msgid Hin. simpl in Hin.
    repeat (apply elem_of_cons in Hin as [[= -> ->]|Hin];
            [apply (bool_decide_unpack _); vm_compute; exact I|]).
    by apply elem_of_nil in Hin. }
  split; [exact Hload|]. split; [reflexivity|]. split; [exact Hloaded|].
  exact (missing_ratio_is_a_percentage (H:=Sample.catalogs) Sample.yargs _ _ _ _
           "scene_icehockey" ["fr"; "de"] Hload eq_refl Hloaded eq_refl).
Defined.

(** ** The stages of a build, as changes of the world *)

Lemma grow_grow (w : World) d c f l d' c' f' l' :
  grow (grow w d c f l) d' c' f' l'
    = grow w (d ++ d') (c ++ c') (f ++ f') (l ++ l').
Proof. unfold grow. simpl. by rewrite !app_assoc. Qed.

Lemma grow_nil (w : World) : grow w [] [] [] [] = w.
Proof. destruct w. unfold grow. simpl. by rewrite !app_nil_r. Qed.

Lemma bind_normal {A B} (m : Build A) (f : A → Build B) (w w' : World) (a : A) :
  m w = (Normal a, w') → (m ≫= f) w = f a w'.
Proof. intros Hm. unfold mbind, Build_bind. by rewrite Hm. Qed.

Lemma bind_throw {A B} (m : Build A) (f : A → Build B) (w w' : World) (e : error) :
  m w = (Throw e, w') → (m ≫= f) w = (Throw e, w').
Proof. intros Hm. unfold mbind, Build_bind. by rewrite Hm. Qed.

Lemma log_run (l : LogLine) (w : World) :
  log l w = (Normal (), grow w [] [] [] [l]).
Proof. unfold log, grow. by rewrite !app_nil_r. Qed.

Lemma fsp_mkdirp_run (d : string) (w : World) :
  fsp_mkdirp d w = (Normal (), grow w [d] [] [] []).
Proof. unfold fsp_mkdirp, grow. by rewrite !app_nil_r. Qed.

Section stages.
Context `{Path}.

Lemma write_run (target content : string) (w : World) :
  write target content w
    = (Normal (), grow w [path_dirname target] [] [(target, content)] []).
Proof. unfold write, grow. build_step. by rewrite !app_nil_r. Qed.

Lemma copy_run (src dst : string) (w : World) :
  copy src dst w = (Normal (), grow w [path_dirname dst] [(src, dst)] [] []).
Proof. unfold copy, grow. build_step. by rewrite !app_nil_r. Qed.

Lemma releaseAll_run (all : list string) (w : World) :
  releaseAll all w
    = (Normal (),
       grow w ((λ p, path_dirname (path_join ["dist"; p])) <$> all)
              ((λ p, (p, path_join ["dist"; p])) <$> all) [] []).
Proof.
  unfold releaseAll. revert w. induction all as [|p all IH]; intros w; simpl.
  - by rewrite grow_nil.
  - rewrite (bind_normal _ _ _ _ _ (copy_run _ _ w)), IH, grow_grow. done.
Qed.

(** A loop that writes one file per element and counts. *)
Lemma count_writes {A} (target content : A → string) (l : list A) :
  ∀ (count : nat) (w : World),
    foldM (λ count x, write (target x) (content x) ;; mret (S count)) l count w
      = (Normal (count + length l),
         grow w (dirsOf ((λ x, (target x, content x)) <$> l)) []
                ((λ x, (target x, content x)) <$> l) []).
Proof.
  unfold dirsOf. induction l as [|x l IH]; intros count w; simpl.
  - by rewrite grow_nil, Nat.add_0_r.
  - erewrite bind_normal; last first.
    { erewrite bind_normal by apply write_run. reflexivity. }
    rewrite IH, grow_grow. do 2 f_equal. lia.
Qed.

Lemma fanoutLangs_run (yargs : Yargs) (langs : list (string * Messages))
    (filename : string) (documentForLang : Messages → string)
    (count : nat) (w : World) :
  fanoutLangs yargs langs filename documentForLang count w
    = (Normal (count + length langs),
       grow w (dirsOf (langDocs yargs langs filename documentForLang)) []
              (langDocs yargs langs filename documentForLang) []).
Proof. unfold fanoutLangs, langDocs. apply count_writes. Qed.

(** A loop that writes one file per element. *)
Lemma each_writes {A} (target content : A → string) (l : list A) (w : World) :
  forEach l (λ x, write (target x) (content x)) w
    = (Normal (),
       grow w (dirsOf ((λ x, (target x, content x)) <$> l)) []
              ((λ x, (target x, content x)) <$> l) []).
Proof.
  unfold dirsOf. revert w. induction l as [|x l IH]; intros w; simpl.
  - by rewrite grow_nil.
  - rewrite (bind_normal _ _ _ _ _ (write_run _ _ w)), IH, grow_grow. done.
Qed.

End stages.

(** ** Document fanout *)

Section fanout.
Context `{Path, Site}.

Lemma length_langDocs (yargs : Yargs) (langs : list (string * Messages))
    (filename : string) (documentForLang : Messages → string) :
  length (langDocs yargs langs filename documentForLang) = length langs.
Proof. unfold langDocs. apply length_fmap. Qed.

(** A loop over pages or scenes, each fanned out to the languages. *)
Lemma fanout_loop {A} (yargs : Yargs) (langs : list (string * Messages))
    (filename : A → string) (documentForLang : A → Messages → string)
    (l : list A) :
  ∀ (count : nat) (w : World),
    foldM (λ count x, fanoutLangs yargs langs (filename x) (documentForLang x) count)
          l count w
      = (Normal (count + length l * length langs),
         grow w (dirsOf (l ≫= λ x, langDocs yargs langs (filename x) (documentForLang x)))
                []
                (l ≫= λ x, langDocs yargs langs (filename x) (documentForLang x))
                []).
Proof.
  induction l as [|x l IH]; intros count w; simpl.
  - by rewrite grow_nil, Nat.add_0_r.
  - rewrite (bind_normal _ _ _ _ _ (fanoutLangs_run _ _ _ _ _ w)), IH, grow_grow.
    unfold dirsOf. rewrite fmap_app. do 2 f_equal. lia.
Qed.

Lemma length_fanout_docs {A} (yargs : Yargs) (langs : list (string * Messages))
    (filename : A → string) (documentForLang : A → Messages → string)
    (l : list A) :
  length (l ≫= λ x, langDocs yargs langs (filename x) (documentForLang x))
    = length l * length langs.
Proof.
  induction l as [|x l IH]; [done|].
  rewrite bind_cons, length_app, length_langDocs, IH. simpl. done.
Qed.

Lemma fanoutPages_run (yargs : Yargs) (staticPath : string)
    (langs : list (string * Messages)) (count : nat) (w : World) :
  fanoutPages yargs staticPath langs count w
    = (Normal (count + length glob_prodOtherHtml * length langs),
       grow w (dirsOf (pageDocs yargs staticPath langs)) []
              (pageDocs yargs staticPath langs) []).
Proof.
  unfold fanoutPages, pageDocs.
  apply (fanout_loop yargs langs path_basename
           (λ htmlFile, releaseHtml_prod htmlFile (mkDocEdit staticPath None None None))).
Qed.

Lemma fanoutScenes_run (yargs : Yargs) (staticPath : string)
    (langs : list (string * Messages)) (count : nat) (w : World) :
  fanoutScenes yargs staticPath langs count w
    = (Normal (count + length scenes * length langs),
       grow w (dirsOf (sceneDocs yargs staticPath langs)) []
              (sceneDocs yargs staticPath langs) []).
Proof.
  unfold fanoutScenes, sceneDocs.
  apply (fanout_loop yargs langs
           (λ scene, if String.eqb scene.1 "" then "index.html" else scene.1 +:+ ".html")
           (λ scene, releaseHtml_prod "prod/index.html"
                       (sceneEdit yargs staticPath scene.1 scene.2))).
Qed.

Lemma writeManifests_run (yargs : Yargs) (langs : list (string * Messages)) (w : World) :
  writeManifests yargs langs w
    = (Normal (), grow w (dirsOf (manifestDocs yargs langs)) []
                         (manifestDocs yargs langs) []).
Proof.
  unfold writeManifests, manifestDocs.
  apply (each_writes
           (λ p, path_join ["dist/prod"; pathForLang yargs p.1; "manifest.json"])
           (λ p, manifest_stringify (p.2 "santatracker"))).
Qed.

(** X6: The fanout never fails and writes one document for every pair of a
    page or scene and a language, pages first: the count it returns, which
    [release] logs as the number of prod HTML files written, is the number
    of files it has written, (pages + scenes) times languages. *)
Theorem fanout_writes_every_pair (yargs : Yargs) (staticPath : string)
    (langs : list (string * Messages)) (w : World) :
  ∃ w1 w2,
    fanoutPages yargs staticPath langs 0 w
      = (Normal (length glob_prodOtherHtml * length langs), w1) ∧
    fanoutScenes yargs staticPath langs (length glob_prodOtherHtml * length langs) w1
      = (Normal ((length glob_prodOtherHtml + length scenes) * length langs), w2) ∧
    files w2 = files w ++ pageDocs yargs staticPath langs
                       ++ sceneDocs yargs staticPath langs ∧
    length (pageDocs yargs staticPath langs ++ sceneDocs yargs staticPath langs)
      = (length glob_prodOtherHtml + length scenes) * length langs ∧
    copies w2 = copies w ∧ console w2 = console w.
Proof.
  eexists _, _. split_and!.
  - apply fanoutPages_run.
  - rewrite fanoutScenes_run. do 2 f_equal. lia.
  - simpl. by rewrite <- app_assoc.
  - unfold pageDocs, sceneDocs. rewrite length_app, !length_fanout_docs. lia.
  - simpl. by rewrite !app_nil_r.
  - simpl. by rewrite !app_nil_r.
Qed.

End fanout.

(** ** The bundle stage *)

Section bundle.
Context `{Path, Bundler}.
Implicit Types (reg : list (string * EntryPoint)).

Lemma relinkEntry_known reg (chunk : string * (bool * string))
    (docs : list (string * list ScriptNode)) (w : World) :
  entryKnown reg chunk = true →
  relinkEntry reg chunk.1 chunk.2.1 docs w = (Normal (relink reg docs chunk), w).
Proof.
  unfold entryKnown, relinkEntry, relink. destruct chunk as [f [[] c]]; simpl; [|done].
  intros [data Hdata]%bool_decide_eq_true_1. by rewrite Hdata.
Qed.

Lemma relinkEntry_unknown reg (chunk : string * (bool * string))
    (docs : list (string * list ScriptNode)) (w : World) :
  entryKnown reg chunk = false →
  ∃ msg, relinkEntry reg chunk.1 chunk.2.1 docs w = (Throw (TypeError msg), w).
Proof.
  unfold entryKnown, relinkEntry. destruct chunk as [f [[] c]]; simpl; [|done].
  intros Hk. destruct (Map_get reg f) as [data|] eqn:Hdata; [|by eauto].
  rewrite bool_decide_true in Hk by eauto. done.
Qed.

Lemma writeModule_known reg (acc : list (string * list ScriptNode) * nat)
    (chunk : string * (bool * string)) (w : World) :
  entryKnown reg chunk = true →
  writeModule reg acc chunk w
    = (Normal (relink reg acc.1 chunk,
               acc.2 + String.length (transformES chunk.1 chunk.2.2)),
       grow w (dirsOf (moduleFiles [chunk])) [] (moduleFiles [chunk]) []).
Proof.
  intros Hk. unfold writeModule.
  rewrite (bind_normal _ _ _ _ _ (relinkEntry_known _ _ _ w Hk)).
  rewrite (bind_normal _ _ _ _ _ (write_run _ _ w)). done.
Qed.

Lemma writeModule_unknown reg (acc : list (string * list ScriptNode) * nat)
    (chunk : string * (bool * string)) (w : World) :
  entryKnown reg chunk = false →
  ∃ msg, writeModule reg acc chunk w = (Throw (TypeError msg), w).
Proof.
  intros Hk. unfold writeModule.
  destruct (relinkEntry_unknown reg chunk acc.1 w Hk) as [msg Hthrow].
  exists msg. by rewrite (bind_throw _ _ _ _ _ Hthrow).
Qed.

Lemma writeModules_loop reg (generated : list (string * (bool * string))) :
  ∀ (acc : list (string * list ScriptNode) * nat) (w : World),
    forallb (entryKnown reg) generated = true →
    foldM (writeModule reg) generated acc w
      = (Normal (foldl (relink reg) acc.1 generated, acc.2 + totalSize generated),
         grow w (dirsOf (moduleFiles generated)) [] (moduleFiles generated) []).
Proof.
  induction generated as [|chunk generated IH]; intros acc w; simpl.
  - intros _. rewrite grow_nil. unfold totalSize. simpl. rewrite Nat.add_0_r.
    by destruct acc.
  - intros [Hk Hrest]%andb_prop.
    rewrite (bind_normal _ _ _ _ _ (writeModule_known _ _ _ w Hk)).
    rewrite (IH _ _ Hrest), grow_grow. simpl. unfold totalSize. simpl.
    by rewrite Nat.add_assoc.
Qed.

Lemma writeModules_stops reg (before after : list (string * (bool * string)))
    (chunk : string * (bool * string)) :
  ∀ (acc : list (string * list ScriptNode) * nat) (w : World),
    forallb (entryKnown reg) before = true →
    entryKnown reg chunk = false →
    ∃ msg,
      foldM (writeModule reg) (before ++ chunk :: after) acc w
        = (Throw (TypeError msg),
           grow w (dirsOf (moduleFiles before)) [] (moduleFiles before) []).
Proof.
  induction before as [|c before IH]; intros acc w; simpl.
  - intros _ Hk. destruct (writeModule_unknown reg acc chunk w Hk) as [msg Hthrow].
    exists msg. by rewrite (bind_throw _ _ _ _ _ Hthrow), grow_nil.
  - intros [Hc Hrest]%andb_prop Hk.
    rewrite (bind_normal _ _ _ _ _ (writeModule_known _ _ _ w Hc)).
    destruct (IH (relink reg acc.1 c,
                  acc.2 + String.length (transformES c.1 c.2.2))
                 (grow w (dirsOf (moduleFiles [c])) [] (moduleFiles [c]) [])
                 Hrest Hk) as [msg Hthrow].
    exists msg. rewrite Hthrow, grow_grow. done.
Qed.

Lemma forallb_first_false {A} (f : A → bool) (l : list A) :
  forallb f l = false →
  ∃ before x after, l = before ++ x :: after ∧ forallb f before = true ∧ f x = false.
Proof.
  induction l as [|x l IH]; simpl; [done|].
  destruct (f x) eqn:Hx; simpl.
  - intros (before & y & after & -> & Hb & Hy)%IH.
    exists (x :: before), y, after. simpl. by rewrite Hx, Hb.
  - intros _. by exists [], x, l.
Qed.

(** X7: The loop over the generated chunks stops at the first entry chunk
    whose file name is no registered entry id: it throws a [TypeError],
    the ES module files of the chunks before it are written, and nothing
    is written for that chunk or any chunk after it. *)
Theorem writeModules_stops_at_unknown_entry reg
    (before after : list (string * (bool * string)))
    (filename code : string) (docs : list (string * list ScriptNode)) (w : World) :
  forallb (entryKnown reg) before = true →
  Map_get reg filename = None →
  ∃ msg w',
    writeModules reg (before ++ (filename, (true, code)) :: after) docs w
      = (Throw (TypeError msg), w') ∧
    files w' = files w ++ moduleFiles before ∧
    copies w' = copies w ∧ console w' = console w.
Proof.
  intros Hbefore Hnone. unfold writeModules.
  destruct (writeModules_stops reg before after (filename, (true, code)) (docs, 0) w
              Hbefore) as [msg Hthrow].
  { unfold entryKnown. simpl. rewrite Hnone.
    apply bool_decide_eq_false. by intros [? ?]. }
  exists msg. eexists. split; [exact Hthrow|]. simpl.
  by rewrite !app_nil_r.
Qed.

(** X8: When every entry chunk is registered, the loop writes the ES module
    code of every chunk, in order, under dist/static/src, and the total it
    returns is the length of what it wrote. *)
Theorem writeModules_writes_every_chunk reg
    (generated : list (string * (bool * string)))
    (docs : list (string * list ScriptNode)) (w : World) :
  forallb (entryKnown reg) generated = true →
  ∃ docs' w',
    writeModules reg generated docs w
      = (Normal (docs', sum_list ((λ f, String.length f.2) <$> moduleFiles generated)), w') ∧
    files w' = files w ++ moduleFiles generated ∧
    (moduleFiles generated).*1
      = (λ chunk, path_join ["dist/static/src"; chunk.1]) <$> generated ∧
    copies w' = copies w ∧ console w' = console w.
Proof.
  intros Hknown. unfold writeModules.
  rewrite (writeModules_loop reg generated (docs, 0) w Hknown).
  eexists _, _. split_and!.
  - simpl. do 3 f_equal. unfold totalSize, moduleFiles.
    rewrite <- list_fmap_compose. done.
  - done.
  - unfold moduleFiles. rewrite <- list_fmap_compose. done.
  - simpl. by rewrite app_nil_r.
  - simpl. by rewrite app_nil_r.
Qed.

Lemma writeES5_run reg (w : World) :
  writeES5 reg w
    = (Normal (),
       grow w (dirsOf (es5Files reg)) [] (es5Files reg)
              ((λ e, LogEntrypoint e.1) <$> reg)).
Proof.
  unfold writeES5, es5Files, dirsOf. revert w.
  induction reg as [|e reg IH]; intros w; simpl.
  - by rewrite grow_nil.
  - erewrite bind_normal; last first.
    { rewrite (bind_normal _ _ _ _ _ (log_run _ w)), write_run, grow_grow.
      reflexivity. }
    rewrite IH, grow_grow. done.
Qed.

End bundle.

Lemma writeModules_writes_every_chunk_witness :
  forallb (entryKnown Sample.registry)
    (rollup_output (Bundler:=Sample.bundler) Sample.registry) = true ∧
  ∃ docs' w',
    writeModules (H:=Sample.path) (H0:=Sample.bundler) Sample.registry
      (rollup_output (Bundler:=Sample.bundler) Sample.registry) [] emptyWorld
      = (Normal (docs', 112), w') ∧
    (files w').*1
      = ["dist/static/src/e0.js"; "dist/static/src/e1.js"; "dist/static/src/e2.js";
         "dist/static/src/e3.js"; "dist/static/src/c0f3.js"].
Proof.
  split; [vm_compute; reflexivity|].
  destruct (writeModules_writes_every_chunk (H:=Sample.path) (H0:=Sample.bundler)
              Sample.registry (rollup_output (Bundler:=Sample.bundler) Sample.registry)
              [] emptyWorld) as (docs' & w' & Hrun & Hfiles & Hnames & _).
  { vm_compute. reflexivity. }
  exists docs', w'. split; [exact Hrun|].
  rewrite Hfiles. vm_compute. reflexivity.
Defined.

Lemma writeModules_stops_at_unknown_entry_witness :
  forallb (entryKnown Sample.registry) [("e0.js", (true, "foo();"))] = true ∧
  Map_get Sample.registry "main.js" = None ∧
  ∃ msg w',
    writeModules (H:=Sample.path) (H0:=Sample.bundler) Sample.registry
      ([("e0.js", (true, "foo();"))] ++ ("main.js", (true, "start();"))
         :: [("c0f3.js", (false, "export const shared = 1;"))])
      [] emptyWorld
      = (Throw (TypeError msg), w') ∧
    files w' = files emptyWorld
                 ++ moduleFiles (H:=Sample.path) (H0:=Sample.bundler)
                      [("e0.js", (true, "foo();"))] ∧
    copies w' = copies emptyWorld ∧ console w' = console emptyWorld.
Proof.
  split; [vm_compute; reflexivity|]. split; [vm_compute; reflexivity|].
  apply (writeModules_stops_at_unknown_entry (H:=Sample.path) (H0:=Sample.bundler)
           Sample.registry [("e0.js", (true, "foo();"))]
           [("c0f3.js", (false, "export const shared = 1;"))]
           "main.js" "start();" [] emptyWorld).
  - vm_compute. reflexivity.
  - vm_compute. reflexivity.
Defined.

(** ** The whole build *)

Lemma loadCatalogs_run `{Catalogs} (yargs : Yargs) (w : World)
    (ledger : gmap string (list string)) :
  i18n_invoke recordMissing i18n_absent ∅ = Normal ledger →
  key_in i18n_langs (defaultLang yargs) = true →
  loadCatalogs yargs w
    = (Normal (ledger, fanoutLanguages yargs),
       grow w [] [] [] [LogFoundLangs (length (fanoutLanguages yargs))]).
Proof.
  intros Hledger Hd. unfold loadCatalogs, i18n_all, fanoutLanguages. build_step.
  rewrite Hledger, Hd. simpl.
  unfold grow. simpl. by rewrite !app_nil_r.
Qed.

Lemma loadCatalogs_throws `{Catalogs} (yargs : Yargs) (w : World) :
  is_normal (i18n_invoke recordMissing i18n_absent ∅) = false ∨
  key_in i18n_langs (defaultLang yargs) = false →
  ∃ err, loadCatalogs yargs w = (Throw err, w).
Proof.
  intros Hbad. unfold loadCatalogs, i18n_all. build_step.
  destruct (i18n_invoke recordMissing i18n_absent ∅) as [mm|e] eqn:Hinv.
  - destruct Hbad as [?|Hd]; [done|].
    rewrite Hd. simpl. eauto.
  - eauto.
Qed.

Lemma reportMissing_run (missingMessages : gmap string (list string))
    (langs : list (string * Messages)) (w : World) :
  ∃ lines, reportMissing missingMessages langs w = (Normal (), grow w [] [] [] lines).
Proof.
  unfold reportMissing. case_bool_decide.
  - destruct langs; eexists; apply log_run.
  - exists []. by rewrite grow_nil.
Qed.

(** ** The style sheets *)

Section styles.
Context `{Path, Site, Compiler}.

Lemma inlineStyles_normal (htmlFile : string) :
  is_normal (inlineStyles htmlFile) = stylesCompile htmlFile.
Proof.
  unfold inlineStyles, stylesCompile.
  induction (dom_styles htmlFile) as [|styleLink rest IH]; simpl; [done|].
  destruct (isUrl (href styleLink)); simpl; [done|].
  destruct (loader _) as [[out|]|e]; [|done..].
  by destruct (link_isDev styleLink).
Qed.

(** The loop over the documents completes when every style sheet
    compiles, with what the turns build; it throws at the first document
    with a style sheet that does not. *)
Lemma extractFiles_cases (files : list string) :
  ∀ ex : Extraction,
    (forallb stylesCompile files = true ∧
     extractFiles files ex = Normal (foldl extractDocument ex files)) ∨
    (forallb stylesCompile files = false ∧ ∃ e, extractFiles files ex = Throw e).
Proof.
  induction files as [|f files IH]; intros ex; simpl; [by left|].
  rewrite <- inlineStyles_normal.
  destruct (inlineStyles f) as [[]|e]; simpl; [apply IH|].
  right. by eauto.
Qed.

Lemma extractAll_cases :
  (forallb stylesCompile htmlFiles = true ∧ extractAll = Normal extractEntries) ∨
  (forallb stylesCompile htmlFiles = false ∧ ∃ e, extractAll = Throw e).
Proof. apply extractFiles_cases. Qed.

End styles.

Section build.
Context `{Path, Catalogs, Site, Compiler, Bundler}.

(** The start of [release], up to the end of the manifests: it runs the
    same way whatever comes after. *)
Lemma release_prefix {A} (yargs : Yargs) (w : World)
    (ledger : gmap string (list string))
    (rest : gmap string (list string) → list (string * Messages) → Build A) :
  i18n_invoke recordMissing i18n_absent ∅ = Normal ledger →
  key_in i18n_langs (defaultLang yargs) = true →
  let staticPath := baseurl yargs +:+ build yargs +:+ "/" in
  let langs := fanoutLanguages yargs in
  ∃ d l,
    (log (LogBuilding (build yargs)) ;;
     fsp_mkdirp "dist/static" ;;
     fsp_mkdirp "dist/prod" ;;
     '(missingMessages, langs) ← loadCatalogs yargs;
     log (LogFoundScenes (length scenes)) ;;
     releaseAll glob_prodAll ;;
     prodHtmlCount ← fanoutPages yargs staticPath langs 0;
     prodHtmlCount ← fanoutScenes yargs staticPath langs prodHtmlCount;
     log (LogWrittenProd prodHtmlCount) ;;
     writeManifests yargs langs ;;
     rest missingMessages langs) w
    = rest ledger langs
        (grow w d ((λ p, (p, path_join ["dist"; p])) <$> glob_prodAll)
           (pageDocs yargs staticPath langs ++ sceneDocs yargs staticPath langs
              ++ manifestDocs yargs langs) l).
Proof.
  intros Hledger Hd staticPath langs. eexists _, _.
  rewrite (bind_normal _ _ _ _ _ (log_run _ w)).
  rewrite (bind_normal _ _ _ _ _ (fsp_mkdirp_run _ _)).
  rewrite (bind_normal _ _ _ _ _ (fsp_mkdirp_run _ _)).
  rewrite (bind_normal _ _ _ _ _ (loadCatalogs_run yargs _ ledger Hledger Hd)).
  rewrite (bind_normal _ _ _ _ _ (log_run _ _)).
  rewrite (bind_normal _ _ _ _ _ (releaseAll_run _ _)).
  rewrite (bind_normal _ _ _ _ _ (fanoutPages_run _ _ _ _ _)).
  rewrite (bind_normal _ _ _ _ _ (fanoutScenes_run _ _ _ _ _)).
  rewrite (bind_normal _ _ _ _ _ (log_run _ _)).
  rewrite (bind_normal _ _ _ _ _ (writeManifests_run _ _ _)).
  rewrite !grow_grow. simpl. rewrite app_nil_r. reflexivity.
Qed.

Lemma release_start (yargs : Yargs) (w : World) :
  let langs := fanoutLanguages yargs in
  (∃ err w', release yargs w = (Throw err, w') ∧ files w' = files w ∧
             (is_normal (i18n_invoke recordMissing i18n_absent ∅) = false ∨
              key_in i18n_langs (defaultLang yargs) = false)) ∨
  (∃ ledger d l,
     i18n_invoke recordMissing i18n_absent ∅ = Normal ledger ∧
     key_in i18n_langs (defaultLang yargs) = true ∧
     release yargs w
       = bundleAndReport ledger langs
           (grow w d ((λ p, (p, path_join ["dist"; p])) <$> glob_prodAll)
              (pageDocs yargs (baseurl yargs +:+ build yargs +:+ "/") langs
                 ++ sceneDocs yargs (baseurl yargs +:+ build yargs +:+ "/") langs
                 ++ manifestDocs yargs langs) l)).
Proof.
  intros langs.
  destruct (i18n_invoke recordMissing i18n_absent ∅) as [ledger|e] eqn:Hledger;
    [destruct (key_in i18n_langs (defaultLang yargs)) eqn:Hd|].
  - right. destruct (release_prefix yargs w ledger bundleAndReport Hledger Hd)
      as (d & l & Hprefix).
    exists ledger, d, l. split_and!; [done..|]. exact Hprefix.
  - left. unfold release.
    rewrite (bind_normal _ _ _ _ _ (log_run _ w)).
    rewrite (bind_normal _ _ _ _ _ (fsp_mkdirp_run _ _)).
    rewrite (bind_normal _ _ _ _ _ (fsp_mkdirp_run _ _)).
    edestruct (loadCatalogs_throws yargs) as [err Hthrow]; [by right|].
    rewrite (bind_throw _ _ _ _ _ Hthrow).
    eexists _, _. split; [reflexivity|]. simpl.
    split; [by rewrite !app_nil_r|by right].
  - left. unfold release.
    rewrite (bind_normal _ _ _ _ _ (log_run _ w)).
    rewrite (bind_normal _ _ _ _ _ (fsp_mkdirp_run _ _)).
    rewrite (bind_normal _ _ _ _ _ (fsp_mkdirp_run _ _)).
    edestruct (loadCatalogs_throws yargs) as [err Hthrow];
      [left; by rewrite Hledger|].
    rewrite (bind_throw _ _ _ _ _ Hthrow).
    eexists _, _. split; [reflexivity|]. simpl.
    split; [by rewrite !app_nil_r|by left].
Qed.

(** The four ways the part after the manifests can go. *)
Lemma bundleAndReport_cases (missingMessages : gmap string (list string))
    (langs : list (string * Messages)) (w : World) :
  let reg := entrypoints extractEntries in
  (∃ w',
     forallb stylesCompile htmlFiles = true ∧
     is_normal (runHooks reg (rollup_calls reg) emptyPlugin).1 = true ∧
     forallb (entryKnown reg) (rollup_output reg) = true ∧
     bundleAndReport missingMessages langs w = (Normal (), w') ∧
     files w' = files w ++ moduleFiles (rollup_output reg) ++ es5Files reg ∧
     copies w' = copies w) ∨
  (∃ err,
     forallb stylesCompile htmlFiles = false ∧
     bundleAndReport missingMessages langs w = (Throw err, w)) ∨
  (∃ err w',
     is_normal (runHooks reg (rollup_calls reg) emptyPlugin).1 = false ∧
     bundleAndReport missingMessages langs w = (Throw err, w') ∧
     files w' = files w) ∨
  (∃ err w' before chunk after,
     rollup_output reg = before ++ chunk :: after ∧
     forallb (entryKnown reg) before = true ∧ entryKnown reg chunk = false ∧
     bundleAndReport missingMessages langs w = (Throw err, w') ∧
     files w' = files w ++ moduleFiles before).
Proof.
  intros reg. unfold bundleAndReport, lift.
  destruct extractAll_cases as [[Hstyles ->]|[Hstyles [e ->]]].
  2: { right. left. exists e. split; [done|]. reflexivity. }
  erewrite bind_normal by reflexivity. fold reg.
  rewrite (bind_normal _ _ _ _ _ (log_run _ w)).
  destruct (runHooks reg (rollup_calls reg) emptyPlugin).1 as [answers|e] eqn:Hhooks.
  - erewrite bind_normal by reflexivity.
    rewrite (bind_normal _ _ _ _ _ (log_run _ _)). unfold writeModules.
    destruct (forallb (entryKnown reg) (rollup_output reg)) eqn:Hknown.
    + left. rewrite (bind_normal _ _ _ _ _ (writeModules_loop reg _ _ _ Hknown)).
      rewrite (bind_normal _ _ _ _ _ (log_run _ _)).
      rewrite (bind_normal _ _ _ _ _ (writeES5_run _ _)).
      edestruct (reportMissing_run missingMessages langs) as [lines Hreport].
      rewrite (bind_normal _ _ _ _ _ Hreport), log_run, !grow_grow.
      eexists. split_and!; [done|done|done|reflexivity| |].
      * simpl. by rewrite !app_nil_r.
      * simpl. by rewrite !app_nil_r.
    + right. right. right.
      destruct (forallb_first_false _ _ Hknown)
        as (before & chunk & after & Hsplit & Hbefore & Hchunk).
      rewrite Hsplit.
      edestruct (writeModules_stops reg before after chunk) as [msg Hthrow];
        [done..|].
      rewrite (bind_throw _ _ _ _ _ Hthrow).
      eexists _, _, before, chunk, after. split_and!; [done..|].
      simpl. by rewrite !app_nil_r.
  - right. right. left. erewrite bind_throw by reflexivity.
    eexists _, _. split_and!; [done..|]. simpl. by rewrite app_nil_r.
Qed.

(** X9: a build whose catalog callback completes, whose default language
    passes the guard [yargs.defaultLang in langs], whose local style sheets
    can all be inlined ([stylesCompile]), whose graph build raises nothing
    and whose entry chunks are all registered, completes; these are the
    files it writes and the assets it copies, in order, and it writes
    nothing else. The file
    system, the HTML tools, Babel, Terser and the ES5 bundle are taken to
    complete, as the classes [Site] and [Bundler] have them. *)
Theorem release_writes (yargs : Yargs) (w : World) :
  let reg := entrypoints extractEntries in
  let staticPath := baseurl yargs +:+ build yargs +:+ "/" in
  let langs := fanoutLanguages yargs in
  is_normal (i18n_invoke recordMissing i18n_absent ∅) = true →
  key_in i18n_langs (defaultLang yargs) = true →
  forallb stylesCompile htmlFiles = true →
  is_normal (runHooks reg (rollup_calls reg) emptyPlugin).1 = true →
  forallb (entryKnown reg) (rollup_output reg) = true →
  ∃ w',
    release yargs w = (Normal (), w') ∧
    files w' = files w
                 ++ pageDocs yargs staticPath langs
                 ++ sceneDocs yargs staticPath langs
                 ++ manifestDocs yargs langs
                 ++ moduleFiles (rollup_output reg)
                 ++ es5Files reg ∧
    copies w' = copies w ++ ((λ p, (p, path_join ["dist"; p])) <$> glob_prodAll).
Proof.
  intros reg staticPath langs Hledger Hd Hstyles Hhooks Hknown.
  destruct (release_start yargs w)
    as [(err & w' & _ & _ & [Hbad|Hbad])|(ledger & d & l & _ & _ & Hrel)].
  - by rewrite Hledger in Hbad.
  - by rewrite Hd in Hbad.
  - rewrite Hrel.
    edestruct (bundleAndReport_cases ledger langs)
      as [(w' & _ & _ & _ & Htail & Hfiles & Hcopies)
         |[(err & Hbad & _)
          |[(err & w' & Hbad & _)
           |(err & w' & before & chunk & after & Hsplit & Hb & Hc & _)]]].
    + rewrite Htail. exists w'. split; [reflexivity|].
      rewrite Hfiles, Hcopies. simpl.
      fold reg staticPath langs. by rewrite <- !app_assoc.
    + by rewrite Hstyles in Hbad.
    + fold reg in Hbad. by rewrite Hhooks in Hbad.
    + fold reg in Hsplit, Hb, Hc. rewrite Hsplit, forallb_app in Hknown.
      simpl in Hknown. rewrite Hc, andb_false_r in Hknown. done.
Qed.


End build.



Lemma release_writes_witness :
  is_normal (i18n_invoke recordMissing (i18n_absent (Catalogs:=Sample.catalogs)) ∅) = true ∧
  key_in (i18n_langs (Catalogs:=Sample.catalogs)) (defaultLang Sample.yargs) = true ∧
  forallb (stylesCompile (H:=Sample.path) (H0:=Sample.site) (H1:=Sample.compiler))
    (htmlFiles (Site:=Sample.site)) = true ∧
  is_normal (runHooks (H:=Sample.path) (H0:=Sample.compiler) Sample.registry
               (rollup_calls (Bundler:=Sample.bundler) Sample.registry) emptyPlugin).1
    = true ∧
  forallb (entryKnown Sample.registry)
    (rollup_output (Bundler:=Sample.bundler) Sample.registry) = true ∧
  ∃ w',
    release (H:=Sample.path) (H0:=Sample.catalogs) (H1:=Sample.site)
      (H2:=Sample.compiler) (H3:=Sample.bundler) Sample.yargs emptyWorld
      = (Normal (), w') ∧
    length (files w') = 24 ∧
    copies w' = [("prod/images/og/icehockey.png", "dist/prod/images/og/icehockey.png")].
Proof.
  split; [vm_compute; reflexivity|]. split; [vm_compute; reflexivity|].
  split; [vm_compute; reflexivity|].
  split; [vm_compute; reflexivity|]. split; [vm_compute; reflexivity|].
  destruct (release_writes (H:=Sample.path) (H0:=Sample.catalogs) (H1:=Sample.site)
              (H2:=Sample.compiler) (H3:=Sample.bundler) Sample.yargs emptyWorld)
    as (w' & Hrun & Hfiles & Hcopies).
  - vm_compute. reflexivity.
  - vm_compute. reflexivity.
  - vm_compute. reflexivity.
  - vm_compute. reflexivity.
  - vm_compute. reflexivity.
  - exists w'. split; [exact Hrun|]. split.
    + rewrite Hfiles. vm_compute. reflexivity.
    + rewrite Hcopies. vm_compute. reflexivity.
Defined.

(** * Further properties of entry extraction *)

Section extraction_exact.
Context `{Path, Site}.

Lemma omap_ext_elem {A B} (f g : A → option B) (l : list A) :
  (∀ x, x ∈ l → f x = g x) → omap f l = omap g l.
Proof.
  intros Hext. apply list_omap_ext, Forall_Forall2_diag, Forall_forall. exact Hext.
Qed.

(** The entry points made by the loop over the module scripts of one
    document, in order. *)
Lemma registerModule_values (doc : nat) (dir : string) (l : list nat) :
  ∀ reg nodes reg' nodes',
    NoDup l → registry_wf reg →
    foldl (registerModule doc dir) (reg, nodes) l = (reg', nodes') →
    reg'.*2 = reg.*2
      ++ omap (λ i, (λ s, mkEntryPoint (doc, i) dir (entryCode s)) <$> nodes !! i) l.
Proof.
  induction l as [|i l IH]; intros reg nodes reg' nodes' Hnd Hwf; simpl.
  - intros [= <- <-]. by rewrite app_nil_r.
  - apply NoDup_cons in Hnd as [Hi Hnd].
    destruct (nodes !! i) as [s0|] eqn:Hs0; simpl.
    + destruct (registry_wf_set reg (mkEntryPoint (doc, i) dir (entryCode s0)) Hwf)
        as [Hset Hwf1].
      rewrite Hset. intros Hfold.
      rewrite (IH _ _ _ _ Hnd Hwf1 Hfold), fmap_app, <- app_assoc. simpl.
      do 2 f_equal. apply omap_ext_elem. intros j Hj.
      rewrite list_lookup_insert_ne; [done|]. by intros ->.
    + intros Hfold. by apply (IH _ _ _ _ Hnd Hwf Hfold).
Qed.

(** The scripts of the document after that loop. *)
Lemma registerModule_nodes (doc : nat) (dir : string) (nodes : list ScriptNode) :
  ∀ reg reg' nodes',
    registry_wf reg →
    foldl (registerModule doc dir) (reg, nodes) (moduleScriptNodes nodes) = (reg', nodes') →
    nodes' = clearedScripts nodes.
Proof.
  intros reg reg' nodes' Hwf Hfold.
  destruct (registerModule_loop doc dir _ _ _ _ _
              (moduleScriptNodes_NoDup nodes) Hwf Hfold) as (_ & _ & Hframe & Hreg).
  apply list_eq. intros j. unfold clearedScripts. rewrite list_lookup_fmap.
  destruct (decide (j ∈ moduleScriptNodes nodes)) as [Hj|Hj].
  - pose proof Hj as [Hm _]%list_elem_of_filter. unfold isModuleScript in Hm.
    destruct (nodes !! j) as [s|] eqn:Hs; [|done].
    destruct (Hreg j s Hj Hs) as [_ ->]. simpl. by rewrite Hm.
  - rewrite (Hframe j Hj).
    destruct (nodes !! j) as [s|] eqn:Hs; [|done]. simpl.
    destruct (isLocal s && isModule s) eqn:Hm; [|done].
    exfalso. apply Hj. apply andb_true_iff in Hm as [Hl Hm].
    by apply (moduleScriptNodes_elem nodes j s).
Qed.

Lemma foldl_Set_add_elem (l : list string) :
  ∀ (s : list string) (x : string), x ∈ foldl Set_add s l ↔ x ∈ s ∨ x ∈ l.
Proof.
  induction l as [|y l IH]; intros s x; simpl.
  - rewrite elem_of_nil. tauto.
  - rewrite IH, elem_of_cons. split.
    + intros [Hin|Hin]; [|tauto].
      destruct (Set_add_inv s y x Hin) as [->|?]; tauto.
    + intros [Hin|[->|Hin]]; [|left; apply Set_add_elem|tauto].
      left. by apply Set_add_mono.
Qed.

Lemma foldl_Set_add_NoDup (l : list string) :
  ∀ s : list string, NoDup s → NoDup (foldl Set_add s l).
Proof.
  induction l as [|y l IH]; intros s Hs; simpl; [done|].
  by apply IH, Set_add_NoDup.
Qed.

(** One turn of the loop over the documents, by its three results. *)
Lemma extractDocument_exact (ex : Extraction) (htmlFile : string) :
  registry_wf (entrypoints ex) →
  registry_wf (entrypoints (extractDocument ex htmlFile)) ∧
  (entrypoints (extractDocument ex htmlFile)).*2
    = (entrypoints ex).*2 ++ documentEntries (length (htmlDocuments ex)) htmlFile ∧
  htmlDocuments (extractDocument ex htmlFile)
    = htmlDocuments ex ++ [(htmlFile, clearedScripts (dom_read htmlFile))] ∧
  requiredScriptSources (extractDocument ex htmlFile)
    = foldl Set_add (requiredScriptSources ex) (documentRequired htmlFile).
Proof.
  intros Hwf. unfold extractDocument.
  destruct (foldl (registerModule (length (htmlDocuments ex)) (path_dirname htmlFile))
              (entrypoints ex, dom_read htmlFile)
              (moduleScriptNodes (dom_read htmlFile))) as [reg' nodes'] eqn:Hfold.
  simpl. split_and!.
  - by destruct (registerModule_loop _ _ _ _ _ _ _
                   (moduleScriptNodes_NoDup (dom_read htmlFile)) Hwf Hfold).
  - apply (registerModule_values _ _ _ _ _ _ _
             (moduleScriptNodes_NoDup (dom_read htmlFile)) Hwf Hfold).
  - by rewrite (registerModule_nodes _ _ _ _ _ _ Hwf Hfold).
  - done.
Qed.

Lemma extractDocuments_exact (files : list string) :
  ∀ ex : Extraction,
    registry_wf (entrypoints ex) →
    registry_wf (entrypoints (foldl extractDocument ex files)) ∧
    (entrypoints (foldl extractDocument ex files)).*2
      = (entrypoints ex).*2
        ++ mjoin (imap (λ k, documentEntries (length (htmlDocuments ex) + k)) files) ∧
    htmlDocuments (foldl extractDocument ex files)
      = htmlDocuments ex ++ ((λ f, (f, clearedScripts (dom_read f))) <$> files) ∧
    requiredScriptSources (foldl extractDocument ex files)
      = foldl Set_add (requiredScriptSources ex) (files ≫= documentRequired).
Proof.
  induction files as [|f files IH]; intros ex Hwf; simpl.
  - by rewrite !app_nil_r.
  - destruct (extractDocument_exact ex f Hwf) as (Hwf1 & Hreg1 & Hdocs1 & Hreq1).
    destruct (IH _ Hwf1) as (Hwf' & Hreg & Hdocs & Hreq).
    split_and!.
    + done.
    + rewrite Hreg, Hreg1, Hdocs1, length_app, <- app_assoc, Nat.add_0_r. simpl.
      do 2 f_equal. f_equal. apply imap_ext. intros k g _. simpl.
      f_equal. lia.
    + rewrite Hdocs, Hdocs1, <- app_assoc. done.
    + rewrite Hreq, Hreq1, foldl_app. done.
Qed.

(** X11: the entry registry is determined by the documents: its keys are
    [e0.js], [e1.js], ... in insertion order and its values are the entry
    points of the local module scripts, document by document and in
    document order. *)
Theorem registry_lists_module_scripts :
  Map_keys (entrypoints extractEntries)
    = entryId <$> seq 0 (length (entrypoints extractEntries)) ∧
  (entrypoints extractEntries).*2 = mjoin (imap documentEntries htmlFiles).
Proof.
  destruct (extractDocuments_exact htmlFiles (mkExtraction [] [] [] []) registry_wf_nil)
    as (Hwf & Hreg & _ & _).
  split; [exact Hwf|]. exact Hreg.
Qed.

Lemma extractDocument_detached (ex : Extraction) (htmlFile : string) :
  detached (extractDocument ex htmlFile)
    = detached ex ++ ((λ i, (length (htmlDocuments ex), i)) <$> devScripts htmlFile).
Proof.
  unfold extractDocument.
  by destruct (foldl (registerModule (length (htmlDocuments ex)) (path_dirname htmlFile))
                 (entrypoints ex, dom_read htmlFile)
                 (moduleScriptNodes (dom_read htmlFile))) as [reg' nodes'].
Qed.

Lemma extractDocuments_detached (files : list string) :
  ∀ ex : Extraction,
    registry_wf (entrypoints ex) →
    detached (foldl extractDocument ex files)
      = detached ex
        ++ mjoin (imap (λ k f, (λ i, (length (htmlDocuments ex) + k, i)) <$> devScripts f)
                       files).
Proof.
  induction files as [|f files IH]; intros ex Hwf; simpl.
  - by rewrite app_nil_r.
  - destruct (extractDocument_exact ex f Hwf) as (Hwf1 & _ & Hdocs1 & _).
    rewrite (IH _ Hwf1), extractDocument_detached, Hdocs1, length_app, <- app_assoc,
      Nat.add_0_r.
    simpl. do 2 f_equal. f_equal. apply imap_ext. intros k g _. simpl.
    apply list_fmap_ext. intros _ i _. f_equal. lia.
Qed.

(** X12: what extraction does to the scripts of the documents. The
    script nodes taken from each HTML file, in order, are kept with the
    local module scripts emptied and every other script as it was read; and
    the script nodes that are no longer in their document are exactly those
    inside the element with id [DEV], which lines 356-357 remove. *)
Theorem extraction_clears_only_module_scripts :
  htmlDocuments extractEntries
    = (λ f, (f, clearedScripts (dom_read f))) <$> htmlFiles ∧
  detached extractEntries
    = mjoin (imap (λ d f, (λ i, (d, i)) <$> devScripts f) htmlFiles).
Proof.
  destruct (extractDocuments_exact htmlFiles (mkExtraction [] [] [] []) registry_wf_nil)
    as (_ & _ & Hdocs & _).
  split; [exact Hdocs|].
  exact (extractDocuments_detached htmlFiles (mkExtraction [] [] [] []) registry_wf_nil).
Qed.

(** X13: the required classic scripts are exactly the resolved sources of
    the local classic scripts of the documents, each once. *)
Theorem required_scripts_exact (x : string) :
  NoDup (requiredScriptSources extractEntries) ∧
  (x ∈ requiredScriptSources extractEntries ↔
   ∃ f s, f ∈ htmlFiles ∧ s ∈ dom_read f ∧
          isLocal s = true ∧ isClassic s = true ∧
          x = path_join [path_dirname f; src s]).
Proof.
  destruct (extractDocuments_exact htmlFiles (mkExtraction [] [] [] []) registry_wf_nil)
    as (_ & _ & _ & Hreq).
  unfold extractEntries. rewrite Hreq. simpl. split.
  - apply foldl_Set_add_NoDup, NoDup_nil_2.
  - rewrite foldl_Set_add_elem, elem_of_nil, list_elem_of_bind. split.
    + intros [[]|(f & Hx & Hf)]. unfold documentRequired in Hx.
      apply list_elem_of_fmap in Hx as (s & -> & Hs).
      apply list_elem_of_filter in Hs as [Hc Hs].
      apply list_elem_of_filter in Hs as [Hl Hs].
      exists f, s. split_and!; try done.
      * by apply Is_true_true.
      * by apply Is_true_true.
    + intros (f & s & Hf & Hs & Hl & Hc & ->). right. exists f. split; [|done].
      unfold documentRequired. apply list_elem_of_fmap. exists s. split; [done|].
      apply list_elem_of_filter. split; [by apply Is_true_true|].
      apply list_elem_of_filter. split; [by apply Is_true_true|done].
Qed.

End extraction_exact.

(** The sample site: the inline classic script of the ice hockey page
    lies inside [DEV] and is the one script taken out of its document; it
    is kept as it was read, next to the emptied module scripts. *)
Example sample_detached :
  detached (extractEntries (H:=Sample.path) (H0:=Sample.site)) = [(1, 3)] ∧
  htmlDocuments (extractEntries (H:=Sample.path) (H0:=Sample.site)) !! 1
    = Some ("scenes/icehockey/index.html",
            [ mkScriptNode "module" "" "";
              mkScriptNode "module" "https://cdn.example.com/analytics.js" "";
              mkScriptNode "module" "" "";
              mkScriptNode "text/javascript" "" "window.dataLayer = [];" ]).
Proof. split; vm_compute; reflexivity. Qed.

(** The sample site with a loader that has no output for the style sheet
    of the index page: extraction throws on reading [body], after the
    documents and manifests were written and before any module is. *)
Example sample_style_sheet_fails :
  extractAll (H:=Sample.path) (H0:=Sample.site) (H1:=Sample.compilerWithoutStyles)
    = Throw (TypeError "Cannot read property 'body' of undefined") ∧
  (main (H:=Sample.path) (H0:=Sample.catalogs) (H1:=Sample.site)
     (H2:=Sample.compilerWithoutStyles) (H3:=Sample.bundler) Sample.yargs).1 = 1 ∧
  length (files (main (H:=Sample.path) (H0:=Sample.catalogs) (H1:=Sample.site)
     (H2:=Sample.compilerWithoutStyles) (H3:=Sample.bundler) Sample.yargs).2) = 15.
Proof. split_and!; vm_compute; reflexivity. Qed.

(** * Entry scripts after the bundle *)

Lemma setSrc_at_eq (docs : list (string * list ScriptNode)) (ref : nat * nat)
    (v : string) (n : ScriptNode) :
  scriptAt docs ref = Some n →
  scriptAt (setSrc docs ref v) ref = Some (mkScriptNode (type n) v (textContent n)).
Proof.
  unfold scriptAt, setSrc. destruct ref as [d i]. simpl.
  destruct (docs !! d) as [[file nodes]|] eqn:Hd; simpl; [|done].
  intros Hn. rewrite Hn. simpl.
  rewrite list_lookup_insert_eq by (by apply lookup_lt_Some in Hd). simpl.
  apply list_lookup_insert_eq. by apply lookup_lt_Some in Hn.
Qed.

Lemma setSrc_at_ne (docs : list (string * list ScriptNode)) (ref ref' : nat * nat)
    (v : string) :
  ref ≠ ref' → scriptAt (setSrc docs ref v) ref' = scriptAt docs ref'.
Proof.
  unfold scriptAt, setSrc. destruct ref as [d i], ref' as [d' i']. simpl.
  intros Hne.
  destruct (docs !! d) as [[file nodes]|] eqn:Hd; [|done].
  destruct (nodes !! i) as [n|] eqn:Hn; [|done].
  destruct (decide (d = d')) as [<-|Hd'].
  - rewrite list_lookup_insert_eq by (by apply lookup_lt_Some in Hd).
    rewrite Hd. simpl. apply list_lookup_insert_ne. congruence.
  - by rewrite list_lookup_insert_ne.
Qed.

Lemma Map_get_Some_elem {V} (m : list (string * V)) (k : string) (v : V) :
  Map_get m k = Some v → (k, v) ∈ m.
Proof.
  induction m as [|[k' v'] r IH]; simpl; [done|].
  destruct (String.eqb_spec k' k) as [->|_].
  - intros [= ->]. apply list_elem_of_here.
  - intros Hr. by apply list_elem_of_further, IH.
Qed.

Lemma NoDup_fmap_elem {A B} (g : A → B) (l : list A) (x y : A) :
  NoDup (g <$> l) → x ∈ l → y ∈ l → g x = g y → x = y.
Proof.
  intros Hnd [i Hi]%list_elem_of_lookup [j Hj]%list_elem_of_lookup Heq.
  assert (i = j) as ->; [|congruence].
  apply (NoDup_lookup (g <$> l) i j (g x) Hnd).
  - by rewrite list_lookup_fmap, Hi.
  - by rewrite list_lookup_fmap, Hj, Heq.
Qed.

Section relink.
Context `{Path}.

(** The relink steps of a list of chunks, seen from one entry point: once
    its chunk has been met, its script carries the path of the bundle, and
    no other chunk changes that. *)
Lemma relink_loop (reg : list (string * EntryPoint)) (f : string) (data : EntryPoint)
    (generated : list (string * (bool * string))) :
  NoDup ((λ e, scriptNode e.2) <$> reg) →
  Map_get reg f = Some data →
  ∀ (docs : list (string * list ScriptNode)) (n0 : ScriptNode),
    scriptAt docs (scriptNode data) = Some n0 →
    (∃ c, (f, (true, c)) ∈ generated)
      ∨ src n0 = path_relative (dir data) ("src/" +:+ f) →
    scriptAt (foldl (relink reg) docs generated) (scriptNode data)
      = Some (mkScriptNode (type n0) (path_relative (dir data) ("src/" +:+ f))
                (textContent n0)).
Proof.
  intros Hnd Hdata.
  induction generated as [|chunk generated IH]; intros docs n0 Hn0 Hcase; simpl.
  - destruct Hcase as [[c Hc]|Hsrc]; [by apply elem_of_nil in Hc|].
    rewrite Hn0, <- Hsrc. by destruct n0.
  - destruct chunk as [f' [isEntry c']].
    destruct (decide (isEntry = true ∧ f' = f)) as [[-> ->]|Hother].
    + unfold relink at 2. simpl. rewrite Hdata.
      rewrite (IH _ _ (setSrc_at_eq _ _ _ _ Hn0)); [done|]. by right.
    + assert (scriptAt (relink reg docs (f', (isEntry, c'))) (scriptNode data)
              = Some n0) as Hkeep.
      { unfold relink. simpl. destruct isEntry; [|done].
        destruct (Map_get reg f') as [data'|] eqn:Hdata'; [|done].
        rewrite setSrc_at_ne; [done|]. intros Href.
        apply Hother. split; [done|].
        apply Map_get_Some_elem in Hdata, Hdata'.
        by injection (NoDup_fmap_elem _ _ _ _ Hnd Hdata' Hdata Href). }
      apply (IH _ _ Hkeep).
      destruct Hcase as [[c Hc]|Hsrc]; [|by right].
      left. exists c. apply elem_of_cons in Hc as [Heq|Hc]; [|done].
      exfalso. apply Hother. injection Heq as Hf He _. split; congruence.
Qed.

End relink.

Section round_trip.
Context `{Path, Site}.

Lemma documentEntries_elem (d : nat) (htmlFile : string) (ep : EntryPoint) :
  ep ∈ documentEntries d htmlFile →
  ∃ i s, dom_read htmlFile !! i = Some s ∧ isLocal s = true ∧ isModule s = true ∧
         ep = mkEntryPoint (d, i) (path_dirname htmlFile) (entryCode s).
Proof.
  unfold documentEntries. intros (i & Hi & Hep)%list_elem_of_omap.
  apply list_elem_of_filter in Hi as [Hm _]. unfold isModuleScript in Hm.
  destruct (dom_read htmlFile !! i) as [s|] eqn:Hs; [|done].
  apply andb_true_iff in Hm as [Hl Hm]. injection Hep as <-.
  by exists i, s.
Qed.

Lemma documentEntries_refs (d : nat) (htmlFile : string) :
  scriptNode <$> documentEntries d htmlFile
    = (λ i, (d, i)) <$> moduleScriptNodes (dom_read htmlFile).
Proof.
  unfold documentEntries.
  assert (∀ i, i ∈ moduleScriptNodes (dom_read htmlFile) →
               is_Some (dom_read htmlFile !! i)) as Hvalid.
  { intros i [_ Hi%elem_of_seq]%list_elem_of_filter.
    apply lookup_lt_is_Some. lia. }
  induction (moduleScriptNodes (dom_read htmlFile)) as [|i l IH]; simpl; [done|].
  destruct (Hvalid i) as [s Hs]; [apply list_elem_of_here|].
  rewrite Hs. simpl. f_equal. apply IH.
  intros j Hj. by apply Hvalid, list_elem_of_further.
Qed.

Lemma documents_refs_ge (files : list string) (k : nat) (ref : nat * nat) :
  ref ∈ scriptNode <$> mjoin (imap (λ d, documentEntries (k + d)) files) →
  k ≤ ref.1.
Proof.
  intros (ep & -> & Hep)%list_elem_of_fmap.
  apply list_elem_of_join in Hep as (l & Hep & Hl).
  apply elem_of_lookup_imap in Hl as (d & file & -> & _).
  apply documentEntries_elem in Hep as (i & s & _ & _ & _ & ->). simpl. lia.
Qed.

Lemma documents_refs_NoDup (files : list string) :
  ∀ k, NoDup (scriptNode <$> mjoin (imap (λ d, documentEntries (k + d)) files)).
Proof.
  induction files as [|file files IH]; intros k; simpl; [apply NoDup_nil_2|].
  rewrite fmap_app. apply NoDup_app. split_and!.
  - rewrite documentEntries_refs. apply NoDup_fmap_2; [|apply moduleScriptNodes_NoDup].
    by intros i j [= ->].
  - intros ref Hhere Hthere.
    rewrite documentEntries_refs in Hhere.
    apply list_elem_of_fmap in Hhere as (i & -> & _).
    rewrite (imap_ext _ (λ d, documentEntries (S k + d))) in Hthere.
    + apply documents_refs_ge in Hthere. simpl in Hthere. lia.
    + intros d g _. simpl. f_equal. lia.
  - rewrite (imap_ext _ (λ d, documentEntries (S k + d))); [apply IH|].
    intros d g _. simpl. f_equal. lia.
Qed.

(** No two entry points refer to the same script. *)
Lemma registry_refs_NoDup :
  NoDup ((λ e, scriptNode e.2) <$> entrypoints extractEntries).
Proof.
  assert (∀ l : list (string * EntryPoint),
            (λ e, scriptNode e.2) <$> l = scriptNode <$> l.*2) as ->.
  { intros l. by rewrite <- list_fmap_compose. }
  destruct (extractDocuments_exact htmlFiles (mkExtraction [] [] [] []) registry_wf_nil)
    as (_ & Hreg & _ & _).
  unfold extractEntries. rewrite Hreg. apply (documents_refs_NoDup htmlFiles 0).
Qed.

(** The script of a registered entry point, as extraction leaves it. *)
Lemma registry_ref_cleared (f : string) (data : EntryPoint) :
  Map_get (entrypoints extractEntries) f = Some data →
  scriptAt (htmlDocuments extractEntries) (scriptNode data)
    = Some (mkScriptNode "module" "" "").
Proof.
  intros Hdata%Map_get_Some_elem.
  destruct (extractDocuments_exact htmlFiles (mkExtraction [] [] [] []) registry_wf_nil)
    as (_ & Hreg & Hdocs & _).
  fold extractEntries in Hreg, Hdocs. simpl in Hreg, Hdocs.
  assert (data ∈ (entrypoints extractEntries).*2) as Hin.
  { apply list_elem_of_fmap. by exists (f, data). }
  rewrite Hreg in Hin.
  apply list_elem_of_join in Hin as (l & Hep & Hl).
  apply elem_of_lookup_imap in Hl as (d & file & -> & Hfile).
  apply documentEntries_elem in Hep as (i & s & Hs & Hl & Hm & ->). simpl.
  unfold scriptAt. simpl. rewrite Hdocs, list_lookup_fmap, Hfile. simpl.
  unfold clearedScripts. rewrite list_lookup_fmap, Hs. simpl.
  rewrite Hl, Hm. simpl. unfold isModule in Hm.
  apply String.eqb_eq in Hm. by rewrite Hm.
Qed.

Context `{Bundler}.

(** X14: the round trip of a module script. When the bundle stage
    completes, the script of every registered entry point whose chunk was
    generated is a module script with no inline text whose [src] is the
    path from the directory of its document to the bundle, src/<file
    name>. *)
Theorem entry_scripts_point_at_bundles
    (generated : list (string * (bool * string)))
    (f c : string) (data : EntryPoint) (w : World) :
  let reg := entrypoints extractEntries in
  forallb (entryKnown reg) generated = true →
  (f, (true, c)) ∈ generated →
  Map_get reg f = Some data →
  ∃ docs' total w',
    writeModules reg generated (htmlDocuments extractEntries) w
      = (Normal (docs', total), w') ∧
    scriptAt docs' (scriptNode data)
      = Some (mkScriptNode "module" (path_relative (dir data) ("src/" +:+ f)) "").
Proof.
  intros reg Hknown Hin Hdata. unfold writeModules.
  rewrite (writeModules_loop reg generated _ w Hknown). simpl.
  eexists _, _, _. split; [reflexivity|].
  apply (relink_loop reg f data generated registry_refs_NoDup Hdata _
           (mkScriptNode "module" "" "") (registry_ref_cleared f data Hdata)).
  left. by exists c.
Qed.

End round_trip.

Lemma entry_scripts_point_at_bundles_witness :
  forallb (entryKnown Sample.registry)
    (rollup_output (Bundler:=Sample.bundler) Sample.registry) = true ∧
  ("e2.js", (true, "play();"))
    ∈ rollup_output (Bundler:=Sample.bundler) Sample.registry ∧
  Map_get Sample.registry "e2.js"
    = Some (mkEntryPoint (1, 2) "scenes/icehockey" "import './icehockey.js';") ∧
  ∃ docs' total w',
    writeModules (H:=Sample.path) (H0:=Sample.bundler) Sample.registry
      (rollup_output (Bundler:=Sample.bundler) Sample.registry)
      (htmlDocuments (extractEntries (H:=Sample.path) (H0:=Sample.site))) emptyWorld
      = (Normal (docs', total), w') ∧
    scriptAt docs' (1, 2) = Some (mkScriptNode "module" "../../src/e2.js" "").
Proof.
  assert (("e2.js", (true, "play();"))
            ∈ rollup_output (Bundler:=Sample.bundler) Sample.registry) as Hin.
  { apply (bool_decide_unpack _). vm_compute. exact I. }
  split; [vm_compute; reflexivity|]. split; [exact Hin|].
  split; [vm_compute; reflexivity|].
  apply (entry_scripts_point_at_bundles (H:=Sample.path) (H0:=Sample.site)
           (H1:=Sample.bundler)
           (rollup_output (Bundler:=Sample.bundler) Sample.registry)
           "e2.js" "play();"
           (mkEntryPoint (1, 2) "scenes/icehockey" "import './icehockey.js';")
           emptyWorld).
  - vm_compute. reflexivity.
  - exact Hin.
  - vm_compute. reflexivity.
Defined.

(** * Further properties of the virtual loader plugin *)

Section plugin_runs.
Context `{Path, Compiler}.
Implicit Types (reg : list (string * EntryPoint)) (p : Plugin).

Lemma callHook_completes reg (c : HookCall) p :
  hookCompletes reg c = true →
  ∃ r, callHook reg c p
       = (Normal r, mkPlugin (assign (virtualCache p) (written reg c))
                             (compiled p ++ option_list (visit reg c))).
Proof.
  destruct c as [id [importer|]|id]; simpl.
  - destruct (loader (resolvedPath reg id importer)) as [[out|]|e]; simpl;
      [by eauto|by eauto|done].
  - intros [data Hdata]%bool_decide_eq_true_1. rewrite Hdata.
    rewrite app_nil_r. by eauto.
  - intros _. rewrite app_nil_r. destruct p. by eauto.
Qed.

Lemma callHook_throws reg (c : HookCall) p :
  hookCompletes reg c = false →
  ∃ e, callHook reg c p
       = (Throw e, mkPlugin (virtualCache p) (compiled p ++ option_list (visit reg c))).
Proof.
  destruct c as [id [importer|]|id]; simpl.
  - destruct (loader (resolvedPath reg id importer)) as [[out|]|e]; simpl;
      [done|done|by eauto].
  - intros Hnone%bool_decide_eq_false_1.
    destruct (Map_get reg id) as [data|]; [by destruct Hnone; eauto|].
    rewrite app_nil_r. destruct p. by eauto.
  - done.
Qed.

Lemma runHooks_completes reg (calls : list HookCall) :
  ∀ p, forallb (hookCompletes reg) calls = true →
       ∃ rs, runHooks reg calls p
             = (Normal rs,
                mkPlugin (foldl (λ cache c, assign cache (written reg c))
                                (virtualCache p) calls)
                         (compiled p ++ visits reg calls)) ∧
             length rs = length calls.
Proof.
  induction calls as [|c calls IH]; intros p; simpl.
  - intros _. exists []. rewrite app_nil_r. by destruct p.
  - intros [Hc Hrest]%andb_prop.
    destruct (callHook_completes reg c p Hc) as [r ->].
    destruct (IH (mkPlugin (assign (virtualCache p) (written reg c))
                           (compiled p ++ option_list (visit reg c))) Hrest)
      as (rs & -> & Hlen).
    exists (r :: rs). simpl. split; [|by rewrite Hlen].
    do 2 f_equal. unfold visits. simpl.
    destruct (visit reg c); simpl; by rewrite <- app_assoc.
Qed.

Lemma runHooks_app reg (before after : list HookCall) :
  ∀ p (rs1 : list HookResult) p1,
    runHooks reg before p = (Normal rs1, p1) →
    runHooks reg (before ++ after) p
      = match runHooks reg after p1 with
        | (Normal rs2, p2) => (Normal (rs1 ++ rs2), p2)
        | (Throw e, p2) => (Throw e, p2)
        end.
Proof.
  induction before as [|c before IH]; intros p rs1 p1; simpl.
  - intros [= <- <-]. by destruct (runHooks reg after p) as [[rs2|e] p2].
  - destruct (callHook reg c p) as [[r|e] p0]; [|done].
    destruct (runHooks reg before p0) as [[rs0|e] p0'] eqn:Hrun; [|done].
    intros [= <- <-]. rewrite (IH _ _ _ Hrun).
    by destruct (runHooks reg after p0') as [[rs2|e] p2].
Qed.

Lemma runHooks_split reg (before after : list HookCall) :
  ∀ p (rs : list HookResult) p',
    runHooks reg (before ++ after) p = (Normal rs, p') →
    ∃ rs1 p1 rs2,
      runHooks reg before p = (Normal rs1, p1) ∧
      runHooks reg after p1 = (Normal rs2, p') ∧
      rs = rs1 ++ rs2 ∧ length rs1 = length before.
Proof.
  induction before as [|c before IH]; intros p rs p'; simpl.
  - intros Hrun. by exists [], p, rs.
  - destruct (callHook reg c p) as [[r|e] p0]; [|done].
    destruct (runHooks reg (before ++ after) p0) as [[rs0|e] p0'] eqn:Hrun; [|done].
    intros [= <- <-].
    destruct (IH _ _ _ Hrun) as (rs1 & p1 & rs2 & -> & Hrun2 & -> & Hlen).
    exists (r :: rs1), p1, rs2. simpl. by rewrite Hlen.
Qed.

(** X15: whether a run of the bundler against the plugin completes does
    not depend on what is cached: it completes exactly when every root
    resolution names a registered entry id and the compiling loader fails
    for no relative resolution. *)
Theorem run_completes_iff reg (calls : list HookCall) p :
  is_normal (runHooks reg calls p).1 = forallb (hookCompletes reg) calls.
Proof.
  revert p. induction calls as [|c calls IH]; intros p; simpl; [done|].
  destruct (hookCompletes reg c) eqn:Hc; simpl.
  - destruct (callHook_completes reg c p Hc) as [r ->].
    rewrite <- (IH (mkPlugin (assign (virtualCache p) (written reg c))
                             (compiled p ++ option_list (visit reg c)))).
    by destruct (runHooks reg calls _) as [[rs|e] p'].
  - by destruct (callHook_throws reg c p Hc) as [e ->].
Qed.

(** X16: the first call that fails ends the run. What the calls before it
    stored stays in the cache, the failing call stores nothing, its path
    has been handed to the loader if it is a relative resolution, and no
    later call is answered. *)
Theorem failed_run_keeps_earlier_writes reg (before after : list HookCall)
    (c : HookCall) p :
  forallb (hookCompletes reg) before = true →
  hookCompletes reg c = false →
  ∃ e, runHooks reg (before ++ c :: after) p
       = (Throw e,
          mkPlugin (foldl (λ cache c, assign cache (written reg c))
                          (virtualCache p) before)
                   (compiled p ++ visits reg (before ++ [c]))).
Proof.
  intros Hbefore Hc.
  destruct (runHooks_completes reg before p Hbefore) as (rs & Hrun & _).
  rewrite (runHooks_app reg before (c :: after) _ _ _ Hrun). simpl.
  destruct (callHook_throws reg c
              (mkPlugin (foldl (λ cache c, assign cache (written reg c))
                               (virtualCache p) before)
                        (compiled p ++ visits reg before)) Hc) as [e ->].
  exists e. simpl.
  do 2 f_equal. unfold visits. rewrite omap_app, app_assoc. simpl.
  by destruct (visit reg c).
Qed.

Lemma cache_after_calls reg (calls : list HookCall) (cache : gmap string string)
    (id : string) :
  foldl (λ cache c, assign cache (written reg c)) cache calls !! id
    = match lastWritten reg calls id with
      | Some v => Some v
      | None => cache !! id
      end.
Proof.
  unfold lastWritten.
  induction calls as [|c calls IH] using rev_ind; [done|].
  rewrite foldl_app, omap_app. simpl. unfold writesTo at 2.
  destruct (written reg c) as [[k v]|]; simpl.
  - destruct (decide (k = id)) as [->|Hne]; simpl.
    + by rewrite last_snoc, lookup_insert_eq.
    + by rewrite app_nil_r, lookup_insert_ne.
  - by rewrite app_nil_r.
Qed.

(** X17: [load] answers with the last content stored under the id. In a
    completed run, a [load(id)] call returns what the latest earlier
    resolution stored under [id], whether the source text of an entry point
    or the body of a compiled module; with no such resolution it returns
    what [virtualCache[id]] found at the start, which for an empty cache is
    [undefined], or the member of [Object.prototype] of that name when
    [id] is the name of one. *)
Theorem load_returns_last_write reg (before after : list HookCall) (id : string)
    p (rs : list HookResult) p' :
  runHooks reg (before ++ CallLoad id :: after) p = (Normal rs, p') →
  rs !! length before
    = Some (Loaded match lastWritten reg before id with
                   | Some v => Some (CachedText v)
                   | None => load id p
                   end) ∧
  (virtualCache p = ∅ → lastWritten reg before id = None →
   rs !! length before
     = Some (Loaded (if inherited id then Some (CachedMember id) else None))).
Proof.
  intros Hrun.
  destruct (runHooks_split reg before _ _ _ _ Hrun)
    as (rs1 & p1 & rs2 & Hrun1 & Hrun2 & -> & Hlen).
  rewrite (runHooks_state _ _ _ _ _ Hrun1) in Hrun2. simpl in Hrun2.
  destruct (runHooks reg after _) as [[rs3|e] p3]; [|done].
  injection Hrun2 as <- _.
  rewrite lookup_app_r by lia. rewrite Hlen, Nat.sub_diag. simpl.
  unfold load, get. simpl. rewrite cache_after_calls. split.
  - by destruct (lastWritten reg before id).
  - intros -> ->. rewrite lookup_empty. by destruct (inherited id).
Qed.

End plugin_runs.

Lemma load_returns_last_write_witness :
  runHooks (H:=Sample.path) (H0:=Sample.compiler) Sample.registry
    ([CallResolveId "e0.js" None; CallResolveId "./foo.js" (Some "e0.js")]
       ++ CallLoad "/site/foo.js" :: [CallLoad "toString"]) emptyPlugin
    = (Normal [Resolved (Some "e0.js"); Resolved (Some "/site/foo.js");
               Loaded (Some (CachedText "import './src/shared.js'; foo();"));
               Loaded (Some (CachedMember "toString"))],
       mkPlugin (<["/site/foo.js" := "import './src/shared.js'; foo();"]>
                   (<["e0.js" := "import './foo.js';"]> ∅))
                ["/site/foo.js"]) ∧
  [Resolved (Some "e0.js"); Resolved (Some "/site/foo.js");
   Loaded (Some (CachedText "import './src/shared.js'; foo();"));
   Loaded (Some (CachedMember "toString"))] !! 2
    = Some (Loaded (Some (CachedText "import './src/shared.js'; foo();"))).
Proof.
  assert (runHooks (H:=Sample.path) (H0:=Sample.compiler) Sample.registry
    ([CallResolveId "e0.js" None; CallResolveId "./foo.js" (Some "e0.js")]
       ++ CallLoad "/site/foo.js" :: [CallLoad "toString"]) emptyPlugin
    = (Normal [Resolved (Some "e0.js"); Resolved (Some "/site/foo.js");
               Loaded (Some (CachedText "import './src/shared.js'; foo();"));
               Loaded (Some (CachedMember "toString"))],
       mkPlugin (<["/site/foo.js" := "import './src/shared.js'; foo();"]>
                   (<["e0.js" := "import './foo.js';"]> ∅))
                ["/site/foo.js"])) as Hrun by (vm_compute; reflexivity).
  split; [exact Hrun|].
  exact (proj1 (load_returns_last_write (H:=Sample.path) (H0:=Sample.compiler)
                  Sample.registry
                  [CallResolveId "e0.js" None; CallResolveId "./foo.js" (Some "e0.js")]
                  [CallLoad "toString"] "/site/foo.js" emptyPlugin _ _ Hrun)).
Defined.

Lemma failed_run_keeps_earlier_writes_witness :
  forallb (hookCompletes (H:=Sample.path) (H0:=Sample.compiler) Sample.registry)
    [CallResolveId "e0.js" None; CallResolveId "./foo.js" (Some "e0.js")] = true ∧
  hookCompletes (H:=Sample.path) (H0:=Sample.compiler) Sample.registry
    (CallResolveId "main.js" None) = false ∧
  ∃ e, runHooks (H:=Sample.path) (H0:=Sample.compiler) Sample.registry
         ([CallResolveId "e0.js" None; CallResolveId "./foo.js" (Some "e0.js")]
            ++ CallResolveId "main.js" None :: [CallLoad "e0.js"]) emptyPlugin
       = (Throw e,
          mkPlugin (<["/site/foo.js" := "import './src/shared.js'; foo();"]>
                      (<["e0.js" := "import './foo.js';"]> ∅))
                   ["/site/foo.js"]).
Proof.
  split; [vm_compute; reflexivity|]. split; [vm_compute; reflexivity|].
  apply (failed_run_keeps_earlier_writes (H:=Sample.path) (H0:=Sample.compiler)
           Sample.registry
           [CallResolveId "e0.js" None; CallResolveId "./foo.js" (Some "e0.js")]
           [CallLoad "e0.js"] (CallResolveId "main.js" None) emptyPlugin).
  - vm_compute. reflexivity.
  - vm_compute. reflexivity.
Defined.

(** * Further properties of the small functions *)

(** X18: [virtualModuleContent] throws exactly for an id that starts
    with [./] or [../] and is not answered as an inline module: a
    [TypeError] without importer, where [path.dirname] is called on
    [undefined], and a [ReferenceError] with one, where line 227 reads
    [matchSceneMin], which release.js binds nowhere. So no call reaches the
    scene matcher or the scene compiler, and a call that completes returns
    decoded inline text or [undefined]. *)
Theorem virtual_module_throws_iff `{Path, SceneTools} (id : string)
    (importer : option string) :
  (is_normal (virtualModuleContent id importer).1 = false
   ↔ (startsWith id "./" = true ∨ startsWith id "../" = true)
     ∧ (importer = None → indexOf id inlineMarker = None)) ∧
  (∀ e, (virtualModuleContent id importer).1 = Throw e →
        match importer with
        | None => ∃ msg, e = TypeError msg
        | Some _ => ∃ msg, e = ReferenceError msg
        end) ∧
  (∀ c, (virtualModuleContent id importer).1 = Normal c →
        c = ContentUndefined ∨ ∃ text, c = ContentText text) ∧
  (virtualModuleContent id importer).2 = [].
Proof.
  unfold virtualModuleContent.
  destruct importer as [importer|]; [|destruct (indexOf id inlineMarker) as [k|]];
    destruct (startsWith id "./") eqn:H1, (startsWith id "../") eqn:H2; simpl;
    (split_and!;
     [ split;
       [ intros Hn; first [discriminate Hn | split; [by eauto|done]]
       | intros [[Hs|Hs] Hm];
         first [discriminate Hs | reflexivity
               | specialize (Hm eq_refl); discriminate Hm] ]
     | intros e He; first [discriminate He | injection He as <-; by eauto]
     | intros c Hc; first [discriminate Hc | injection Hc as <-; by eauto]
     | reflexivity ]).
Qed.

Lemma virtual_module_throws_iff_witness :
  startsWith "./scene.min.js" "./" = true ∧
  indexOf "./scene.min.js" inlineMarker = None ∧
  is_normal (virtualModuleContent (H:=Sample.path) (H0:=Sample.sceneTools)
               "./scene.min.js" None).1 = false ∧
  is_normal (virtualModuleContent (H:=Sample.path) (H0:=Sample.sceneTools)
               "./scene.min.js" (Some "/site/scenes/icehockey/index.js")).1 = false.
Proof.
  split; [reflexivity|]. split; [reflexivity|]. split.
  - apply (virtual_module_throws_iff (H:=Sample.path) (H0:=Sample.sceneTools)
             "./scene.min.js" None).
    split; [by left|reflexivity].
  - apply (virtual_module_throws_iff (H:=Sample.path) (H0:=Sample.sceneTools)
             "./scene.min.js" (Some "/site/scenes/icehockey/index.js")).
    split; [by left|discriminate].
Defined.

Lemma append_inj_l (p a b : string) : p +:+ a = p +:+ b → a = b.
Proof.
  induction p as [|c p IH]; [done|].
  change (String c (p +:+ a) = String c (p +:+ b) → a = b).
  intros [= Heq]. by apply IH.
Qed.

(** X19: scenes without a message id of their own get message ids that
    tell them apart, video scenes among themselves and other scenes among
    themselves. A scene named videoscene_<id> that is no video does share
    its message id with the video scene <id>. *)
Theorem scene_msgids_distinct_within_kind (a b : string) (v : bool) :
  a ≠ "" → b ≠ "" →
  (msgidForScene a (Some (mkSceneInfo None v))
     = msgidForScene b (Some (mkSceneInfo None v)) → a = b) ∧
  msgidForScene ("videoscene_" +:+ a) (Some (mkSceneInfo None false))
    = msgidForScene a (Some (mkSceneInfo None true)).
Proof.
  intros Ha Hb. unfold msgidForScene, truthy. simpl.
  destruct (String.eqb_spec a "") as [?|_]; [done|].
  destruct (String.eqb_spec b "") as [?|_]; [done|]. simpl.
  split; [|done].
  destruct v; apply append_inj_l.
Qed.

Lemma scene_msgids_distinct_within_kind_witness :
  "icehockey" ≠ "" ∧
  (msgidForScene "icehockey" (Some (mkSceneInfo None false))
     = msgidForScene "icehockey" (Some (mkSceneInfo None false)) →
   "icehockey" = "icehockey") ∧
  msgidForScene ("videoscene_" +:+ "icehockey") (Some (mkSceneInfo None false))
    = msgidForScene "icehockey" (Some (mkSceneInfo None true)).
Proof.
  split; [discriminate|].
  apply (scene_msgids_distinct_within_kind "icehockey" "icehockey" false);
    discriminate.
Defined.

(** X20: [_msg] never returns a blank: whatever the catalog holds under
    the id, the result is a truthy value, the question mark at the least. *)
Theorem msg_is_never_blank (messages : list (string * Magic.Json)) (id : string) :
  ∃ v, Magic._msg messages id = Normal v ∧ Magic.truthy v = true.
Proof.
  unfold Magic._msg, Magic.lookup.
  destruct (Map_get messages id) as [entry|].
  - destruct entry as [|b|q|s|items|fields]; simpl;
      rewrite ?inherited_raw, ?inherited_message;
      unfold Magic.and_, Magic.or_, Magic.bind; simpl.
    + by eauto.
    + destruct b; simpl; by eauto.
    + destruct (Qeq_bool q 0) eqn:Hq; simpl; rewrite ?Hq; simpl; by eauto.
    + destruct (truthy s) eqn:Hs; simpl; rewrite ?Hs; simpl; by eauto.
    + by eauto.
    + destruct (Magic.truthy (Magic.lookup fields "raw")) eqn:Hraw; simpl.
      * rewrite Hraw. by eauto.
      * destruct (Magic.truthy (Magic.lookup fields "message")) eqn:Hm;
          simpl; rewrite ?Hm; by eauto.
  - destruct (inherited id); simpl;
      rewrite ?inherited_raw, ?inherited_message; simpl; by eauto.
Qed.

(** ** join *)

Lemma endsWith_slash (a : string) : endsWith (a +:+ "/") "/" = true.
Proof.
  unfold endsWith. rewrite length_append. simpl.
  rewrite bool_decide_true by lia.
  replace (String.length a + 1 - 1) with (String.length a) by lia.
  by rewrite slice_append.
Qed.

Section join.
Context `{MagicUrl.UrlApi}.

Lemma joinLoop_slash (pre rest : list string) (a : string) :
  rest ≠ [] → endsWith a "/" = false →
  ∀ u, MagicUrl.joinLoop u (pre ++ a :: rest)
       = MagicUrl.joinLoop u (pre ++ (a +:+ "/") :: rest).
Proof.
  intros Hrest Ha. induction pre as [|p pre IH]; intros u; simpl.
  - rewrite Ha, endsWith_slash, bool_decide_true by done. done.
  - rewrite !bool_decide_true by (by destruct pre).
    destruct (MagicUrl.URL_new _ (Some u)) as [u'|e]; [apply IH|done].
Qed.

(** X21: [join] puts the slash in where a path that is not the last one
    lacks it: writing the slash out changes nothing, whatever [URL] does
    with the references. *)
Theorem join_supplies_missing_slash (url : string) (pre rest : list string)
    (a : string) :
  rest ≠ [] → endsWith a "/" = false →
  MagicUrl.join url (pre ++ a :: rest)
    = MagicUrl.join url (pre ++ (a +:+ "/") :: rest).
Proof.
  intros Hrest Ha. unfold MagicUrl.join.
  destruct (MagicUrl.URL_new url None) as [u|e]; [|done].
  by rewrite (joinLoop_slash pre rest a Hrest Ha).
Qed.

End join.

Lemma join_supplies_missing_slash_witness :
  endsWith "static" "/" = false ∧
  MagicUrl.join (H:=MagicUrl.segmentsUrl) "site/index.js" ([".."] ++ "static" :: ["img/a.png"])
    = MagicUrl.join (H:=MagicUrl.segmentsUrl) "site/index.js"
        ([".."] ++ ("static" +:+ "/") :: ["img/a.png"]).
Proof.
  split; [reflexivity|].
  apply (join_supplies_missing_slash (H:=MagicUrl.segmentsUrl) "site/index.js"
           [".."] ["img/a.png"] "static").
  - discriminate.
  - reflexivity.
Defined.

(** ** The elves *)

Section elves_run.
Context `{Elves.Number}.

Lemma spawnElf_next (s : Elves.ElvesSystem) :
  Elves.elves s = Some Elves.ELVES_IMAGES →
  Elves.nextElfIndex s = length (Elves.added s) `mod` 5 →
  (∀ k, k < length (Elves.added s) →
        Elves.added s !! k = Elves.ELVES_IMAGES !! (k `mod` 5)) →
  ∃ s', Elves.spawnElf s = Normal s' ∧
        Elves.seconds s' = Elves.seconds s ∧
        Elves.spawnPeriod s' = Elves.spawnPeriod s ∧
        Elves.readFromScene s' = Elves.readFromScene s ∧
        Elves.elves s' = Some Elves.ELVES_IMAGES ∧
        length (Elves.added s') = S (length (Elves.added s)) ∧
        Elves.nextElfIndex s' = length (Elves.added s') `mod` 5 ∧
        (∀ k, k < length (Elves.added s') →
              Elves.added s' !! k = Elves.ELVES_IMAGES !! (k `mod` 5)).
Proof.
  intros Helves Hnext Hadded. unfold Elves.spawnElf. rewrite Helves, Hnext.
  assert (length (Elves.added s) `mod` 5 < 5) as Hlt by (apply Nat.mod_upper_bound; lia).
  destruct (Elves.ELVES_IMAGES !! (length (Elves.added s) `mod` 5)) as [sprite|] eqn:Hsprite.
  2: { apply lookup_ge_None in Hsprite. simpl in Hsprite. lia. }
  eexists. split; [reflexivity|]. cbn -[Nat.modulo lookup].
  rewrite length_app. cbn -[Nat.modulo lookup]. split_and!; try done.
  - lia.
  - by rewrite Nat.Div0.add_mod_idemp_l.
  - intros k Hk. destruct (decide (k < length (Elves.added s))) as [Hlt'|Hge].
    + rewrite lookup_app_l by done. by apply Hadded.
    + assert (k = length (Elves.added s)) as -> by lia.
      rewrite lookup_app_r by lia. rewrite Nat.sub_diag. by rewrite Hsprite.
Qed.

Lemma update_spawn (s : Elves.ElvesSystem) (d : Elves.number) :
  Elves.elves s = Some Elves.ELVES_IMAGES →
  Elves.readFromScene s = false →
  Elves.nextElfIndex s = length (Elves.added s) `mod` 5 →
  (∀ k, k < length (Elves.added s) →
        Elves.added s !! k = Elves.ELVES_IMAGES !! (k `mod` 5)) →
  ∃ s', Elves.update s d = Normal s' ∧
        Elves.elves s' = Some Elves.ELVES_IMAGES ∧
        Elves.readFromScene s' = false ∧
        length (Elves.added s') ≤ S (length (Elves.added s)) ∧
        Elves.nextElfIndex s' = length (Elves.added s') `mod` 5 ∧
        (∀ k, k < length (Elves.added s') →
              Elves.added s' !! k = Elves.ELVES_IMAGES !! (k `mod` 5)).
Proof.
  intros Helves Hmode Hnext Hadded. unfold Elves.update. cbv zeta.
  set (s0 := Elves.mkElvesSystem _ _ _ _ _ _ _).
  destruct (negb (Elves.readFromScene s0) && _).
  - destruct (spawnElf_next s0 Helves Hnext Hadded)
      as (s1 & -> & _ & _ & Hmode1 & Helves1 & Hlen1 & Hnext1 & Hadded1).
    eexists. split; [reflexivity|]. cbn -[Nat.modulo lookup].
    split_and!; try done.
    + by rewrite Hmode1.
    + rewrite Hlen1. done.
  - exists s0. split_and!; try done. simpl. lia.
Qed.

Lemma updates_spawn (deltas : list Elves.number) :
  ∀ s : Elves.ElvesSystem,
    Elves.elves s = Some Elves.ELVES_IMAGES →
    Elves.readFromScene s = false →
    Elves.nextElfIndex s = length (Elves.added s) `mod` 5 →
    (∀ k, k < length (Elves.added s) →
          Elves.added s !! k = Elves.ELVES_IMAGES !! (k `mod` 5)) →
    ∃ s', Elves.updates s deltas = Normal s' ∧
          length (Elves.added s') ≤ length (Elves.added s) + length deltas ∧
          Elves.nextElfIndex s' = length (Elves.added s') `mod` 5 ∧
          (∀ k, k < length (Elves.added s') →
                Elves.added s' !! k = Elves.ELVES_IMAGES !! (k `mod` 5)).
Proof.
  induction deltas as [|d deltas IH]; intros s Helves Hmode Hnext Hadded.
  - exists s. split_and!; [done|simpl; lia|done|done].
  - destruct (update_spawn s d Helves Hmode Hnext Hadded)
      as (s1 & Hupd & Helves1 & Hmode1 & Hlen1 & Hnext1 & Hadded1).
    destruct (IH s1 Helves1 Hmode1 Hnext1 Hadded1) as (s' & Hrun & Hlen' & Hrest).
    exists s'. cbn [Elves.updates]. rewrite Hupd.
    split_and!; [done| |apply Hrest|apply Hrest].
    cbn [length]. lia.
Qed.

(** X22: an [ElvesSystem] that makes its own sprites never reads past
    its list of elves in [update]: over any sequence of frames at most one
    elf is spawned per frame, and the elves spawned go through the five
    images in order, again and again. The camera and the scene are taken
    to accept the calls made on them. *)
Theorem elves_spawn_in_rotation (deltas : list Elves.number) :
  ∃ s', Elves.updates (Elves.construct false) deltas = Normal s' ∧
        length (Elves.added s') ≤ length deltas ∧
        Elves.nextElfIndex s' = length (Elves.added s') `mod` 5 ∧
        (∀ k, k < length (Elves.added s') →
              Elves.added s' !! k = Elves.ELVES_IMAGES !! (k `mod` 5)).
Proof.
  destruct (updates_spawn deltas (Elves.construct false)) as (s' & Hrun & Hlen & Hrest).
  - done.
  - done.
  - done.
  - simpl. intros k Hk. lia.
  - exists s'. destruct Hrest as [Hnext Hadded].
    split_and!; [done|exact Hlen|done|done].
Qed.

(** X23: an [ElvesSystem] that reads its elves from the scene never
    spawns one: [update] only advances the clock, and the undefined
    [elves] field is never read. *)
Theorem scene_elves_never_spawn (deltas : list Elves.number) :
  ∃ s', Elves.updates (Elves.construct true) deltas = Normal s' ∧
        Elves.added s' = [] ∧ Elves.nextElfIndex s' = 0 ∧
        Elves.seconds s' = foldl Elves.add Elves.zero deltas.
Proof.
  assert (∀ s : Elves.ElvesSystem, Elves.readFromScene s = true →
            ∃ s', Elves.updates s deltas = Normal s' ∧
                  Elves.added s' = Elves.added s ∧
                  Elves.nextElfIndex s' = Elves.nextElfIndex s ∧
                  Elves.seconds s' = foldl Elves.add (Elves.seconds s) deltas) as Hloop.
  { induction deltas as [|d deltas IH]; intros s Hmode; simpl.
    - by exists s.
    - unfold Elves.update. simpl. rewrite Hmode. simpl.
      destruct (IH (Elves.mkElvesSystem (Elves.add (Elves.seconds s) d) (Elves.lastSpawn s)
                      (Elves.spawnPeriod s) true (Elves.elves s)
                      (Elves.nextElfIndex s) (Elves.added s)) eq_refl)
        as (s' & -> & Hadded & Hnext & Hsec).
      by exists s'. }
  apply (Hloop (Elves.construct true) eq_refl).
Qed.

End elves_run.

